(** * JSONW: a shallow embedding of [jsonw.c]

    The parser of [jsonw.c] walks a NUL-terminated text through [char *]
    cursors and reports failure with [NULL].  Here the text is the list of
    the bytes that precede the terminator, a cursor is an offset into it
    ([None] is [NULL]), and reading at the end of the list yields the
    terminator byte; the cursors that the parser returns are shown never to
    lie beyond it.  An out-parameter is modelled by passing the value
    its pointee holds before the call and returning the value it holds
    after it; a caller that passes [NULL] passes any value and drops the
    result, which is what the [OUT_PARAM] macro arranges.  The loops of the
    source are written with a fuel argument; the fuel that each entry point
    supplies is shown to be enough. *)

From Stdlib Require Import List ZArith Lia Bool Ascii String PrimFloat Uint63.
Import ListNotations.

Local Open Scope Z_scope.

(** ** Results of fuelled loops *)

Inductive fres (A : Type) : Type :=
| Done (a : A)
| OutOfFuel.
Arguments Done {A} a.
Arguments OutOfFuel {A}.

Definition fbind {A B} (r : fres A) (k : A -> fres B) : fres B :=
  match r with
  | Done a => k a
  | OutOfFuel => OutOfFuel
  end.

Notation "x <- r ;; k" := (fbind r (fun x => k))
  (at level 61, r at next level, right associativity).
Notation "' p <- r ;; k" := (fbind r (fun x => let p := x in k))
  (at level 61, p pattern, r at next level, right associativity).

Definition unwrap {A} (d : A) (r : fres A) : A :=
  match r with
  | Done a => a
  | OutOfFuel => d
  end.

(** ** Bytes, machine integers, cursors *)

Definition cursor : Type := option nat.

Definition code (c : ascii) : Z := Z.of_N (N_of_ascii c).

Definition NUL : ascii := "000"%char.
Definition DQUOTE : ascii := "034"%char.
Definition BACKSLASH : ascii := "\"%char.

(** [unsigned short] is taken to be 16 bits wide and [size_t] 64 bits. *)
Definition ushort (z : Z) : Z := z mod 65536.

(** The cast [(short)x] of an [unsigned short], bit pattern preserved. *)
Definition to_short (z : Z) : Z := if z <? 32768 then z else z - 65536.

Definition size_t (z : Z) : Z := z mod 2 ^ 64.

(** [<ctype.h>] in the C locale. *)
Definition isdigit (c : ascii) : bool := (48 <=? code c) && (code c <=? 57).

Definition isxdigit (c : ascii) : bool :=
  isdigit c
  || ((97 <=? code c) && (code c <=? 102))
  || ((65 <=? code c) && (code c <=? 70)).

Definition tolower (c : ascii) : Z :=
  if (65 <=? code c) && (code c <=? 90) then code c + 32 else code c.

(** [strchr(" \t\n\r", c)] for a byte [c] that is not the terminator. *)
Definition is_wschr (c : ascii) : bool :=
  (code c =? 32) || (code c =? 9) || (code c =? 10) || (code c =? 13).

(** Conversion of a C [int] to [double]. *)
Definition double_of_int (z : Z) : float :=
  if z <? 0 then PrimFloat.opp (PrimFloat.of_uint63 (Uint63.of_Z (- z)))
  else PrimFloat.of_uint63 (Uint63.of_Z z).

(** Modelled from the spec: the enumeration [jsonw_ty] is declared in
    [jsonw.h], which is not part of the sources at hand.  The spec lists
    the value kinds as null, boolean, number, string, array, object; the
    enumerators are numbered in that order, so that [JSONW_NULL] is the
    only one that is zero (the source pairs exactly that assignment with
    [, 1] inside its [&&] chains). *)
Inductive jsonw_ty : Type :=
| JSONW_NULL
| JSONW_BOOLEAN
| JSONW_NUMBER
| JSONW_STRING
| JSONW_ARRAY
| JSONW_OBJECT.

Definition ty_code (t : jsonw_ty) : Z :=
  match t with
  | JSONW_NULL => 0
  | JSONW_BOOLEAN => 1
  | JSONW_NUMBER => 2
  | JSONW_STRING => 3
  | JSONW_ARRAY => 4
  | JSONW_OBJECT => 5
  end.

(** A C string literal as the bytes before its terminator. *)
Definition bytes (s : string) : list ascii := list_ascii_of_string s.

(** The same, with every apostrophe standing for a double quote, so that
    JSON documents can be written down legibly. *)
Definition json_bytes (s : string) : list ascii :=
  map (fun c => if Ascii.eqb c "'"%char then DQUOTE else c) (bytes s).

Section Text.

(** The text, without its terminator. *)
Variable buf : list ascii.

(** [*json] for [json = buf + p]. *)
Definition peek (p : nat) : ascii := nth p buf NUL.

(** The iterations left before a cursor that moves forward one byte at a
    time meets the terminator, plus one. *)
Definition fuel_at (p : nat) : nat := S (List.length buf - p).

(** *** Basic parsers *)

Definition jsonw_litchr (chr : ascii) (json : cursor) : cursor :=
  match json with
  | Some p => if Ascii.eqb (peek p) chr then Some (S p) else None
  | None => None
  end.

(** [strncmp(json, str, strlen(str)) == 0]: the bytes of [str], none of
    which is the terminator, are found one after the other at [p]. *)
Fixpoint strncmp_eq (p : nat) (str : list ascii) : bool :=
  match str with
  | [] => true
  | c :: str' => Ascii.eqb (peek p) c && strncmp_eq (S p) str'
  end.

Definition jsonw_litstr (str : string) (json : cursor) : cursor :=
  match json with
  | Some p =>
      if strncmp_eq p (bytes str)
      then Some (p + String.length str)%nat
      else None
  | None => None
  end.

(** *** Characters *)

Fixpoint ws_loop (fuel : nat) (p : nat) : fres nat :=
  match fuel with
  | O => OutOfFuel
  | S fuel' =>
      if negb (Ascii.eqb (peek p) NUL) && is_wschr (peek p)
      then ws_loop fuel' (S p)
      else Done p
  end.

Definition ws_at (p : nat) : nat := unwrap p (ws_loop (fuel_at p) p).

Definition jsonw_ws (json : cursor) : cursor :=
  match json with
  | Some p => Some (ws_at p)
  | None => None
  end.

Definition WSCHRWS (chr : ascii) (json : cursor) : cursor :=
  jsonw_ws (jsonw_litchr chr (jsonw_ws json)).

Definition jsonw_beginarr := WSCHRWS "["%char.
Definition jsonw_endarr := WSCHRWS "]"%char.
Definition jsonw_beginobj := WSCHRWS "{"%char.
Definition jsonw_endobj := WSCHRWS "}"%char.
Definition jsonw_namesep := WSCHRWS ":"%char.
Definition jsonw_valuesep := WSCHRWS ","%char.
Definition jsonw_beginstr := jsonw_litchr DQUOTE.
Definition jsonw_endstr := jsonw_litchr DQUOTE.

(** *** Values *)

Definition jsonw_null (json : cursor) : cursor := jsonw_litstr "null" json.

Definition jsonw_boolean (b : bool) (json : cursor) : cursor * bool :=
  match jsonw_litstr "true" json with
  | Some j => (Some j, true)
  | None =>
      match jsonw_litstr "false" json with
      | Some j => (Some j, false)
      | None => (None, b)
      end
  end.

(** The loop of [DIGIT_PLUS]: [LVALUE *= 10, LVALUE += *json - '0'] for
    every digit; [step] is that update at the type of [LVALUE]. *)
Fixpoint digits_loop {A} (step : A -> Z -> A) (fuel : nat) (acc : A) (p : nat)
  : fres (A * nat) :=
  match fuel with
  | O => OutOfFuel
  | S fuel' =>
      if isdigit (peek p)
      then digits_loop step fuel' (step acc (code (peek p) - 48)) (S p)
      else Done (acc, p)
  end.

(** [DIGIT_PLUS(LVALUE)]: [None] is the [return NULL] of the macro. *)
Definition DIGIT_PLUS {A} (step : A -> Z -> A) (acc : A) (p : nat)
  : option (A * nat) :=
  if negb (isdigit (peek p)) then None
  else Some (unwrap (acc, p) (digits_loop step (fuel_at p) acc p)).

Definition step_double (x : float) (d : Z) : float :=
  PrimFloat.add (PrimFloat.mul x (double_of_int 10)) (double_of_int d).

Definition step_ushort (x : Z) (d : Z) : Z := ushort (ushort (x * 10) + d).

(** [for (; (short)exponent > 0; exponent--) significand *= 10;] *)
Fixpoint scale_up (n : nat) (x : float) : float :=
  match n with
  | O => x
  | S n' => scale_up n' (PrimFloat.mul x (double_of_int 10))
  end.

(** [for (; (short)exponent < 0; exponent++) significand /= 10;] *)
Fixpoint scale_down (n : nat) (x : float) : float :=
  match n with
  | O => x
  | S n' => scale_down n' (PrimFloat.div x (double_of_int 10))
  end.

Definition jsonw_number (num : float) (json : cursor) : cursor * float :=
  match json with
  | None => (None, num)
  | Some p =>
      let '(sign, p) :=
        if Ascii.eqb (peek p) "-"%char then (-1, S p) else (1, p) in
      let significand := double_of_int 0 in
      let shift := 0 in
      let exponent := 0 in
      match
        (if Ascii.eqb (peek p) "0"%char then Some (significand, S p)
         else DIGIT_PLUS step_double significand p)
      with
      | None => (None, num)
      | Some (significand, p) =>
          match
            (if Ascii.eqb (peek p) "."%char then
               let j := S p in
               match DIGIT_PLUS step_double significand j with
               | None => None
               | Some (significand, p) =>
                   Some (significand, ushort (Z.of_nat p - Z.of_nat j), p)
               end
             else Some (significand, shift, p))
          with
          | None => (None, num)
          | Some (significand, shift, p) =>
              match
                (if Ascii.eqb (peek p) "e"%char || Ascii.eqb (peek p) "E"%char
                 then
                   let p := S p in
                   let '(esign, p) :=
                     if Ascii.eqb (peek p) "-"%char then (-1, S p)
                     else if Ascii.eqb (peek p) "+"%char then (1, S p)
                     else (1, p) in
                   match DIGIT_PLUS step_ushort exponent p with
                   | None => None
                   | Some (exponent, p) => Some (ushort (exponent * esign), p)
                   end
                 else Some (exponent, p))
              with
              | None => (None, num)
              | Some (exponent, p) =>
                  let exponent := ushort (exponent - shift) in
                  let significand :=
                    PrimFloat.mul significand (double_of_int sign) in
                  let e := to_short exponent in
                  let significand :=
                    if 0 <? e then scale_up (Z.to_nat e) significand
                    else scale_down (Z.to_nat (- e)) significand in
                  (Some p, significand)
              end
          end
      end
  end.

(** *** Strings *)

(** The four hexadecimal digits of a [\u] escape: [i] counts the
    iterations left, [codepoint] is an [unsigned short]. *)
Fixpoint hex_loop (i : nat) (codepoint : Z) (p : nat) : option (Z * nat) :=
  match i with
  | O => Some (codepoint, p)
  | S i' =>
      let codepoint := ushort (Z.shiftl codepoint 4) in
      if isdigit (peek p)
      then hex_loop i' (ushort (Z.lor codepoint (code (peek p) - 48))) (S p)
      else if isxdigit (peek p)
      then hex_loop i'
             (ushort (Z.lor codepoint (tolower (peek p) - 97 + 10))) (S p)
      else None
  end.

Definition chr_of (z : Z) : ascii := ascii_of_N (Z.to_N z).

Definition jsonw_character (chr : ascii) (json : cursor) : cursor * ascii :=
  match json with
  | None => (None, chr)
  | Some p =>
      if Ascii.eqb (peek p) BACKSLASH then
        let e := peek (S p) in
        let p := S (S p) in
        if Ascii.eqb e DQUOTE || Ascii.eqb e BACKSLASH || Ascii.eqb e "/"%char
        then (Some p, e)
        else if Ascii.eqb e "b"%char then (Some p, "008"%char)
        else if Ascii.eqb e "f"%char then (Some p, "012"%char)
        else if Ascii.eqb e "n"%char then (Some p, "010"%char)
        else if Ascii.eqb e "r"%char then (Some p, "013"%char)
        else if Ascii.eqb e "t"%char then (Some p, "009"%char)
        else if Ascii.eqb e "u"%char then
          match hex_loop 4 0 p with
          | None => (None, chr)
          | Some (codepoint, p) =>
              (Some p, if codepoint <=? 127 then chr_of codepoint else NUL)
          end
        else (None, chr)
      else if (32 <=? code (peek p)) && negb (Ascii.eqb (peek p) DQUOTE)
      then (Some (S p), peek p)
      else (None, chr)
  end.

(** [for (length = 0; j = jsonw_character(NULL, j); json = j) length++;]
    returns the last [json] and [length]. *)
Fixpoint string_loop (fuel : nat) (json : cursor) (length : Z)
  : fres (cursor * Z) :=
  match fuel with
  | O => OutOfFuel
  | S fuel' =>
      match fst (jsonw_character NUL json) with
      | Some j => string_loop fuel' (Some j) (size_t (length + 1))
      | None => Done (json, length)
      end
  end.

Definition cursor_fuel (json : cursor) : nat :=
  match json with
  | Some p => fuel_at p
  | None => 1%nat
  end.

Definition jsonw_string (len : Z) (json : cursor) : cursor * Z :=
  let json := jsonw_beginstr json in
  let '(json, length) :=
    unwrap (json, 0) (string_loop (cursor_fuel json) json 0) in
  match jsonw_endstr json with
  | Some json => (Some json, length)
  | None => (None, len)
  end.

Definition jsonw_name (json : cursor) : cursor :=
  jsonw_namesep (fst (jsonw_string 0 json)).

(** In the chain of [&&] and [||], every assignment to [*type] is the last
    operand of its conjunction; [JSONW_NULL] is paired with [, 1] and the
    other enumerators are not zero ([ty_code]), so the chain stops at the
    first parser that returns a cursor. *)
Definition jsonw_primitive (type : jsonw_ty) (json : cursor)
  : cursor * jsonw_ty :=
  match jsonw_null json with
  | Some j => (Some j, JSONW_NULL)
  | None =>
      match fst (jsonw_boolean false json) with
      | Some j => (Some j, JSONW_BOOLEAN)
      | None =>
          match fst (jsonw_number (double_of_int 0) json) with
          | Some j => (Some j, JSONW_NUMBER)
          | None =>
              match fst (jsonw_string 0 json) with
              | Some j => (Some j, JSONW_STRING)
              | None => (None, type)
              end
          end
      end
  end.

(** *** Arrays, objects, values

    [jsonw_value], [jsonw_structured], [jsonw_array] and [jsonw_object]
    call one another; every call spends one unit of fuel.  The two [for]
    loops are [array_loop] and [object_loop]; they carry [len], the value
    behind the out-parameter, to their exits. *)

Fixpoint jsonw_value_f (fuel : nat) (type : jsonw_ty) (json : cursor)
  {struct fuel} : fres (cursor * jsonw_ty) :=
  match fuel with
  | O => OutOfFuel
  | S fuel =>
      match json with
      | None => Done (None, type)
      | Some _ =>
          match jsonw_primitive type json with
          | (Some j, type) => Done (Some j, type)
          | (None, type) => jsonw_structured_f fuel type json
          end
      end
  end

with jsonw_structured_f (fuel : nat) (type : jsonw_ty) (json : cursor)
  {struct fuel} : fres (cursor * jsonw_ty) :=
  match fuel with
  | O => OutOfFuel
  | S fuel =>
      ' (j, _) <- jsonw_array_f fuel 0 json ;;
      match j with
      | Some j => Done (Some j, JSONW_ARRAY)
      | None =>
          ' (j, _) <- jsonw_object_f fuel 0 json ;;
          match j with
          | Some j => Done (Some j, JSONW_OBJECT)
          | None => Done (None, type)
          end
      end
  end

with jsonw_array_f (fuel : nat) (len : Z) (json : cursor)
  {struct fuel} : fres (cursor * Z) :=
  match fuel with
  | O => OutOfFuel
  | S fuel =>
      let json := jsonw_beginarr json in
      match jsonw_endarr json with
      | Some j => Done (Some j, len)
      | None => array_loop fuel len json 0
      end
  end

with array_loop (fuel : nat) (len : Z) (json : cursor) (length : Z)
  {struct fuel} : fres (cursor * Z) :=
  match fuel with
  | O => OutOfFuel
  | S fuel =>
      ' (json, _) <- jsonw_value_f fuel JSONW_NULL json ;;
      match json with
      | None => Done (None, len)
      | Some _ =>
          match jsonw_endarr json with
          | Some j => Done (Some j, length)
          | None =>
              array_loop fuel len (jsonw_valuesep json) (size_t (length + 1))
          end
      end
  end

with jsonw_object_f (fuel : nat) (len : Z) (json : cursor)
  {struct fuel} : fres (cursor * Z) :=
  match fuel with
  | O => OutOfFuel
  | S fuel =>
      let json := jsonw_beginobj json in
      match jsonw_endobj json with
      | Some j => Done (Some j, len)
      | None => object_loop fuel len json 0
      end
  end

with object_loop (fuel : nat) (len : Z) (json : cursor) (length : Z)
  {struct fuel} : fres (cursor * Z) :=
  match fuel with
  | O => OutOfFuel
  | S fuel =>
      ' (json, _) <- jsonw_value_f fuel JSONW_NULL (jsonw_name json) ;;
      match json with
      | None => Done (None, len)
      | Some _ =>
          match jsonw_endobj json with
          | Some j => Done (Some j, len)
          | None =>
              object_loop fuel len (jsonw_valuesep json) (size_t (length + 1))
          end
      end
  end.

(** Fuel for the mutually recursive functions started at [json]: four
    units for every byte left, and a few more. *)
Definition nest_fuel (json : cursor) : nat :=
  match json with
  | Some p => (4 * (List.length buf - p) + 8)%nat
  | None => 8%nat
  end.

Definition jsonw_array (len : Z) (json : cursor) : cursor * Z :=
  unwrap (None, len) (jsonw_array_f (nest_fuel json) len json).

Definition jsonw_object (len : Z) (json : cursor) : cursor * Z :=
  unwrap (None, len) (jsonw_object_f (nest_fuel json) len json).

Definition jsonw_structured (type : jsonw_ty) (json : cursor)
  : cursor * jsonw_ty :=
  unwrap (None, type) (jsonw_structured_f (nest_fuel json) type json).

Definition jsonw_value (type : jsonw_ty) (json : cursor)
  : cursor * jsonw_ty :=
  unwrap (None, type) (jsonw_value_f (nest_fuel json) type json).

Definition jsonw_element (json : cursor) : cursor :=
  jsonw_valuesep (fst (jsonw_value JSONW_NULL json)).

Definition jsonw_member (json : cursor) : cursor :=
  jsonw_element (jsonw_name json).

Definition jsonw_text (type : jsonw_ty) (json : cursor)
  : cursor * jsonw_ty :=
  let '(j, type) := jsonw_value type (jsonw_ws json) in
  (jsonw_ws j, type).

(** *** Utilities *)

(** [*str - c] at the exit of the loop of [jsonw_strcmp].  Bytes are read
    as unsigned here; a platform with signed [char] gives another sign to
    the difference of bytes above 127, and the same zero. *)
Fixpoint jsonw_strcmp (str : string) (json : cursor) : Z :=
  let '(json, c) := jsonw_character NUL json in
  match str with
  | EmptyString => 0 - code c
  | String s str' =>
      if Ascii.eqb s NUL then 0 - code c
      else if Ascii.eqb s c then jsonw_strcmp str' json
      else code s - code c
  end.

Fixpoint jsonw_index (idx : nat) (json : cursor) : cursor :=
  match idx with
  | O => json
  | S idx' => jsonw_index idx' (jsonw_element json)
  end.

Fixpoint find_loop (fuel : nat) (name : string) (json : cursor)
  : fres cursor :=
  match fuel with
  | O => OutOfFuel
  | S fuel' =>
      if jsonw_strcmp name (jsonw_beginstr json) =? 0 then Done json
      else
        match jsonw_member json with
        | Some j => find_loop fuel' name (Some j)
        | None => Done None
        end
  end.

Definition jsonw_find (name : string) (json : cursor) : cursor :=
  unwrap None (find_loop (cursor_fuel json) name json).

Definition jsonw_lookup (name : string) (json : cursor) : cursor :=
  jsonw_name (jsonw_find name json).

(** The caller's buffer is a list of bytes and [buf] an index into it,
    initially 0.  A store outside the list is the overrun that C leaves
    undefined; it is reported as [None]. *)
Definition store (out : list ascii) (i : nat) (c : ascii)
  : option (list ascii) :=
  if (i <? List.length out)%nat
  then Some (firstn i out ++ c :: skipn (S i) out)
  else None.

(** [for (char *j = json; --len && (j = jsonw_character(buf, j)); buf++)
      json = j;
    return *buf = '\0', json;] *)
Fixpoint unescape_loop (fuel : nat) (out : list ascii) (i : nat) (len : Z)
  (json : cursor) : fres (option (list ascii * cursor)) :=
  match fuel with
  | O => OutOfFuel
  | S fuel' =>
      let len := size_t (len - 1) in
      if len =? 0 then
        Done (option_map (fun out => (out, json)) (store out i NUL))
      else
        match jsonw_character (nth i out NUL) json with
        | (Some j, c) =>
            match store out i c with
            | Some out => unescape_loop fuel' out (S i) len (Some j)
            | None => Done None
            end
        | (None, _) =>
            Done (option_map (fun out => (out, json)) (store out i NUL))
        end
  end.

Definition jsonw_unescape (out : list ascii) (len : Z) (json : cursor)
  : option (list ascii * cursor) :=
  unwrap None (unescape_loop (cursor_fuel json) out 0 len json).

End Text.

(** *** The driver of [test.c]

    [char *end = jsonw_text(NULL, buf); bool valid = end && end - buf == size;]
    where [buf] holds the [size] bytes of the file, followed by a
    terminator. *)
Definition valid (buf : list ascii) : bool :=
  match fst (jsonw_text buf JSONW_NULL (Some 0%nat)) with
  | Some e => (e =? List.length buf)%nat
  | None => false
  end.

(** ** Runs of decoded characters

    [decodes buf p cs q]: successive calls of [jsonw_character] lead from
    offset [p] to offset [q] and decode the bytes [cs], in this order. *)
Inductive decodes (buf : list ascii) : nat -> list ascii -> nat -> Prop :=
| decodes_nil (p : nat) : decodes buf p [] p
| decodes_cons (p p' : nat) (c : ascii) (cs : list ascii) (q : nat) :
    jsonw_character buf NUL (Some p) = (Some p', c) ->
    decodes buf p' cs q ->
    decodes buf p (c :: cs) q.

(** The same from a cursor: nothing is decoded from [NULL]. *)
Definition decodes_from (buf : list ascii) (json : cursor) (cs : list ascii)
  (json' : cursor) : Prop :=
  match json with
  | Some p => exists q, json' = Some q /\ decodes buf p cs q
  | None => cs = [] /\ json' = None
  end.

(** A key that is a C string: none of its bytes is the terminator. *)
Fixpoint c_string (s : string) : bool :=
  match s with
  | EmptyString => true
  | String c s' => negb (Ascii.eqb c NUL) && c_string s'
  end.

(** ** Documents of the examples *)

Definition doc_nested : list ascii := json_bytes "{'a':1,'b':[2,3]}".
Definition doc_duplicate : list ascii := json_bytes "{'a':1,'a':2}".

(** ** Notions used in the statements *)

Section Notions.

Variable buf : list ascii.

(** The condition of the loop of [jsonw_ws] at offset [p]. *)
Definition ws_cond (p : nat) : bool :=
  negb (Ascii.eqb (peek buf p) NUL) && is_wschr (peek buf p).

(** The bytes between a cursor and the terminator. *)
Definition rem (json : cursor) : nat :=
  match json with
  | Some p => (List.length buf - p)%nat
  | None => O
  end.

(** A cursor is at or after another; [NULL] only follows [NULL]. *)
Definition cur_le (a b : cursor) : Prop :=
  match a, b with
  | Some p, Some q => (p <= q)%nat
  | None, None => True
  | _, _ => False
  end.

(** A production started at [json] ended at offset [q]: [json] is a
    cursor inside the text, and [q] is after it, inside the text or at its
    terminator. *)
Definition adv (json : cursor) (q : nat) : Prop :=
  exists p,
    json = Some p /\ (p < q <= List.length buf)%nat /\
    (p < List.length buf)%nat.

(** What a combinator with an out-parameter returns: failure with the
    pointee as it was, or a cursor further on. *)
Definition ok_result {T} (json : cursor) (old : T) (r : cursor * T) : Prop :=
  match fst r with
  | None => snd r = old
  | Some q => adv json q
  end.

(** Whatever the fuel, a result of the mutually recursive functions is a
    failure that left the out-parameter alone or a cursor further on;
    [jsonw_object] leaves its out-parameter alone in both cases. *)
Definition nest_ok (n : nat) : Prop :=
  (forall type json r,
      jsonw_value_f buf n type json = Done r -> ok_result json type r) /\
  (forall type json r,
      jsonw_structured_f buf n type json = Done r -> ok_result json type r) /\
  (forall len json r,
      jsonw_array_f buf n len json = Done r -> ok_result json len r) /\
  (forall len json length r,
      array_loop buf n len json length = Done r -> ok_result json len r) /\
  (forall len json r,
      jsonw_object_f buf n len json = Done r ->
      ok_result json len r /\ snd r = len) /\
  (forall len json length r,
      object_loop buf n len json length = Done r ->
      ok_result json len r /\ snd r = len).

(** Fuel that lets the mutually recursive functions finish: four units
    for every byte between the cursor and the terminator, and a constant
    that depends on the function. *)
Definition nest_total (n : nat) : Prop :=
  (forall type p, (4 * (List.length buf - p) + 5 <= n)%nat ->
      exists r, jsonw_value_f buf n type (Some p) = Done r) /\
  (forall type p, (4 * (List.length buf - p) + 4 <= n)%nat ->
      exists r, jsonw_structured_f buf n type (Some p) = Done r) /\
  (forall len p, (4 * (List.length buf - p) + 3 <= n)%nat ->
      exists r, jsonw_array_f buf n len (Some p) = Done r) /\
  (forall len p length, (4 * (List.length buf - p) + 6 <= n)%nat ->
      exists r, array_loop buf n len (Some p) length = Done r) /\
  (forall len p, (4 * (List.length buf - p) + 3 <= n)%nat ->
      exists r, jsonw_object_f buf n len (Some p) = Done r) /\
  (forall len p length, (4 * (List.length buf - p) + 6 <= n)%nat ->
      exists r, object_loop buf n len (Some p) length = Done r).

(** A result does not depend on the fuel that was left over: one more
    unit gives the same result. *)
Definition nest_stable (n : nat) : Prop :=
  (forall type json r,
      jsonw_value_f buf n type json = Done r ->
      jsonw_value_f buf (S n) type json = Done r) /\
  (forall type json r,
      jsonw_structured_f buf n type json = Done r ->
      jsonw_structured_f buf (S n) type json = Done r) /\
  (forall len json r,
      jsonw_array_f buf n len json = Done r ->
      jsonw_array_f buf (S n) len json = Done r) /\
  (forall len json length r,
      array_loop buf n len json length = Done r ->
      array_loop buf (S n) len json length = Done r) /\
  (forall len json r,
      jsonw_object_f buf n len json = Done r ->
      jsonw_object_f buf (S n) len json = Done r) /\
  (forall len json length r,
      object_loop buf n len json length = Done r ->
      object_loop buf (S n) len json length = Done r).

End Notions.

(** A string with the body [a], an escaped line feed and a raw line
    feed. *)
Definition control_in_string : list ascii :=
  DQUOTE :: "a"%char :: BACKSLASH :: "n"%char :: "010"%char :: [DQUOTE].

(** ** Notions used in further properties *)

(** [elements buf p n j]: values separated by value separators start at
    offset [p]; [n] separators are crossed and the last value ends at
    offset [j]. *)
Inductive elements (buf : list ascii) : nat -> nat -> nat -> Prop :=
| elements_last (p j : nat) :
    fst (jsonw_value buf JSONW_NULL (Some p)) = Some j ->
    elements buf p 0 j
| elements_more (p j k n j' : nat) :
    fst (jsonw_value buf JSONW_NULL (Some p)) = Some j ->
    jsonw_valuesep buf (Some j) = Some k ->
    elements buf k n j' ->
    elements buf p (S n) j'.

(** The same for members: a name, then a value. *)
Inductive members (buf : list ascii) : nat -> nat -> nat -> Prop :=
| members_last (p j : nat) :
    fst (jsonw_value buf JSONW_NULL (jsonw_name buf (Some p))) = Some j ->
    members buf p 0 j
| members_more (p j k n j' : nat) :
    fst (jsonw_value buf JSONW_NULL (jsonw_name buf (Some p))) = Some j ->
    jsonw_valuesep buf (Some j) = Some k ->
    members buf k n j' ->
    members buf p (S n) j'.

(** A [size_t] counter after [n] increments. *)
Fixpoint count_up (n : nat) (length : Z) : Z :=
  match n with
  | O => length
  | S n' => count_up n' (size_t (length + 1))
  end.

(** [skip_members buf k json]: [k] applications of [jsonw_member], the
    step of the loop of [jsonw_find]. *)
Fixpoint skip_members (buf : list ascii) (k : nat) (json : cursor) : cursor :=
  match k with
  | O => json
  | S k' => skip_members buf k' (jsonw_member buf json)
  end.

(** The value of a hexadecimal digit, as the loop of the [u] escape
    computes it: the byte minus the digit 0 for a decimal digit, its lower
    case minus the letter a plus 10 for a letter. *)
Definition hexval (c : ascii) : option Z :=
  if isdigit c then Some (code c - 48)
  else if isxdigit c then Some (tolower c - 97 + 10)
  else None.

(** The number that the [n] digits from offset [p] write in base ten,
    after the digits already read into [acc]. *)
Fixpoint decimal_at (buf : list ascii) (n : nat) (p : nat) (acc : Z) : Z :=
  match n with
  | O => acc
  | S n' => decimal_at buf n' (S p) (acc * 10 + (code (peek buf p) - 48))
  end.

(** [clean buf p q]: no byte from offset [p] up to, not including,
    offset [q] is the terminator. *)
Definition clean (buf : list ascii) (p q : nat) : Prop :=
  forall i, (p <= i < q)%nat -> peek buf i <> NUL.

(** The same from a cursor. *)
Definition clean_from (buf : list ascii) (json : cursor) (q : nat) : Prop :=
  exists p, json = Some p /\ clean buf p q.

(** Results of the mutually recursive functions cross no terminator. *)
Definition nest_clean (buf : list ascii) (n : nat) : Prop :=
  (forall type json q t,
      jsonw_value_f buf n type json = Done (Some q, t) ->
      clean_from buf json q) /\
  (forall type json q t,
      jsonw_structured_f buf n type json = Done (Some q, t) ->
      clean_from buf json q) /\
  (forall len json q l,
      jsonw_array_f buf n len json = Done (Some q, l) ->
      clean_from buf json q) /\
  (forall len json length q l,
      array_loop buf n len json length = Done (Some q, l) ->
      clean_from buf json q) /\
  (forall len json q l,
      jsonw_object_f buf n len json = Done (Some q, l) ->
      clean_from buf json q) /\
  (forall len json length q l,
      object_loop buf n len json length = Done (Some q, l) ->
      clean_from buf json q).

(** *** The shape of a number *)

(** A run of digits as [DIGIT_PLUS] consumes it: at least one digit from
    [i] on, digits up to [j], and a byte at [j] that is not a digit. *)
Definition digit_run (buf : list ascii) (i j : nat) : Prop :=
  (i < j)%nat /\
  (forall k, (i <= k < j)%nat -> isdigit (peek buf k) = true) /\
  isdigit (peek buf j) = false.

(** The optional minus sign at [p]; the number goes on at [s]. *)
Definition minus_part (buf : list ascii) (p s : nat) : Prop :=
  (peek buf p = "-"%char /\ s = S p) \/ (peek buf p <> "-"%char /\ s = p).

(** The integer part from [s] to [j]: a zero alone, or a run of digits. *)
Definition int_part (buf : list ascii) (s j : nat) : Prop :=
  (peek buf s = "0"%char /\ j = S s) \/
  (peek buf s <> "0"%char /\ digit_run buf s j).

(** The optional fraction from [j] to [k]: a point and a run of digits. *)
Definition frac_part (buf : list ascii) (j k : nat) : Prop :=
  (peek buf j = "."%char /\ digit_run buf (S j) k) \/
  (peek buf j <> "."%char /\ k = j).

Definition exp_mark (c : ascii) : Prop := c = "e"%char \/ c = "E"%char.

(** The optional sign of the exponent at [e]; its digits start at [t]. *)
Definition exp_sign (buf : list ascii) (e t : nat) : Prop :=
  ((peek buf e = "-"%char \/ peek buf e = "+"%char) /\ t = S e) \/
  (peek buf e <> "-"%char /\ peek buf e <> "+"%char /\ t = e).

(** The optional exponent from [k] to [q]: a mark, an optional sign and a
    run of digits. *)
Definition exp_part (buf : list ascii) (k q : nat) : Prop :=
  (exp_mark (peek buf k) /\
   exists t, exp_sign buf (S k) t /\ digit_run buf t q) \/
  (~ exp_mark (peek buf k) /\ q = k).

(** The text from [p] to [q] is a number. *)
Definition number_shape (buf : list ascii) (p q : nat) : Prop :=
  exists s j k,
    minus_part buf p s /\ int_part buf s j /\ frac_part buf j k /\
    exp_part buf k q.

(** ** Tactics *)

Ltac break_if :=
  match goal with
  | |- context [if ?b then _ else _] => destruct b eqn:?
  | H : context [if ?b then _ else _] |- _ => destruct b eqn:?
  end.

(** The fuel an entry point supplies exceeds the bytes left. *)
Ltac fuel_enough :=
  match goal with
  | |- (rem _ ?json < _)%nat =>
      destruct json; cbn [rem cursor_fuel]; unfold fuel_at; lia
  | |- _ => cbn [rem cursor_fuel]; unfold fuel_at; lia
  end.

(** ** Facts about the text and the simple loops *)

Example json_bytes_quotes :
  json_bytes "{'a':1}"
  = ["{"; DQUOTE; "a"; DQUOTE; ":"; "1"; "}"]%char.
Proof. reflexivity. Qed.

Lemma ty_code_nonzero (t : jsonw_ty) : t <> JSONW_NULL -> ty_code t <> 0.
Proof. destruct t; cbn; intros H; (congruence || lia). Qed.


Section Facts.

Variable buf : list ascii.

Lemma peek_overflow (p : nat) :
  (List.length buf <= p)%nat -> peek buf p = NUL.
Proof. intros H. unfold peek. now apply nth_overflow. Qed.

Lemma peek_in_text (p : nat) :
  peek buf p <> NUL -> (p < List.length buf)%nat.
Proof.
  intros H. destruct (Nat.lt_ge_cases p (List.length buf)) as [Hlt | Hge].
  - exact Hlt.
  - exfalso. apply H. now apply peek_overflow.
Qed.

Lemma peek_eqb_in_text (p : nat) (c : ascii) :
  Ascii.eqb (peek buf p) c = true -> c <> NUL -> (p < List.length buf)%nat.
Proof.
  intros H Hc. apply peek_in_text. apply Ascii.eqb_eq in H. congruence.
Qed.

Lemma eqb_false_neq (a b : ascii) : Ascii.eqb a b = false -> a <> b.
Proof. intros H. now apply Ascii.eqb_neq. Qed.

Lemma code_inj (a b : ascii) : code a = code b -> a = b.
Proof.
  unfold code. intros H. apply N2Z.inj in H.
  rewrite <- (ascii_N_embedding a), <- (ascii_N_embedding b). now rewrite H.
Qed.

Lemma ws_cond_in_text (p : nat) :
  ws_cond buf p = true -> (p < List.length buf)%nat.
Proof.
  unfold ws_cond. intros H. apply andb_prop in H as [H _].
  apply peek_in_text. apply eqb_false_neq. now apply negb_true_iff.
Qed.

(** With more fuel than bytes left, the loop of [jsonw_ws] ends on its own
    condition: it stops at the first byte that is not white space. *)
Lemma ws_loop_spec (fuel p : nat) :
  (List.length buf - p < fuel)%nat ->
  exists q,
    ws_loop buf fuel p = Done q /\ (p <= q)%nat /\ ws_cond buf q = false /\
    (forall i, (p <= i < q)%nat -> ws_cond buf i = true).
Proof.
  revert p. induction fuel as [| fuel IH]; intros p Hfuel; [lia |].
  simpl. fold (ws_cond buf p). destruct (ws_cond buf p) eqn:Hc.
  - pose proof (ws_cond_in_text p Hc) as Hp.
    destruct (IH (S p)) as (q & Hq & Hle & Hstop & Hall); [lia |].
    exists q. repeat split; auto; try lia.
    intros i Hi. destruct (Nat.eq_dec i p) as [-> | Hne]; [exact Hc |].
    apply Hall. lia.
  - exists p. repeat split; auto. intros i Hi. lia.
Qed.

Lemma ws_loop_total (p : nat) :
  ws_loop buf (fuel_at buf p) p = Done (ws_at buf p).
Proof.
  destruct (ws_loop_spec (fuel_at buf p) p) as (q & Hq & _).
  - unfold fuel_at. lia.
  - unfold ws_at. now rewrite Hq.
Qed.

Lemma ws_at_spec (p : nat) :
  (p <= ws_at buf p)%nat /\ ws_cond buf (ws_at buf p) = false /\
  (forall i, (p <= i < ws_at buf p)%nat -> ws_cond buf i = true).
Proof.
  destruct (ws_loop_spec (fuel_at buf p) p) as (q & Hq & H).
  - unfold fuel_at. lia.
  - unfold ws_at. rewrite Hq. exact H.
Qed.

Lemma ws_at_fixed (p : nat) : ws_cond buf p = false -> ws_at buf p = p.
Proof.
  intros H. unfold ws_at, fuel_at. simpl.
  fold (ws_cond buf p). now rewrite H.
Qed.

Lemma ws_at_idem (p : nat) : ws_at buf (ws_at buf p) = ws_at buf p.
Proof. apply ws_at_fixed. apply ws_at_spec. Qed.

Lemma ws_at_bound (p : nat) :
  (ws_at buf p <= Nat.max p (List.length buf))%nat.
Proof.
  destruct (ws_at_spec p) as (Hle & _ & Hall).
  destruct (Nat.eq_dec (ws_at buf p) p) as [-> | Hne]; [lia |].
  assert (H : ws_cond buf (ws_at buf p - 1) = true) by (apply Hall; lia).
  apply ws_cond_in_text in H. lia.
Qed.

(** *** Characters of a string body *)

Lemma hex_loop_pos (i : nat) (cp : Z) (p : nat) (cp' : Z) (q : nat) :
  hex_loop buf i cp p = Some (cp', q) -> q = (p + i)%nat.
Proof.
  revert cp p. induction i as [| i IH]; intros cp p H; simpl in H.
  - inversion H. lia.
  - destruct (isdigit (peek buf p)).
    + apply IH in H. lia.
    + destruct (isxdigit (peek buf p)); [| discriminate].
      apply IH in H. lia.
Qed.

(** A failed [jsonw_character] leaves [*chr] alone. *)
Lemma character_fail_keeps (chr : ascii) (json : cursor) :
  fst (jsonw_character buf chr json) = None ->
  snd (jsonw_character buf chr json) = chr.
Proof.
  unfold jsonw_character. destruct json as [p |]; [| reflexivity].
  cbv zeta. destruct (hex_loop buf 4 0 (S (S p))) as [[cp q] |];
    repeat break_if; cbn [fst snd]; try (intros; discriminate);
    reflexivity.
Qed.

(** Whether and where [jsonw_character] succeeds, and what it decodes, do
    not depend on the byte [*chr] holds before the call. *)
Lemma character_chr_indep (chr chr' : ascii) (json : cursor) :
  fst (jsonw_character buf chr json) = fst (jsonw_character buf chr' json) /\
  (fst (jsonw_character buf chr json) <> None ->
   snd (jsonw_character buf chr json) = snd (jsonw_character buf chr' json)).
Proof.
  unfold jsonw_character. destruct json as [p |]; [| simpl; tauto].
  cbv zeta. destruct (hex_loop buf 4 0 (S (S p))) as [[cp q] |];
    repeat break_if; cbn [fst snd]; tauto.
Qed.

(** A successful [jsonw_character] starts inside the text and moves the
    cursor forward, by at most six bytes. *)
Lemma character_progress (chr : ascii) (p q : nat) :
  fst (jsonw_character buf chr (Some p)) = Some q ->
  (p < List.length buf)%nat /\ (p < q <= p + 6)%nat.
Proof.
  intros H. split.
  - apply peek_in_text. intros Hnul. unfold jsonw_character in H.
    rewrite Hnul in H. cbn in H. discriminate.
  - unfold jsonw_character in H. cbv zeta in H.
    destruct (hex_loop buf 4 0 (S (S p))) as [[cp r] |] eqn:Hh;
      [apply hex_loop_pos in Hh |];
      repeat break_if; cbn [fst snd] in H; try discriminate;
      inversion H; subst; lia.
Qed.

Lemma character_control (chr : ascii) (p : nat) :
  code (peek buf p) < 32 ->
  jsonw_character buf chr (Some p) = (None, chr).
Proof.
  intros H. unfold jsonw_character.
  destruct (Ascii.eqb (peek buf p) BACKSLASH) eqn:Hb.
  - apply Ascii.eqb_eq in Hb. rewrite Hb in H. vm_compute in H. discriminate.
  - destruct (32 <=? code (peek buf p)) eqn:Hge; [| reflexivity].
    apply Z.leb_le in Hge. lia.
Qed.

(** *** Digits and numbers *)

Lemma isdigit_not_nul (c : ascii) : isdigit c = true -> c <> NUL.
Proof. intros H ->. vm_compute in H. discriminate. Qed.

Lemma digits_loop_spec {A} (step : A -> Z -> A) (fuel : nat) (acc : A)
  (p : nat) :
  (List.length buf - p < fuel)%nat ->
  exists acc' q,
    digits_loop buf step fuel acc p = Done (acc', q) /\ (p <= q)%nat /\
    isdigit (peek buf q) = false /\
    (forall i, (p <= i < q)%nat -> isdigit (peek buf i) = true).
Proof.
  revert acc p. induction fuel as [| fuel IH]; intros acc p Hfuel; [lia |].
  simpl. destruct (isdigit (peek buf p)) eqn:Hd.
  - pose proof (peek_in_text p (isdigit_not_nul _ Hd)) as Hp.
    destruct (IH (step acc (code (peek buf p) - 48)) (S p))
      as (acc' & q & Hq & Hle & Hstop & Hall); [lia |].
    exists acc', q. repeat split; auto; try lia.
    intros i Hi. destruct (Nat.eq_dec i p) as [-> | Hne]; [exact Hd |].
    apply Hall. lia.
  - exists acc, p. repeat split; auto. intros i Hi. lia.
Qed.

Lemma digits_loop_total {A} (step : A -> Z -> A) (acc : A) (p : nat) :
  exists r, digits_loop buf step (fuel_at buf p) acc p = Done r.
Proof.
  destruct (digits_loop_spec step (fuel_at buf p) acc p)
    as (acc' & q & Hq & _).
  - unfold fuel_at. lia.
  - now exists (acc', q).
Qed.

(** [DIGIT_PLUS] consumes at least one digit when it does not return,
    and digits of the text only. *)
Lemma DIGIT_PLUS_progress {A} (step : A -> Z -> A) (acc acc' : A)
  (p q : nat) :
  DIGIT_PLUS buf step acc p = Some (acc', q) ->
  (p < q <= List.length buf)%nat /\ (p < List.length buf)%nat.
Proof.
  unfold DIGIT_PLUS. destruct (isdigit (peek buf p)) eqn:Hd; cbn [negb];
    [| discriminate].
  intros H. destruct (digits_loop_spec step (fuel_at buf p) acc p)
    as (a & r & Hr & Hle & Hstop & Hall); [unfold fuel_at; lia |].
  rewrite Hr in H. cbn [unwrap] in H. inversion H; subst.
  pose proof (peek_in_text p (isdigit_not_nul _ Hd)) as Hin.
  assert (Hlt : (p < q)%nat).
  { destruct (Nat.eq_dec p q) as [<- | Hne]; [congruence | lia]. }
  assert (Hlast : isdigit (peek buf (q - 1)) = true) by (apply Hall; lia).
  apply isdigit_not_nul, peek_in_text in Hlast. lia.
Qed.

Lemma number_fail_keeps (num : float) (json : cursor) :
  fst (jsonw_number buf num json) = None ->
  snd (jsonw_number buf num json) = num.
Proof.
  unfold jsonw_number. destruct json as [p |]; [| reflexivity].
  repeat
    match goal with
    | |- context [let '(_, _) := ?x in _] => destruct x eqn:?
    | |- context [match ?x with Some _ => _ | None => _ end] =>
        destruct x eqn:?
    | |- context [match ?x with (_, _) => _ end] => destruct x eqn:?
    end; simpl; try (intros; discriminate); reflexivity.
Qed.

(** A successful [jsonw_number] starts inside the text, consumes at
    least one byte and ends inside the text or at its terminator. *)
Lemma number_progress (num : float) (p q : nat) :
  fst (jsonw_number buf num (Some p)) = Some q ->
  (p < q <= List.length buf)%nat /\ (p < List.length buf)%nat.
Proof.
  intros H. unfold jsonw_number in H.
  repeat
    match goal with
    | H : context [if ?b then _ else _] |- _ => destruct b eqn:?
    | H : context [match ?x with Some _ => _ | None => _ end] |- _ =>
        destruct x as [[? ?] |] eqn:?
    | H : DIGIT_PLUS _ _ _ _ = Some _ |- _ =>
        apply DIGIT_PLUS_progress in H; destruct H
    | H : Some _ = Some _ |- _ => inversion H; subst; clear H
    | H : None = Some _ |- _ => discriminate H
    | H : fst (_, _) = _ |- _ => cbn [fst] in H
    | H : context [let '(_, _) := (_, _) in _] |- _ => cbv beta iota in H
    | H : (_ || _)%bool = true |- _ => apply orb_true_iff in H; destruct H
    | H : Ascii.eqb (peek buf _) _ = true |- _ =>
        apply peek_eqb_in_text in H; [| discriminate]
    end; lia.
Qed.

(** *** Structural tokens *)

Lemma litchr_inv (chr : ascii) (json : cursor) (q : nat) :
  jsonw_litchr buf chr json = Some q ->
  exists p, json = Some p /\ peek buf p = chr /\ q = S p.
Proof.
  unfold jsonw_litchr. destruct json as [p |]; [| discriminate].
  destruct (Ascii.eqb (peek buf p) chr) eqn:He; [| discriminate].
  intros H. inversion H. exists p. apply Ascii.eqb_eq in He. auto.
Qed.

Lemma WSCHRWS_inv (chr : ascii) (json : cursor) (q : nat) :
  WSCHRWS buf chr json = Some q ->
  exists p,
    json = Some p /\ peek buf (ws_at buf p) = chr /\
    q = ws_at buf (S (ws_at buf p)).
Proof.
  unfold WSCHRWS. destruct json as [p |]; cbn [jsonw_ws jsonw_litchr];
    [| discriminate].
  destruct (Ascii.eqb (peek buf (ws_at buf p)) chr) eqn:He;
    cbn [jsonw_ws]; [| discriminate].
  intros H. inversion H. exists p. apply Ascii.eqb_eq in He. auto.
Qed.

(** A structural token other than the terminator starts inside the text,
    moves the cursor forward and leaves it inside the text or at its end. *)
Lemma WSCHRWS_progress (chr : ascii) (p q : nat) :
  chr <> NUL ->
  WSCHRWS buf chr (Some p) = Some q ->
  (p < q <= List.length buf)%nat.
Proof.
  intros Hchr H. apply WSCHRWS_inv in H as (p' & Hp & Hpeek & ->).
  inversion Hp; subst p'; clear Hp.
  assert (Hin : (ws_at buf p < List.length buf)%nat).
  { apply peek_in_text. now rewrite Hpeek. }
  pose proof (ws_at_spec p) as (Hle & _).
  pose proof (ws_at_spec (S (ws_at buf p))) as (Hle' & _).
  pose proof (ws_at_bound (S (ws_at buf p))). lia.
Qed.

(** *** Strings *)

Lemma string_loop_spec (fuel : nat) (json : cursor) (n : Z) :
  (rem buf json < fuel)%nat ->
  exists q n',
    string_loop buf fuel json n = Done (q, n') /\
    fst (jsonw_character buf NUL q) = None /\ cur_le json q.
Proof.
  revert json n. induction fuel as [| fuel IH]; intros json n Hfuel; [lia |].
  cbn [string_loop].
  destruct (fst (jsonw_character buf NUL json)) as [j |] eqn:Hc.
  - destruct json as [p |]; [| discriminate].
    apply character_progress in Hc as (Hin & Hlt).
    destruct (IH (Some j) (size_t (n + 1))) as (q & n' & Hq & Hstop & Hle).
    { cbn [rem] in *. lia. }
    exists q, n'. repeat split; auto.
    destruct q as [q |]; cbn [cur_le] in *; [lia | contradiction].
  - exists json, n. repeat split; auto.
    destruct json; cbn [cur_le]; auto.
Qed.

Lemma string_loop_total (json : cursor) :
  exists r, string_loop buf (cursor_fuel buf json) json 0 = Done r.
Proof.
  destruct (string_loop_spec (cursor_fuel buf json) json 0)
    as (q & n' & Hq & _).
  - fuel_enough.
  - now exists (q, n').
Qed.

Lemma string_fail_keeps (len : Z) (json : cursor) :
  fst (jsonw_string buf len json) = None ->
  snd (jsonw_string buf len json) = len.
Proof.
  unfold jsonw_string.
  destruct (unwrap _ _) as [j length].
  destruct (jsonw_endstr buf j); cbn [fst snd];
    [intros; discriminate | reflexivity].
Qed.

Lemma string_progress (len : Z) (p q : nat) :
  fst (jsonw_string buf len (Some p)) = Some q ->
  (p < q <= List.length buf)%nat /\ (p < List.length buf)%nat.
Proof.
  unfold jsonw_string, jsonw_beginstr, jsonw_endstr.
  destruct (jsonw_litchr buf DQUOTE (Some p)) as [p1 |] eqn:Hb.
  - apply litchr_inv in Hb as (p' & Hp & Hpeek & ->).
    inversion Hp; subst p'; clear Hp.
    destruct (string_loop_spec (cursor_fuel buf (Some (S p))) (Some (S p)) 0)
      as (j & n' & Hj & _ & Hle).
    { fuel_enough. }
    rewrite Hj. cbn [unwrap].
    destruct (jsonw_litchr buf DQUOTE j) as [q' |] eqn:He; cbn [fst];
      [| discriminate].
    apply litchr_inv in He as (j' & -> & Hquote & ->). cbn [cur_le] in Hle.
    intros H. inversion H; subst.
    assert (Hp : (p < List.length buf)%nat)
      by (apply peek_in_text; rewrite Hpeek; discriminate).
    assert (Hj' : (j' < List.length buf)%nat)
      by (apply peek_in_text; rewrite Hquote; discriminate).
    lia.
  - cbn. discriminate.
Qed.

(** *** Primitive values *)

Lemma strncmp_eq_in_text (str : string) (p : nat) :
  c_string str = true -> str <> EmptyString ->
  strncmp_eq buf p (bytes str) = true ->
  (p + String.length str <= List.length buf)%nat.
Proof.
  revert p. induction str as [| c str IH]; intros p Hc Hne H;
    [contradiction |].
  cbn [bytes list_ascii_of_string strncmp_eq c_string String.length] in *.
  apply andb_prop in Hc as [Hc Hstr]. apply andb_prop in H as [Hp H].
  apply peek_eqb_in_text in Hp;
    [| apply Ascii.eqb_neq; now apply negb_true_iff].
  destruct str as [| d str]; [cbn [String.length]; lia |].
  specialize (IH (S p) Hstr). cbv beta in IH.
  assert (String d str <> EmptyString) as Hne' by discriminate.
  specialize (IH Hne' H). lia.
Qed.

Lemma litstr_progress (str : string) (p q : nat) :
  c_string str = true -> str <> EmptyString ->
  jsonw_litstr buf str (Some p) = Some q ->
  (p < q <= List.length buf)%nat /\ (p < List.length buf)%nat.
Proof.
  intros Hc Hne. unfold jsonw_litstr.
  destruct (strncmp_eq buf p (bytes str)) eqn:He; [| discriminate].
  intros H. inversion H; subst q.
  apply strncmp_eq_in_text in He; auto.
  destruct str as [| c str]; [contradiction |].
  cbn [String.length] in *. lia.
Qed.

Lemma boolean_fail_keeps (b : bool) (json : cursor) :
  fst (jsonw_boolean buf b json) = None ->
  snd (jsonw_boolean buf b json) = b.
Proof.
  unfold jsonw_boolean.
  destruct (jsonw_litstr buf "true" json); cbn [fst snd];
    [intros; discriminate |].
  destruct (jsonw_litstr buf "false" json); cbn [fst snd];
    [intros; discriminate | reflexivity].
Qed.

Lemma boolean_progress (b : bool) (p q : nat) :
  fst (jsonw_boolean buf b (Some p)) = Some q ->
  (p < q <= List.length buf)%nat /\ (p < List.length buf)%nat.
Proof.
  unfold jsonw_boolean.
  destruct (jsonw_litstr buf "true" (Some p)) as [j |] eqn:Ht; cbn [fst].
  - intros H. inversion H; subst.
    eapply litstr_progress in Ht; [exact Ht | reflexivity | discriminate].
  - destruct (jsonw_litstr buf "false" (Some p)) as [j |] eqn:Hf; cbn [fst];
      [| discriminate].
    intros H. inversion H; subst.
    eapply litstr_progress in Hf; [exact Hf | reflexivity | discriminate].
Qed.

Lemma primitive_fail_keeps (type : jsonw_ty) (json : cursor) :
  fst (jsonw_primitive buf type json) = None ->
  snd (jsonw_primitive buf type json) = type.
Proof.
  unfold jsonw_primitive.
  repeat
    match goal with
    | |- context [match ?x with Some _ => _ | None => _ end] => destruct x
    end; cbn [fst snd]; try (intros; discriminate); reflexivity.
Qed.

Lemma primitive_progress (type : jsonw_ty) (p q : nat) :
  fst (jsonw_primitive buf type (Some p)) = Some q ->
  (p < q <= List.length buf)%nat /\ (p < List.length buf)%nat.
Proof.
  unfold jsonw_primitive, jsonw_null.
  destruct (jsonw_litstr buf "null" (Some p)) as [j |] eqn:Hn; cbn [fst].
  { intros H. inversion H; subst.
    eapply litstr_progress in Hn; [exact Hn | reflexivity | discriminate]. }
  destruct (fst (jsonw_boolean buf false (Some p))) as [j |] eqn:Hb;
    cbn [fst].
  { intros H. inversion H; subst. now apply boolean_progress in Hb. }
  destruct (fst (jsonw_number buf (double_of_int 0) (Some p))) as [j |]
    eqn:Hnum; cbn [fst].
  { intros H. inversion H; subst. now apply number_progress in Hnum. }
  destruct (fst (jsonw_string buf 0 (Some p))) as [j |] eqn:Hs; cbn [fst].
  { intros H. inversion H; subst. now apply string_progress in Hs. }
  discriminate.
Qed.

(** *** Arrays, objects, values *)

Lemma adv_trans (json : cursor) (q q' : nat) :
  adv buf json q -> adv buf (Some q) q' -> adv buf json q'.
Proof.
  intros (p & -> & Hlt & Hin) (p' & Hp' & Hlt' & Hin').
  inversion Hp'; subst p'. exists p. repeat split; auto; lia.
Qed.

Lemma adv_token (chr : ascii) (json : cursor) (q : nat) :
  chr <> NUL -> WSCHRWS buf chr json = Some q ->
  adv buf json q /\ (q <= List.length buf)%nat.
Proof.
  intros Hchr H. destruct json as [p |]; [| discriminate].
  apply WSCHRWS_progress in H; [| exact Hchr].
  split; [exists p; split; [reflexivity |] |]; lia.
Qed.

Lemma adv_name (json : cursor) (q : nat) :
  jsonw_name buf json = Some q ->
  adv buf json q /\ (q <= List.length buf)%nat.
Proof.
  unfold jsonw_name, jsonw_namesep. intros H.
  apply adv_token in H as [(p1 & Hs & Hlt & Hin) Hq]; [| discriminate].
  destruct json as [p |]; [| cbn in Hs; discriminate].
  apply string_progress in Hs as [Hlt' Hin'].
  split; [exists p; split; [reflexivity |] |]; lia.
Qed.

Lemma ok_result_after {T} (json json' : cursor) (old : T) (r : cursor * T) :
  (forall q, json' = Some q -> adv buf json q) ->
  ok_result buf json' old r -> ok_result buf json old r.
Proof.
  unfold ok_result. intros Hadv H. destruct (fst r) as [q |]; [| exact H].
  destruct H as (p' & Hp' & Hlt & Hin).
  eapply adv_trans; [apply Hadv; exact Hp' |].
  exists p'. auto.
Qed.

Lemma value_f_NULL (fuel : nat) (type : jsonw_ty) :
  jsonw_value_f buf (S fuel) type None = Done (None, type).
Proof. reflexivity. Qed.

Lemma array_loop_NULL (fuel : nat) (len length : Z) :
  array_loop buf (S (S fuel)) len None length = Done (None, len).
Proof. reflexivity. Qed.

Lemma object_loop_NULL (fuel : nat) (len length : Z) :
  object_loop buf (S (S fuel)) len None length = Done (None, len).
Proof. reflexivity. Qed.

Lemma nest_ok_all (n : nat) : nest_ok buf n.
Proof.
  induction n as [| n (IHv & IHs & IHa & IHal & IHo & IHol)];
    [repeat split; intros; discriminate |].
  unfold nest_ok. repeat apply conj.
  - (* jsonw_value *)
    intros type json r. cbn [jsonw_value_f].
    destruct json as [p |].
    + destruct (jsonw_primitive buf type (Some p)) as [[j |] type'] eqn:Hp.
      * intros H. inversion H; subst. unfold ok_result. cbn [fst].
        assert (Hj : fst (jsonw_primitive buf type (Some p)) = Some j)
          by now rewrite Hp.
        apply primitive_progress in Hj as [Hlt Hin]. exists p. auto.
      * assert (Ht : type' = type).
        { pose proof (primitive_fail_keeps type (Some p)) as Hk.
          rewrite Hp in Hk. now apply Hk. }
        subst type'. apply IHs.
    + intros H. inversion H. reflexivity.
  - (* jsonw_structured *)
    intros type json r. cbn [jsonw_structured_f].
    destruct (jsonw_array_f buf n 0 json) as [[[j |] l] |] eqn:Ha;
      cbn [fbind]; try discriminate.
    + intros H. inversion H; subst. apply IHa in Ha. exact Ha.
    + destruct (jsonw_object_f buf n 0 json) as [[[j |] l'] |] eqn:Ho;
        cbn [fbind]; try discriminate.
      * intros H. inversion H; subst. apply IHo in Ho as [Ho _]. exact Ho.
      * intros H. inversion H; subst. reflexivity.
  - (* jsonw_array *)
    intros len json r. cbn [jsonw_array_f].
    destruct (jsonw_endarr buf (jsonw_beginarr buf json)) as [j |] eqn:He.
    + intros H. inversion H; subst. unfold ok_result. cbn [fst].
      destruct (jsonw_beginarr buf json) as [p1 |] eqn:Hb;
        [| discriminate].
      apply adv_token in Hb as [Hb _]; [| discriminate].
      apply adv_token in He as [He _]; [| discriminate].
      eapply adv_trans; eauto.
    + intros H. apply IHal in H. eapply ok_result_after; [| exact H].
      intros q Hq. apply adv_token in Hq as [Hq _]; [exact Hq | discriminate].
  - (* the loop of jsonw_array *)
    intros len json length r. cbn [array_loop].
    destruct (jsonw_value_f buf n JSONW_NULL json) as [[[j |] t] |] eqn:Hv;
      cbn [fbind]; try discriminate.
    + apply IHv in Hv. unfold ok_result in Hv. cbn [fst] in Hv.
      destruct (jsonw_endarr buf (Some j)) as [q |] eqn:He.
      * intros H. inversion H; subst. unfold ok_result. cbn [fst].
        apply adv_token in He as [He _]; [| discriminate].
        eapply adv_trans; eauto.
      * intros H. apply IHal in H. eapply ok_result_after; [| exact H].
        intros q Hq. apply adv_token in Hq as [Hq _]; [| discriminate].
        eapply adv_trans; eauto.
    + intros H. inversion H; subst. reflexivity.
  - (* jsonw_object *)
    intros len json r. cbn [jsonw_object_f].
    destruct (jsonw_endobj buf (jsonw_beginobj buf json)) as [j |] eqn:He.
    + intros H. inversion H; subst. split; [| reflexivity].
      unfold ok_result. cbn [fst].
      destruct (jsonw_beginobj buf json) as [p1 |] eqn:Hb;
        [| discriminate].
      apply adv_token in Hb as [Hb _]; [| discriminate].
      apply adv_token in He as [He _]; [| discriminate].
      eapply adv_trans; eauto.
    + intros H. apply IHol in H as [H Hlen]. split; [| exact Hlen].
      eapply ok_result_after; [| exact H].
      intros q Hq. apply adv_token in Hq as [Hq _]; [exact Hq | discriminate].
  - (* the loop of jsonw_object *)
    intros len json length r. cbn [object_loop].
    destruct (jsonw_value_f buf n JSONW_NULL (jsonw_name buf json))
      as [[[j |] t] |] eqn:Hv; cbn [fbind]; try discriminate.
    + apply IHv in Hv. unfold ok_result in Hv. cbn [fst] in Hv.
      assert (Hj : adv buf json j).
      { destruct Hv as (p1 & Hn & Hlt & Hin).
        apply adv_name in Hn as [Hn _].
        eapply adv_trans; [exact Hn |]. exists p1. auto. }
      destruct (jsonw_endobj buf (Some j)) as [q |] eqn:He.
      * intros H. inversion H; subst. split; [| reflexivity].
        unfold ok_result. cbn [fst].
        apply adv_token in He as [He _]; [| discriminate].
        eapply adv_trans; eauto.
      * intros H. apply IHol in H as [H Hlen]. split; [| exact Hlen].
        eapply ok_result_after; [| exact H].
        intros q Hq. apply adv_token in Hq as [Hq _]; [| discriminate].
        eapply adv_trans; eauto.
    + intros H. inversion H; subst. split; reflexivity.
Qed.

Lemma nest_total_all (n : nat) : nest_total buf n.
Proof.
  induction n as [| n (IHv & IHs & IHa & IHal & IHo & IHol)];
    [repeat split; intros; lia |].
  pose proof (nest_ok_all n) as (OKv & _).
  unfold nest_total. repeat apply conj.
  - (* jsonw_value *)
    intros type p Hn. cbn [jsonw_value_f].
    destruct (jsonw_primitive buf type (Some p)) as [[j |] type'];
      [eexists; reflexivity |].
    apply IHs. lia.
  - (* jsonw_structured *)
    intros type p Hn. cbn [jsonw_structured_f].
    destruct (IHa 0 p) as [[[j |] l] Ha]; [lia | |]; rewrite Ha; cbn [fbind].
    + eexists; reflexivity.
    + destruct (IHo 0 p) as [[[j |] l'] Ho]; [lia | |]; rewrite Ho;
        cbn [fbind]; eexists; reflexivity.
  - (* jsonw_array *)
    intros len p Hn. cbn [jsonw_array_f].
    destruct (jsonw_endarr buf (jsonw_beginarr buf (Some p)));
      [eexists; reflexivity |].
    destruct (jsonw_beginarr buf (Some p)) as [p1 |] eqn:Hb.
    + apply WSCHRWS_progress in Hb; [| discriminate]. apply IHal. lia.
    + destruct n as [| [| n]]; try lia. rewrite array_loop_NULL.
      eexists; reflexivity.
  - (* the loop of jsonw_array *)
    intros len p length Hn. cbn [array_loop].
    destruct (IHv JSONW_NULL p) as [[[j |] t] Hv]; [lia | |]; rewrite Hv;
      cbn [fbind]; [| eexists; reflexivity].
    destruct (jsonw_endarr buf (Some j)); [eexists; reflexivity |].
    apply OKv in Hv. destruct Hv as (p' & Hp' & Hlt & Hin).
    inversion Hp'; subst p'.
    destruct (jsonw_valuesep buf (Some j)) as [p2 |] eqn:Hs.
    + apply WSCHRWS_progress in Hs; [| discriminate]. apply IHal. lia.
    + destruct n as [| [| n]]; try lia. rewrite array_loop_NULL.
      eexists; reflexivity.
  - (* jsonw_object *)
    intros len p Hn. cbn [jsonw_object_f].
    destruct (jsonw_endobj buf (jsonw_beginobj buf (Some p)));
      [eexists; reflexivity |].
    destruct (jsonw_beginobj buf (Some p)) as [p1 |] eqn:Hb.
    + apply WSCHRWS_progress in Hb; [| discriminate]. apply IHol. lia.
    + destruct n as [| [| n]]; try lia. rewrite object_loop_NULL.
      eexists; reflexivity.
  - (* the loop of jsonw_object *)
    intros len p length Hn. cbn [object_loop].
    assert (Hv : exists r,
               jsonw_value_f buf n JSONW_NULL (jsonw_name buf (Some p))
               = Done r).
    { destruct (jsonw_name buf (Some p)) as [p1 |] eqn:Hname.
      - apply adv_name in Hname as [(p' & Hp' & Hlt & Hin) _].
        inversion Hp'; subst p'. apply IHv. lia.
      - destruct n as [| n]; [lia |]. rewrite value_f_NULL.
        eexists; reflexivity. }
    destruct Hv as [[[j |] t] Hv]; rewrite Hv; cbn [fbind];
      [| eexists; reflexivity].
    destruct (jsonw_endobj buf (Some j)); [eexists; reflexivity |].
    apply OKv in Hv. destruct Hv as (p1 & Hname & Hlt & Hin).
    apply adv_name in Hname as [(p' & Hp' & Hlt' & Hin') _].
    inversion Hp'; subst p'.
    destruct (jsonw_valuesep buf (Some j)) as [p2 |] eqn:Hs.
    + apply WSCHRWS_progress in Hs; [| discriminate]. apply IHol. lia.
    + destruct n as [| [| n]]; try lia. rewrite object_loop_NULL.
      eexists; reflexivity.
Qed.

(** The entry points supply enough fuel: their results are results of the
    loops, never the default of [unwrap]. *)
Lemma jsonw_value_total (type : jsonw_ty) (json : cursor) :
  jsonw_value_f buf (nest_fuel buf json) type json
  = Done (jsonw_value buf type json).
Proof.
  unfold jsonw_value. destruct json as [p |]; [| reflexivity].
  destruct (nest_total_all (nest_fuel buf (Some p))) as (Hv & _).
  destruct (Hv type p) as [r Hr]; [cbn [nest_fuel]; lia |].
  now rewrite Hr.
Qed.

Lemma jsonw_structured_total (type : jsonw_ty) (json : cursor) :
  jsonw_structured_f buf (nest_fuel buf json) type json
  = Done (jsonw_structured buf type json).
Proof.
  unfold jsonw_structured. destruct json as [p |]; [| reflexivity].
  destruct (nest_total_all (nest_fuel buf (Some p))) as (_ & Hs & _).
  destruct (Hs type p) as [r Hr]; [cbn [nest_fuel]; lia |].
  now rewrite Hr.
Qed.

Lemma jsonw_array_total (len : Z) (json : cursor) :
  jsonw_array_f buf (nest_fuel buf json) len json
  = Done (jsonw_array buf len json).
Proof.
  unfold jsonw_array. destruct json as [p |]; [| reflexivity].
  destruct (nest_total_all (nest_fuel buf (Some p))) as (_ & _ & Ha & _).
  destruct (Ha len p) as [r Hr]; [cbn [nest_fuel]; lia |].
  now rewrite Hr.
Qed.

Lemma jsonw_object_total (len : Z) (json : cursor) :
  jsonw_object_f buf (nest_fuel buf json) len json
  = Done (jsonw_object buf len json).
Proof.
  unfold jsonw_object. destruct json as [p |]; [| reflexivity].
  destruct (nest_total_all (nest_fuel buf (Some p)))
    as (_ & _ & _ & _ & Ho & _).
  destruct (Ho len p) as [r Hr]; [cbn [nest_fuel]; lia |].
  now rewrite Hr.
Qed.

Lemma nest_stable_all (n : nat) : nest_stable buf n.
Proof.
  induction n as [| n (IHv & IHs & IHa & IHal & IHo & IHol)];
    [repeat split; intros; discriminate |].
  unfold nest_stable. repeat apply conj.
  - intros type json r H. cbn [jsonw_value_f] in H |- *.
    destruct json as [p |]; [| exact H].
    destruct (jsonw_primitive buf type (Some p)) as [[j |] type'];
      [exact H |].
    now apply IHs.
  - intros type json r H.
    change (jsonw_structured_f buf (S n) type json) with
      (' (j, _) <- jsonw_array_f buf n 0 json ;;
       match j with
       | Some j => Done (Some j, JSONW_ARRAY)
       | None =>
           ' (j, _) <- jsonw_object_f buf n 0 json ;;
           match j with
           | Some j => Done (Some j, JSONW_OBJECT)
           | None => Done (None, type)
           end
       end) in H.
    cbn [jsonw_structured_f].
    destruct (jsonw_array_f buf n 0 json) as [[j l] |] eqn:Ha;
      [| discriminate].
    rewrite (IHa _ _ _ Ha). cbn [fbind] in H |- *.
    destruct j as [j |]; [exact H |].
    destruct (jsonw_object_f buf n 0 json) as [[j l'] |] eqn:Ho;
      [| discriminate].
    rewrite (IHo _ _ _ Ho). exact H.
  - intros len json r H. cbn [jsonw_array_f] in H |- *.
    destruct (jsonw_endarr buf (jsonw_beginarr buf json)); [exact H |].
    now apply IHal.
  - intros len json length r H.
    change (array_loop buf (S n) len json length) with
      (' (json, _) <- jsonw_value_f buf n JSONW_NULL json ;;
       match json with
       | None => Done (None, len)
       | Some _ =>
           match jsonw_endarr buf json with
           | Some j => Done (Some j, length)
           | None =>
               array_loop buf n len (jsonw_valuesep buf json)
                 (size_t (length + 1))
           end
       end) in H.
    cbn [array_loop].
    destruct (jsonw_value_f buf n JSONW_NULL json) as [[j t] |] eqn:Hv;
      [| discriminate].
    rewrite (IHv _ _ _ Hv). cbn [fbind] in H |- *.
    destruct j as [j |]; [| exact H].
    destruct (jsonw_endarr buf (Some j)); [exact H |].
    now apply IHal.
  - intros len json r H. cbn [jsonw_object_f] in H |- *.
    destruct (jsonw_endobj buf (jsonw_beginobj buf json)); [exact H |].
    now apply IHol.
  - intros len json length r H.
    change (object_loop buf (S n) len json length) with
      (' (json, _) <- jsonw_value_f buf n JSONW_NULL (jsonw_name buf json) ;;
       match json with
       | None => Done (None, len)
       | Some _ =>
           match jsonw_endobj buf json with
           | Some j => Done (Some j, len)
           | None =>
               object_loop buf n len (jsonw_valuesep buf json)
                 (size_t (length + 1))
           end
       end) in H.
    cbn [object_loop].
    destruct (jsonw_value_f buf n JSONW_NULL (jsonw_name buf json))
      as [[j t] |] eqn:Hv; [| discriminate].
    rewrite (IHv _ _ _ Hv). cbn [fbind] in H |- *.
    destruct j as [j |]; [| exact H].
    destruct (jsonw_endobj buf (Some j)); [exact H |].
    now apply IHol.
Qed.

(** Any fuel above the one the entry point supplies gives the result of
    the entry point. *)
Lemma jsonw_value_any_fuel (type : jsonw_ty) (json : cursor) (n : nat) :
  (nest_fuel buf json <= n)%nat ->
  jsonw_value_f buf n type json = Done (jsonw_value buf type json).
Proof.
  induction 1 as [| n Hle IH]; [apply jsonw_value_total |].
  now apply nest_stable_all.
Qed.

Lemma jsonw_array_any_fuel (len : Z) (json : cursor) (n : nat) :
  (nest_fuel buf json <= n)%nat ->
  jsonw_array_f buf n len json = Done (jsonw_array buf len json).
Proof.
  induction 1 as [| n Hle IH]; [apply jsonw_array_total |].
  now apply nest_stable_all.
Qed.

Lemma jsonw_object_any_fuel (len : Z) (json : cursor) (n : nat) :
  (nest_fuel buf json <= n)%nat ->
  jsonw_object_f buf n len json = Done (jsonw_object buf len json).
Proof.
  induction 1 as [| n Hle IH]; [apply jsonw_object_total |].
  now apply nest_stable_all.
Qed.

Lemma value_ok (type : jsonw_ty) (json : cursor) :
  ok_result buf json type (jsonw_value buf type json).
Proof.
  pose proof (nest_ok_all (nest_fuel buf json)) as (H & _).
  apply H. apply jsonw_value_total.
Qed.

Lemma array_ok (len : Z) (json : cursor) :
  ok_result buf json len (jsonw_array buf len json).
Proof.
  pose proof (nest_ok_all (nest_fuel buf json)) as (_ & _ & H & _).
  apply H. apply jsonw_array_total.
Qed.

Lemma object_ok (len : Z) (json : cursor) :
  ok_result buf json len (jsonw_object buf len json) /\
  snd (jsonw_object buf len json) = len.
Proof.
  pose proof (nest_ok_all (nest_fuel buf json)) as (_ & _ & _ & _ & H & _).
  apply H. apply jsonw_object_total.
Qed.

(** A value ends after the cursor it started at, and inside the text or
    at its terminator: no cursor that the parser returns lies beyond the
    terminator. *)
Lemma value_advances (type : jsonw_ty) (json : cursor) (q : nat) :
  fst (jsonw_value buf type json) = Some q ->
  exists p, json = Some p /\ (p < q <= List.length buf)%nat.
Proof.
  intros H. pose proof (value_ok type json) as Hok.
  unfold ok_result in Hok. rewrite H in Hok.
  destruct Hok as (p & Hp & Hlt & _). now exists p.
Qed.

Lemma text_in_bounds (type : jsonw_ty) (json : cursor) (q : nat) :
  fst (jsonw_text buf type json) = Some q ->
  exists p, json = Some p /\ (p < q <= List.length buf)%nat.
Proof.
  unfold jsonw_text.
  destruct (jsonw_value buf type (jsonw_ws buf json)) as [j ty] eqn:Hv.
  cbn [fst]. intros H.
  destruct j as [j |]; [| discriminate]. cbn [jsonw_ws] in H.
  inversion H; subst q; clear H.
  assert (Hj : fst (jsonw_value buf type (jsonw_ws buf json)) = Some j)
    by now rewrite Hv.
  apply value_advances in Hj as (p1 & Hp1 & Hlt).
  destruct json as [p |]; [| discriminate]. cbn [jsonw_ws] in Hp1.
  inversion Hp1; subst p1; clear Hp1. exists p. split; [reflexivity |].
  pose proof (ws_at_spec p) as (Hle & _).
  pose proof (ws_at_spec j) as (Hle' & _).
  pose proof (ws_at_bound j). lia.
Qed.

(** *** Members and [jsonw_find] *)

Lemma element_progress (json : cursor) (q : nat) :
  jsonw_element buf json = Some q -> adv buf json q.
Proof.
  unfold jsonw_element, jsonw_valuesep. intros H.
  apply adv_token in H as [(j & Hv & Hlt & Hin) _]; [| discriminate].
  pose proof (value_ok JSONW_NULL json) as Hok. unfold ok_result in Hok.
  rewrite Hv in Hok. eapply adv_trans; [exact Hok |]. exists j. auto.
Qed.

Lemma member_progress (json : cursor) (q : nat) :
  jsonw_member buf json = Some q -> adv buf json q.
Proof.
  unfold jsonw_member. intros H. apply element_progress in H.
  destruct H as (p1 & Hn & Hlt & Hin). apply adv_name in Hn as [Hn _].
  eapply adv_trans; [exact Hn |]. exists p1. auto.
Qed.

Lemma find_loop_spec (fuel : nat) (name : string) (json : cursor) :
  (rem buf json < fuel)%nat -> exists r, find_loop buf fuel name json = Done r.
Proof.
  revert json. induction fuel as [| fuel IH]; intros json Hfuel; [lia |].
  cbn [find_loop].
  destruct (jsonw_strcmp buf name (jsonw_beginstr buf json) =? 0);
    [eexists; reflexivity |].
  destruct (jsonw_member buf json) as [j |] eqn:Hm; [| eexists; reflexivity].
  apply member_progress in Hm as (p & -> & Hlt & Hin).
  apply IH. cbn [rem] in *. lia.
Qed.

Lemma jsonw_find_total (name : string) (json : cursor) :
  find_loop buf (cursor_fuel buf json) name json
  = Done (jsonw_find buf name json).
Proof.
  destruct (find_loop_spec (cursor_fuel buf json) name json) as [r Hr].
  - fuel_enough.
  - unfold jsonw_find. now rewrite Hr.
Qed.

(** [jsonw_find] returns the cursor it was given as soon as the key at
    that cursor compares equal: it looks no further. *)
Lemma find_first_match (name : string) (json : cursor) :
  jsonw_strcmp buf name (jsonw_beginstr buf json) = 0 ->
  jsonw_find buf name json = json /\
  find_loop buf (cursor_fuel buf json) name json = Done json.
Proof.
  intros H.
  assert (Hl : find_loop buf (cursor_fuel buf json) name json = Done json).
  { destruct json as [p |]; cbn [cursor_fuel]; unfold fuel_at;
      cbn [find_loop]; rewrite H; reflexivity. }
  unfold jsonw_find. rewrite Hl. auto.
Qed.

(** *** [jsonw_unescape] *)

Lemma store_in (out : list ascii) (i : nat) (c : ascii) :
  (i < List.length out)%nat ->
  store out i c = Some (firstn i out ++ c :: skipn (S i) out).
Proof.
  intros H. unfold store. apply Nat.ltb_lt in H. now rewrite H.
Qed.

Lemma stored_length (out : list ascii) (i : nat) (c : ascii) :
  (i < List.length out)%nat ->
  List.length (firstn i out ++ c :: skipn (S i) out) = List.length out.
Proof.
  intros H. rewrite length_app, firstn_length_le by lia.
  cbn [List.length]. rewrite length_skipn. lia.
Qed.

Lemma stored_firstn (out : list ascii) (i : nat) (c : ascii) :
  (i < List.length out)%nat ->
  firstn (S i) (firstn i out ++ c :: skipn (S i) out) = firstn i out ++ [c].
Proof.
  intros H. rewrite firstn_app, firstn_length_le by lia.
  rewrite firstn_all2 by (rewrite firstn_length_le; lia).
  replace (S i - i)%nat with 1%nat by lia. reflexivity.
Qed.

Lemma stored_skipn (out : list ascii) (i m : nat) (c : ascii) :
  (i < List.length out)%nat ->
  skipn (S i + m) (firstn i out ++ c :: skipn (S i) out)
  = skipn (S i + m) out.
Proof.
  intros H. rewrite skipn_app, firstn_length_le by lia.
  rewrite skipn_all2 by (rewrite firstn_length_le; lia).
  replace (S i + m - i)%nat with (S m) by lia.
  rewrite skipn_cons. cbn [app]. rewrite skipn_skipn. f_equal. lia.
Qed.

Lemma unescape_loop_ends (fuel : nat) (out : list ascii) (i : nat) (len : Z)
  (json : cursor) :
  (rem buf json < fuel)%nat ->
  exists r, unescape_loop buf fuel out i len json = Done r.
Proof.
  revert out i len json.
  induction fuel as [| fuel IH]; intros out i len json Hfuel; [lia |].
  cbn [unescape_loop].
  destruct (size_t (len - 1) =? 0); [eexists; reflexivity |].
  destruct (jsonw_character buf (nth i out NUL) json) as [[j |] c] eqn:Hc;
    [| eexists; reflexivity].
  destruct (store out i c) as [out' |]; [| eexists; reflexivity].
  destruct json as [p |]; [| cbn in Hc; discriminate].
  assert (Hj : fst (jsonw_character buf (nth i out NUL) (Some p)) = Some j)
    by now rewrite Hc.
  apply character_progress in Hj as [Hin Hlt].
  apply IH. cbn [rem] in *. lia.
Qed.

Lemma jsonw_unescape_total (out : list ascii) (len : Z) (json : cursor) :
  unescape_loop buf (cursor_fuel buf json) out 0 len json
  = Done (jsonw_unescape buf out len json).
Proof.
  destruct (unescape_loop_ends (cursor_fuel buf json) out 0 len json)
    as [r Hr].
  - fuel_enough.
  - unfold jsonw_unescape. now rewrite Hr.
Qed.

(** With room for [len] bytes from index [i] on, the loop stores the
    bytes it decodes, then the terminator, and nothing else. *)
Lemma unescape_loop_spec (fuel : nat) (out : list ascii) (i : nat) (len : Z)
  (json : cursor) :
  (rem buf json < fuel)%nat -> 0 < len < 2 ^ 64 ->
  Z.of_nat i + len <= Z.of_nat (List.length out) ->
  exists cs json',
    decodes_from buf json cs json' /\
    Z.of_nat (List.length cs) <= len - 1 /\
    unescape_loop buf fuel out i len json
    = Done (Some (firstn i out ++ cs ++
                  NUL :: skipn (i + List.length cs + 1) out, json')).
Proof.
  revert out i len json.
  induction fuel as [| fuel IH]; intros out i len json Hfuel Hlen Hroom;
    [lia |].
  assert (Hi : (i < List.length out)%nat) by lia.
  assert (Hstop :
    exists cs json',
      decodes_from buf json cs json' /\
      Z.of_nat (List.length cs) <= len - 1 /\
      Done (option_map (fun o => (o, json)) (store out i NUL))
      = Done (Some (firstn i out ++ cs ++
                    NUL :: skipn (i + List.length cs + 1) out, json'))).
  { exists [], json. repeat split.
    - destruct json as [p |]; cbn [decodes_from].
      + exists p. split; [reflexivity | constructor].
      + auto.
    - cbn [List.length]. lia.
    - rewrite store_in by exact Hi. cbn [option_map app List.length].
      replace (i + 0 + 1)%nat with (S i) by lia. reflexivity. }
  cbn [unescape_loop]. unfold size_t.
  rewrite Z.mod_small by lia.
  destruct (len - 1 =? 0) eqn:Hz; [exact Hstop |].
  apply Z.eqb_neq in Hz.
  destruct (jsonw_character buf (nth i out NUL) json) as [[j |] c] eqn:Hc;
    [| exact Hstop].
  destruct json as [p |]; [| cbn in Hc; discriminate].
  assert (Hc' : jsonw_character buf NUL (Some p) = (Some j, c)).
  { destruct (character_chr_indep NUL (nth i out NUL) (Some p)) as [Hf Hs].
    rewrite Hc in Hf, Hs. cbn [fst snd] in Hf, Hs.
    destruct (jsonw_character buf NUL (Some p)) as [j' c'].
    cbn [fst snd] in Hf, Hs. subst j'.
    rewrite Hs by discriminate. reflexivity. }
  assert (Hadv : fst (jsonw_character buf NUL (Some p)) = Some j)
    by now rewrite Hc'.
  apply character_progress in Hadv as [Hin Hlt].
  rewrite store_in by exact Hi.
  destruct (IH (firstn i out ++ c :: skipn (S i) out) (S i) (len - 1)
              (Some j)) as (cs & json' & Hd & Hn & Hr).
  { cbn [rem] in *. lia. }
  { lia. }
  { rewrite stored_length by exact Hi. lia. }
  exists (c :: cs), json'. repeat split.
  - cbn [decodes_from] in *. destruct Hd as (q & -> & Hd).
    exists q. split; [reflexivity |]. econstructor; eauto.
  - cbn [List.length]. lia.
  - rewrite Hr. rewrite stored_firstn by exact Hi.
    replace (S i + List.length cs + 1)%nat
      with (S i + (List.length cs + 1))%nat by lia.
    rewrite stored_skipn by exact Hi.
    rewrite <- app_assoc. cbn [app List.length].
    replace (i + S (List.length cs) + 1)%nat
      with (S i + (List.length cs + 1))%nat by lia.
    reflexivity.
Qed.

End Facts.

(** ** White space *)

Lemma not_wschr (c : ascii) :
  c <> " "%char -> c <> "009"%char -> c <> "010"%char -> c <> "013"%char ->
  is_wschr c = false.
Proof.
  intros Hsp Htab Hlf Hcr. unfold is_wschr.
  repeat
    match goal with
    | |- context [code c =? ?k] =>
        let E := fresh "E" in
        destruct (code c =? k) eqn:E;
        [apply Z.eqb_eq in E; exfalso | clear E]
    end; try reflexivity.
  - apply Hsp, code_inj. exact E.
  - apply Htab, code_inj. exact E.
  - apply Hlf, code_inj. exact E.
  - apply Hcr, code_inj. exact E.
Qed.

(** C9. Skipping white space twice yields the cursor that skipping it once
    yields; from a cursor that is not [NULL], [jsonw_ws] returns a cursor,
    its loop ending within the fuel it is given; and it returns the cursor
    it was given when the byte there is none of space, tab, line feed and
    carriage return. *)
Theorem ws_idempotent_total :
  (forall buf json, jsonw_ws buf (jsonw_ws buf json) = jsonw_ws buf json) /\
  (forall buf p,
      exists q,
        jsonw_ws buf (Some p) = Some q /\
        ws_loop buf (fuel_at buf p) p = Done q) /\
  (forall buf p,
      peek buf p <> " "%char -> peek buf p <> "009"%char ->
      peek buf p <> "010"%char -> peek buf p <> "013"%char ->
      jsonw_ws buf (Some p) = Some p).
Proof.
  repeat apply conj.
  - intros buf [p |]; cbn [jsonw_ws]; [| reflexivity].
    now rewrite ws_at_idem.
  - intros buf p. exists (ws_at buf p). split; [reflexivity |].
    apply ws_loop_total.
  - intros buf p Hsp Htab Hlf Hcr. cbn [jsonw_ws]. f_equal.
    apply ws_at_fixed. unfold ws_cond.
    rewrite not_wschr by assumption. apply andb_false_r.
Qed.

Lemma ws_idempotent_total_witness :
  jsonw_ws (bytes "x y") (Some 0%nat) = Some 0%nat.
Proof.
  apply (proj2 (proj2 ws_idempotent_total) (bytes "x y") 0%nat);
    vm_compute; discriminate.
Defined.

(** ** Numbers *)

(** C4. [jsonw_number] on the literals 0, -3, 3.5, 1e2 and -2.5e-1
    succeeds, returns the cursor at the end of the literal and stores the
    binary64 numbers 0, -3, 3.5, 100 and -0.25, whatever the out-parameter
    held before. *)
Theorem number_round_trip (num : float) :
  jsonw_number (bytes "0") num (Some 0%nat) = (Some 1%nat, 0%float) /\
  jsonw_number (bytes "-3") num (Some 0%nat) = (Some 2%nat, (-3)%float) /\
  jsonw_number (bytes "3.5") num (Some 0%nat) = (Some 3%nat, 3.5%float) /\
  jsonw_number (bytes "1e2") num (Some 0%nat) = (Some 3%nat, 100%float) /\
  jsonw_number (bytes "-2.5e-1") num (Some 0%nat)
  = (Some 7%nat, (-0.25)%float).
Proof. repeat split; vm_compute; reflexivity. Qed.

(** ** Strings *)

(** The loop of [jsonw_string] follows a run of decoded characters to the
    first offset at which [jsonw_character] fails. *)
Lemma string_loop_decodes (buf : list ascii) (p : nat) (cs : list ascii)
  (q : nat) :
  decodes buf p cs q ->
  fst (jsonw_character buf NUL (Some q)) = None ->
  forall fuel n,
    (List.length buf - p < fuel)%nat ->
    exists n', string_loop buf fuel (Some p) n = Done (Some q, n').
Proof.
  intros Hd Hstop. induction Hd as [p | p p' c cs q Hc Hd IH];
    intros fuel n Hfuel.
  - destruct fuel as [| fuel]; [lia |]. cbn [string_loop].
    rewrite Hstop. now exists n.
  - destruct fuel as [| fuel]; [lia |]. cbn [string_loop].
    rewrite Hc. cbn [fst].
    assert (Hp : fst (jsonw_character buf NUL (Some p)) = Some p')
      by now rewrite Hc.
    apply character_progress in Hp as [Hin Hlt].
    apply IH; [exact Hstop | lia].
Qed.

(** C5. [jsonw_character] decodes the escape made of a backslash and [n]
    to the line feed, the escape made of a backslash and [u0041] to the
    letter A, and the escape made of a backslash and [u00e9], a code point
    above 0x7F, to the zero byte; it fails at a byte below 0x20; and
    [jsonw_string] fails, leaving its out-parameter alone, when such a byte
    follows the opening quote and any run of characters that decode. *)
Theorem string_escape_decoding :
  (forall chr,
      jsonw_character (BACKSLASH :: bytes "n") chr (Some 0%nat)
      = (Some 2%nat, "010"%char)) /\
  (forall chr,
      jsonw_character (BACKSLASH :: bytes "u0041") chr (Some 0%nat)
      = (Some 6%nat, "A"%char)) /\
  (forall chr,
      jsonw_character (BACKSLASH :: bytes "u00e9") chr (Some 0%nat)
      = (Some 6%nat, NUL)) /\
  (forall buf chr p,
      code (peek buf p) < 32 ->
      jsonw_character buf chr (Some p) = (None, chr)) /\
  (forall buf len p cs q,
      peek buf p = DQUOTE ->
      decodes buf (S p) cs q ->
      code (peek buf q) < 32 ->
      jsonw_string buf len (Some p) = (None, len)).
Proof.
  split; [intros chr; vm_compute; reflexivity |].
  split; [intros chr; vm_compute; reflexivity |].
  split; [intros chr; vm_compute; reflexivity |].
  split.
  - intros buf chr p H. now apply character_control.
  - intros buf len p cs q Hquote Hd Hctl.
    assert (Hfail : jsonw_character buf NUL (Some q) = (None, NUL))
      by now apply character_control.
    unfold jsonw_string, jsonw_beginstr, jsonw_endstr.
    cbn [jsonw_litchr]. rewrite Hquote. cbn [Ascii.eqb].
    replace (Ascii.eqb DQUOTE DQUOTE) with true by reflexivity.
    destruct (string_loop_decodes buf (S p) cs q Hd) with
      (fuel := cursor_fuel buf (Some (S p))) (n := 0) as [n' Hn'].
    { now rewrite Hfail. }
    { cbn [cursor_fuel]. unfold fuel_at. lia. }
    rewrite Hn'. cbn [unwrap jsonw_litchr].
    destruct (Ascii.eqb (peek buf q) DQUOTE) eqn:He; [| reflexivity].
    apply Ascii.eqb_eq in He. rewrite He in Hctl. vm_compute in Hctl.
    discriminate.
Qed.

Lemma string_escape_decoding_witness :
  jsonw_character control_in_string "x"%char (Some 4%nat)
  = (None, "x"%char) /\
  jsonw_string control_in_string 7 (Some 0%nat) = (None, 7).
Proof.
  destruct string_escape_decoding as (_ & _ & _ & Hc & Hs). split.
  - apply Hc. vm_compute. reflexivity.
  - apply Hs with (cs := ["a"%char; "010"%char]) (q := 4%nat).
    + reflexivity.
    + apply decodes_cons with (p' := 2%nat); [reflexivity |].
      apply decodes_cons with (p' := 4%nat); [reflexivity |].
      apply decodes_nil.
    + vm_compute. reflexivity.
Defined.

(** ** Out-parameters *)

(** C3. When [jsonw_boolean], [jsonw_number], [jsonw_string],
    [jsonw_array], [jsonw_object] or [jsonw_value] returns [NULL], the
    pointee of its out-parameter holds the value it held before the call. *)
Theorem failure_leaves_out_param (buf : list ascii) (json : cursor) :
  (forall b,
      fst (jsonw_boolean buf b json) = None ->
      snd (jsonw_boolean buf b json) = b) /\
  (forall num,
      fst (jsonw_number buf num json) = None ->
      snd (jsonw_number buf num json) = num) /\
  (forall len,
      fst (jsonw_string buf len json) = None ->
      snd (jsonw_string buf len json) = len) /\
  (forall len,
      fst (jsonw_array buf len json) = None ->
      snd (jsonw_array buf len json) = len) /\
  (forall len,
      fst (jsonw_object buf len json) = None ->
      snd (jsonw_object buf len json) = len) /\
  (forall type,
      fst (jsonw_value buf type json) = None ->
      snd (jsonw_value buf type json) = type).
Proof.
  repeat apply conj.
  - intros b. apply boolean_fail_keeps.
  - intros num. apply number_fail_keeps.
  - intros len. apply string_fail_keeps.
  - intros len H. pose proof (array_ok buf len json) as Hok.
    unfold ok_result in Hok. now rewrite H in Hok.
  - intros len _. apply object_ok.
  - intros type H. pose proof (value_ok buf type json) as Hok.
    unfold ok_result in Hok. now rewrite H in Hok.
Qed.

Lemma failure_leaves_out_param_witness :
  snd (jsonw_boolean (bytes "tru") false (Some 0%nat)) = false /\
  snd (jsonw_number (bytes "-x") 7%float (Some 0%nat)) = 7%float /\
  snd (jsonw_string (json_bytes "'ab") 7 (Some 0%nat)) = 7 /\
  snd (jsonw_array (bytes "[1,]") 7 (Some 0%nat)) = 7 /\
  snd (jsonw_object (json_bytes "{'a' 1}") 7 (Some 0%nat)) = 7 /\
  snd (jsonw_value (bytes "[1 2]") JSONW_STRING (Some 0%nat)) = JSONW_STRING.
Proof.
  repeat apply conj.
  - apply (failure_leaves_out_param (bytes "tru") (Some 0%nat)).
    vm_compute. reflexivity.
  - apply (failure_leaves_out_param (bytes "-x") (Some 0%nat)).
    vm_compute. reflexivity.
  - apply (failure_leaves_out_param (json_bytes "'ab") (Some 0%nat)).
    vm_compute. reflexivity.
  - apply (failure_leaves_out_param (bytes "[1,]") (Some 0%nat)).
    vm_compute. reflexivity.
  - apply (failure_leaves_out_param (json_bytes "{'a' 1}") (Some 0%nat)).
    vm_compute. reflexivity.
  - apply (failure_leaves_out_param (bytes "[1 2]") (Some 0%nat)).
    vm_compute. reflexivity.
Defined.

(** ** Keys *)

(** C10. With the empty string as key, [jsonw_strcmp] returns 0 at every
    cursor at which [jsonw_character] fails, [NULL] included; so
    [jsonw_find] with the empty key returns the cursor it was given at once
    wherever no character decodes after [jsonw_beginstr], in particular at
    every byte that is not a double quote, such as the closing brace of the
    empty object. *)
Theorem find_empty_key :
  (forall buf json,
      fst (jsonw_character buf NUL json) = None ->
      jsonw_strcmp buf "" json = 0) /\
  (forall buf, jsonw_strcmp buf "" None = 0) /\
  (forall buf json,
      fst (jsonw_character buf NUL (jsonw_beginstr buf json)) = None ->
      jsonw_find buf "" json = json /\
      find_loop buf (cursor_fuel buf json) "" json = Done json) /\
  (forall buf p,
      peek buf p <> DQUOTE -> jsonw_find buf "" (Some p) = Some p) /\
  (jsonw_beginobj (bytes "{}") (Some 0%nat) = Some 1%nat /\
   peek (bytes "{}") 1 = "}"%char /\
   jsonw_find (bytes "{}") "" (Some 1%nat) = Some 1%nat).
Proof.
  assert (Hcmp : forall buf json,
             fst (jsonw_character buf NUL json) = None ->
             jsonw_strcmp buf "" json = 0).
  { intros buf json H. cbn [jsonw_strcmp].
    pose proof (character_fail_keeps buf NUL json H) as Hk.
    destruct (jsonw_character buf NUL json) as [j c].
    cbn [snd] in Hk. subst c. reflexivity. }
  assert (Hfind : forall buf json,
             fst (jsonw_character buf NUL (jsonw_beginstr buf json)) = None ->
             jsonw_find buf "" json = json /\
             find_loop buf (cursor_fuel buf json) "" json = Done json).
  { intros buf json H. apply find_first_match. now apply Hcmp. }
  repeat apply conj.
  - exact Hcmp.
  - intros buf. reflexivity.
  - exact Hfind.
  - intros buf p Hq. apply Hfind. unfold jsonw_beginstr. cbn [jsonw_litchr].
    destruct (Ascii.eqb (peek buf p) DQUOTE) eqn:He; [| reflexivity].
    apply Ascii.eqb_eq in He. contradiction.
  - reflexivity.
  - reflexivity.
  - vm_compute. reflexivity.
Qed.

Lemma find_empty_key_witness :
  jsonw_strcmp (json_bytes "''") "" (Some 1%nat) = 0 /\
  jsonw_find (bytes "[1]") "" (Some 1%nat) = Some 1%nat.
Proof.
  destruct find_empty_key as (Hcmp & _ & _ & Hfind & _). split.
  - apply Hcmp. reflexivity.
  - apply Hfind. vm_compute. discriminate.
Defined.

(** ** Arrays and objects *)

(** C1. What [jsonw_array] and [jsonw_object] leave behind their length
    out-parameter.  The four documents of the claim parse to their end;
    the empty array and both objects leave the pointee as it was, and the
    array of three elements stores 2, as the array of one element stores
    0: the count is stored before the increment for the last element, the
    empty array returns before any store, and [jsonw_object] never stores,
    whatever the text. *)
Theorem array_object_counts :
  (forall len,
      jsonw_array (bytes "[]") len (Some 0%nat) = (Some 2%nat, len)) /\
  (forall len,
      jsonw_object (bytes "{}") len (Some 0%nat) = (Some 2%nat, len)) /\
  (forall len,
      jsonw_array (bytes "[1,2,3]") len (Some 0%nat) = (Some 7%nat, 2)) /\
  (forall len,
      jsonw_object (json_bytes "{'a':1,'b':2}") len (Some 0%nat)
      = (Some 13%nat, len)) /\
  (forall len,
      jsonw_array (bytes "[1]") len (Some 0%nat) = (Some 3%nat, 0)) /\
  (forall buf len json, snd (jsonw_object buf len json) = len).
Proof.
  do 5 (split; [intros len; vm_compute; reflexivity |]).
  intros buf len json. apply object_ok.
Qed.

(** ** Whole documents *)

(** A text is accepted by the driver exactly when a value parses after the
    leading white space and only white space lies between its end and the
    end of the text. *)
Lemma valid_value_then_ws (buf : list ascii) :
  valid buf = true <->
  exists v,
    fst (jsonw_value buf JSONW_NULL (jsonw_ws buf (Some 0%nat))) = Some v /\
    (v <= List.length buf)%nat /\
    (forall i, (v <= i < List.length buf)%nat -> ws_cond buf i = true).
Proof.
  unfold valid, jsonw_text.
  destruct (jsonw_value buf JSONW_NULL (jsonw_ws buf (Some 0%nat)))
    as [[v |] ty]; cbn [fst jsonw_ws].
  - pose proof (ws_at_spec buf v) as (Hle & Hstop & Hall).
    pose proof (ws_at_bound buf v) as Hbound.
    split.
    + intros H. apply Nat.eqb_eq in H. exists v.
      split; [reflexivity |]. split; [lia |].
      intros i Hi. apply Hall. lia.
    + intros (v' & Hv & Hin & Hws). inversion Hv; subst v'.
      apply Nat.eqb_eq.
      destruct (Nat.lt_ge_cases (ws_at buf v) (List.length buf))
        as [Hlt | Hge]; [| lia].
      rewrite Hws in Hstop by lia. discriminate.
  - split; [discriminate |]. intros (v & Hv & _). discriminate.
Qed.

(** C2. The driver of [test.c] accepts a text exactly when [jsonw_text]
    returns a cursor and that cursor is the end of the text; that is, when
    a value parses after the leading white space and nothing but white
    space lies between its end and the end of the text.  On the text made
    of 1, a space and 2, [jsonw_text] returns the cursor of the 2, before
    the end, and the text is rejected, although the text made of 1 alone
    parses as a value and is accepted. *)
Theorem full_consumption_validity :
  (forall buf,
      valid buf = true <->
      exists e ty,
        jsonw_text buf JSONW_NULL (Some 0%nat) = (Some e, ty) /\
        e = List.length buf) /\
  (forall buf,
      valid buf = true <->
      exists v,
        fst (jsonw_value buf JSONW_NULL (jsonw_ws buf (Some 0%nat)))
        = Some v /\
        (v <= List.length buf)%nat /\
        (forall i, (v <= i < List.length buf)%nat ->
                   peek buf i <> NUL /\ is_wschr (peek buf i) = true)) /\
  (jsonw_text (bytes "1 2") JSONW_NULL (Some 0%nat)
   = (Some 2%nat, JSONW_NUMBER) /\
   (2 < List.length (bytes "1 2"))%nat /\
   valid (bytes "1 2") = false) /\
  (jsonw_value (bytes "1") JSONW_NULL (Some 0%nat)
   = (Some 1%nat, JSONW_NUMBER) /\
   valid (bytes "1") = true).
Proof.
  split; [| split]; [| | repeat split; vm_compute; (reflexivity || lia)].
  - intros buf. unfold valid.
    destruct (jsonw_text buf JSONW_NULL (Some 0%nat)) as [[e |] ty];
      cbn [fst].
    + split.
      * intros H. apply Nat.eqb_eq in H. now exists e, ty.
      * intros (e' & ty' & H & He). inversion H; subst.
        now apply Nat.eqb_eq.
    + split; [discriminate |]. intros (e' & ty' & H & _). discriminate.
  - intros buf. rewrite valid_value_then_ws.
    split; intros (v & Hv & Hin & Hws); exists v;
      (split; [exact Hv |]); (split; [exact Hin |]); intros i Hi;
      specialize (Hws i Hi).
    + unfold ws_cond in Hws. apply andb_prop in Hws as [Hn Hw].
      split; [| exact Hw]. apply Ascii.eqb_neq. now apply negb_true_iff.
    + destruct Hws as [Hn Hw]. unfold ws_cond. rewrite Hw.
      apply Ascii.eqb_neq in Hn. now rewrite Hn.
Qed.

Lemma full_consumption_validity_witness :
  valid (json_bytes " {'a' : [1, true, null]} ") = true.
Proof.
  apply (proj1 full_consumption_validity).
  exists 25%nat, JSONW_OBJECT. split; vm_compute; reflexivity.
Defined.

(** ** Elements *)

(** C7, as the code has it.  Where a value parses, [jsonw_element] is
    [jsonw_valuesep] applied to the end of the value: it returns the cursor
    after the comma and the white space around it when the first byte that
    is not white space after the value is a comma, and [NULL] when it is
    not. *)
Theorem element_needs_separator (buf : list ascii) (json : cursor) (j : nat) :
  fst (jsonw_value buf JSONW_NULL json) = Some j ->
  jsonw_element buf json = jsonw_valuesep buf (Some j) /\
  (peek buf (ws_at buf j) = ","%char ->
   jsonw_element buf json = Some (ws_at buf (S (ws_at buf j)))) /\
  (peek buf (ws_at buf j) <> ","%char -> jsonw_element buf json = None).
Proof.
  intros Hv. unfold jsonw_element. rewrite Hv.
  split; [reflexivity |].
  unfold jsonw_valuesep, WSCHRWS. cbn [jsonw_ws jsonw_litchr].
  split; intros H.
  - rewrite H. reflexivity.
  - destruct (Ascii.eqb (peek buf (ws_at buf j)) ",") eqn:He;
      [| reflexivity].
    apply Ascii.eqb_eq in He. contradiction.
Qed.

Lemma element_needs_separator_witness :
  jsonw_element (bytes "[1 , 2]") (Some 1%nat) = Some 5%nat /\
  jsonw_element (bytes "[1 , 2]") (Some 5%nat) = None.
Proof.
  split.
  - apply (element_needs_separator (bytes "[1 , 2]") (Some 1%nat) 2%nat);
      reflexivity.
  - apply (element_needs_separator (bytes "[1 , 2]") (Some 5%nat) 6%nat);
      [reflexivity | vm_compute; discriminate].
Defined.

(** C7, as the claim has it, fails: in the array that holds 1 alone, a
    value parses at the 1, no comma follows it, and [jsonw_element]
    returns [NULL]. *)
Lemma element_without_separator :
  fst (jsonw_value (bytes "[1]") JSONW_NULL (Some 1%nat)) = Some 2%nat /\
  peek (bytes "[1]") 2 = "]"%char /\
  jsonw_element (bytes "[1]") (Some 1%nat) = None.
Proof. repeat split; vm_compute; reflexivity. Qed.

(** ** Decoding into a buffer *)

(** C8. With a capacity [len] above zero that the buffer has,
    [jsonw_unescape] stores the bytes of a run of decoded characters, at
    most [len - 1] of them, from the start of the buffer on, then the zero
    byte, and leaves every later byte of the buffer as it was; no store
    falls outside the buffer.  A body of five characters decoded into three
    bytes gives two characters and the zero byte, and the cursor returned
    is after the second character. *)
Theorem unescape_within_capacity :
  (forall buf out len json,
      0 < len < 2 ^ 64 ->
      len <= Z.of_nat (List.length out) ->
      exists cs json',
        decodes_from buf json cs json' /\
        Z.of_nat (List.length cs) <= len - 1 /\
        jsonw_unescape buf out len json
        = Some (cs ++ NUL :: skipn (S (List.length cs)) out, json')) /\
  jsonw_unescape (json_bytes "hello'") (bytes "xyz") 3 (Some 0%nat)
  = Some (["h"%char; "e"%char; NUL], Some 2%nat).
Proof.
  split; [| vm_compute; reflexivity].
  intros buf out len json Hlen Hroom.
  destruct (unescape_loop_spec buf (cursor_fuel buf json) out 0 len json)
    as (cs & json' & Hd & Hn & Hr).
  - fuel_enough.
  - exact Hlen.
  - lia.
  - exists cs, json'. split; [exact Hd |]. split; [exact Hn |].
    unfold jsonw_unescape. rewrite Hr. cbn [unwrap firstn app].
    replace (0 + List.length cs + 1)%nat with (S (List.length cs)) by lia.
    reflexivity.
Qed.

Lemma unescape_within_capacity_witness :
  exists cs json',
    decodes_from (json_bytes "hello'") (Some 0%nat) cs json' /\
    Z.of_nat (List.length cs) <= 3 - 1 /\
    jsonw_unescape (json_bytes "hello'") (bytes "uvwxyz") 3 (Some 0%nat)
    = Some (cs ++ NUL :: skipn (S (List.length cs)) (bytes "uvwxyz"), json').
Proof.
  apply (proj1 unescape_within_capacity); [lia | simpl; lia].
Defined.

(** ** Navigation *)

(** Against a key of one character, [jsonw_strcmp] returns 0 for the C
    string made of that character and for no other. *)
Lemma strcmp_one_character (buf : list ascii) (p p' : nat) (k : ascii)
  (name : string) :
  jsonw_character buf NUL (Some p) = (Some p', k) ->
  fst (jsonw_character buf NUL (Some p')) = None ->
  k <> NUL -> c_string name = true ->
  jsonw_strcmp buf name (Some p) = 0 -> name = String k EmptyString.
Proof.
  intros Hk Hend Hnz Hname H.
  assert (Hcode : forall a b : ascii, a <> b -> code a - code b <> 0).
  { intros a b Hab Hz. apply Hab, code_inj. lia. }
  destruct name as [| c s]; cbn [jsonw_strcmp] in H; rewrite Hk in H.
  - exfalso. apply (Hcode NUL k); [congruence | exact H].
  - cbn [c_string] in Hname. apply andb_prop in Hname as [Hc Hs].
    apply negb_true_iff in Hc. rewrite Hc in H.
    destruct (Ascii.eqb c k) eqn:Hck.
    + apply Ascii.eqb_eq in Hck. subst c. f_equal.
      pose proof (character_fail_keeps buf NUL (Some p') Hend) as Hkeep.
      destruct (jsonw_character buf NUL (Some p')) as [j c'] eqn:Hc'.
      cbn [fst snd] in Hend, Hkeep. subst j c'.
      destruct s as [| d s]; [reflexivity |].
      exfalso. cbn [jsonw_strcmp] in H. rewrite Hc' in H.
      cbn [c_string] in Hs. apply andb_prop in Hs as [Hd _].
      apply negb_true_iff in Hd. rewrite Hd in H.
      apply Ascii.eqb_neq in Hd. exact (Hcode d NUL Hd H).
    + exfalso. apply Ascii.eqb_neq in Hck. exact (Hcode c k Hck H).
Qed.

(** [jsonw_find] compares the key at its cursor: from the opening brace
    of the document, before [jsonw_beginobj], it finds nothing. *)
Lemma lookup_before_beginobj :
  jsonw_lookup doc_nested "b" (Some 0%nat) = None.
Proof. vm_compute. reflexivity. Qed.

(** C6. In the document with the members a and b, entered with
    [jsonw_beginobj], [jsonw_lookup] of b leads to the array; entered with
    [jsonw_beginarr], [jsonw_index] of 1 leads to its second element, where
    [jsonw_number] stores 3.  [jsonw_find] returns [NULL] for every key
    other than a and b.  [jsonw_find] returns the cursor it was given when
    the key there compares equal; so in the document with two members a,
    [jsonw_find] of a returns the cursor of the first one, and the value
    that [jsonw_lookup] reaches is 1. *)
Theorem navigation_examples :
  (jsonw_beginobj doc_nested (Some 0%nat) = Some 1%nat /\
   jsonw_lookup doc_nested "b" (Some 1%nat) = Some 11%nat /\
   jsonw_beginarr doc_nested (Some 11%nat) = Some 12%nat /\
   jsonw_index doc_nested 1 (Some 12%nat) = Some 14%nat /\
   forall num,
     jsonw_number doc_nested num (Some 14%nat) = (Some 15%nat, 3%float)) /\
  (forall num,
      jsonw_number doc_nested num
        (jsonw_index doc_nested 1
           (jsonw_beginarr doc_nested
              (jsonw_lookup doc_nested "b"
                 (jsonw_beginobj doc_nested (Some 0%nat)))))
      = (Some 15%nat, 3%float)) /\
  (forall name,
      c_string name = true -> name <> "a"%string -> name <> "b"%string ->
      jsonw_find doc_nested name (jsonw_beginobj doc_nested (Some 0%nat))
      = None) /\
  (forall buf name json,
      jsonw_strcmp buf name (jsonw_beginstr buf json) = 0 ->
      jsonw_find buf name json = json) /\
  (jsonw_beginobj doc_duplicate (Some 0%nat) = Some 1%nat /\
   jsonw_find doc_duplicate "a" (Some 1%nat) = Some 1%nat /\
   jsonw_lookup doc_duplicate "a" (Some 1%nat) = Some 5%nat /\
   forall num,
     jsonw_number doc_duplicate num (Some 5%nat) = (Some 6%nat, 1%float)).
Proof.
  split.
  { do 4 (split; [vm_compute; reflexivity |]).
    intros num; vm_compute; reflexivity. }
  split; [intros num; vm_compute; reflexivity |].
  split.
  2: { split; [intros buf name json H; now apply find_first_match |].
       do 3 (split; [vm_compute; reflexivity |]).
       intros num; vm_compute; reflexivity. }
  intros name Hname Ha Hb.
  replace (jsonw_beginobj doc_nested (Some 0%nat)) with (Some 1%nat)
    by (vm_compute; reflexivity).
  unfold jsonw_find.
  replace (cursor_fuel doc_nested (Some 1%nat)) with 17%nat
    by (vm_compute; reflexivity).
  cbn [find_loop].
  replace (jsonw_beginstr doc_nested (Some 1%nat)) with (Some 2%nat)
    by (vm_compute; reflexivity).
  destruct (jsonw_strcmp doc_nested name (Some 2%nat) =? 0) eqn:H1.
  { exfalso. apply Ha. apply Z.eqb_eq in H1.
    apply (strcmp_one_character doc_nested 2 3 "a"%char name);
      auto; try reflexivity; discriminate. }
  replace (jsonw_member doc_nested (Some 1%nat)) with (Some 7%nat)
    by (vm_compute; reflexivity).
  replace (jsonw_beginstr doc_nested (Some 7%nat)) with (Some 8%nat)
    by (vm_compute; reflexivity).
  destruct (jsonw_strcmp doc_nested name (Some 8%nat) =? 0) eqn:H2.
  { exfalso. apply Hb. apply Z.eqb_eq in H2.
    apply (strcmp_one_character doc_nested 8 9 "b"%char name);
      auto; try reflexivity; discriminate. }
  replace (jsonw_member doc_nested (Some 7%nat)) with (@None nat)
    by (vm_compute; reflexivity).
  reflexivity.
Qed.

Lemma navigation_examples_witness :
  jsonw_find doc_nested "c" (jsonw_beginobj doc_nested (Some 0%nat)) = None.
Proof.
  apply (proj1 (proj2 (proj2 navigation_examples))); [reflexivity | |];
    discriminate.
Defined.

(** C6, as the claim has it, fails: without [jsonw_beginobj] and
    [jsonw_beginarr] between the steps, [jsonw_lookup] of b, then
    [jsonw_index] of 1, then [jsonw_number] returns [NULL] and stores
    nothing, from [NULL] and from every offset of the document, its
    terminator included.  From the opening brace [jsonw_lookup] finds no
    name to compare and no member to skip; from the first member it
    reaches the opening bracket, where [jsonw_index] skips the whole array
    as one value and then finds the closing brace where it needs a
    comma. *)
Lemma navigation_without_opening_tokens :
  jsonw_lookup doc_nested "b" (Some 0%nat) = None /\
  (jsonw_lookup doc_nested "b" (Some 1%nat) = Some 11%nat /\
   fst (jsonw_value doc_nested JSONW_NULL (Some 11%nat)) = Some 16%nat /\
   peek doc_nested 16 = "}"%char /\
   jsonw_index doc_nested 1 (Some 11%nat) = None) /\
  Forall
    (fun json =>
       forall num,
         jsonw_number doc_nested num
           (jsonw_index doc_nested 1 (jsonw_lookup doc_nested "b" json))
         = (None, num))
    (None :: map Some (seq 0 (S (List.length doc_nested)))).
Proof.
  split; [vm_compute; reflexivity |].
  split; [repeat split; vm_compute; reflexivity |].
  cbn [doc_nested json_bytes List.length seq map].
  repeat (apply Forall_cons; [intros num; vm_compute; reflexivity |]).
  apply Forall_nil.
Qed.

(** * Further properties of the parser *)

(** ** Fuel *)

Section MoreFacts.

Variable buf : list ascii.

Lemma nest_stable_le (n m : nat) :
  (n <= m)%nat ->
  (forall type json r,
      jsonw_value_f buf n type json = Done r ->
      jsonw_value_f buf m type json = Done r) /\
  (forall type json r,
      jsonw_structured_f buf n type json = Done r ->
      jsonw_structured_f buf m type json = Done r) /\
  (forall len json r,
      jsonw_array_f buf n len json = Done r ->
      jsonw_array_f buf m len json = Done r) /\
  (forall len json length r,
      array_loop buf n len json length = Done r ->
      array_loop buf m len json length = Done r) /\
  (forall len json r,
      jsonw_object_f buf n len json = Done r ->
      jsonw_object_f buf m len json = Done r) /\
  (forall len json length r,
      object_loop buf n len json length = Done r ->
      object_loop buf m len json length = Done r).
Proof.
  induction 1 as [| m Hle (IHv & IHs & IHa & IHal & IHo & IHol)];
    [repeat split; auto |].
  pose proof (nest_stable_all buf m) as (Sv & Ss & Sa & Sal & So & Sol).
  repeat apply conj; intros; auto.
Qed.

(** The bound of [nest_total] is enough for the result of the entry
    point. *)
Lemma value_f_adequate (n : nat) (type : jsonw_ty) (p : nat) :
  (4 * (List.length buf - p) + 5 <= n)%nat ->
  jsonw_value_f buf n type (Some p)
  = Done (jsonw_value buf type (Some p)).
Proof.
  intros Hn. destruct (nest_total_all buf n) as (Hv & _).
  destruct (Hv type p Hn) as [r Hr]. rewrite Hr. f_equal.
  pose proof (nest_stable_le n (Nat.max n (nest_fuel buf (Some p))))
    as (Sv & _); [lia |].
  apply Sv in Hr.
  rewrite jsonw_value_any_fuel in Hr by lia. now inversion Hr.
Qed.

Lemma array_f_adequate (n : nat) (len : Z) (p : nat) :
  (4 * (List.length buf - p) + 3 <= n)%nat ->
  jsonw_array_f buf n len (Some p) = Done (jsonw_array buf len (Some p)).
Proof.
  intros Hn. destruct (nest_total_all buf n) as (_ & _ & Ha & _).
  destruct (Ha len p Hn) as [r Hr]. rewrite Hr. f_equal.
  pose proof (nest_stable_le n (Nat.max n (nest_fuel buf (Some p))))
    as (_ & _ & Sa & _); [lia |].
  apply Sa in Hr.
  rewrite jsonw_array_any_fuel in Hr by lia. now inversion Hr.
Qed.

Lemma object_f_adequate (n : nat) (len : Z) (p : nat) :
  (4 * (List.length buf - p) + 3 <= n)%nat ->
  jsonw_object_f buf n len (Some p) = Done (jsonw_object buf len (Some p)).
Proof.
  intros Hn. destruct (nest_total_all buf n) as (_ & _ & _ & _ & Ho & _).
  destruct (Ho len p Hn) as [r Hr]. rewrite Hr. f_equal.
  pose proof (nest_stable_le n (Nat.max n (nest_fuel buf (Some p))))
    as (_ & _ & _ & _ & So & _); [lia |].
  apply So in Hr.
  rewrite jsonw_object_any_fuel in Hr by lia. now inversion Hr.
Qed.

(** [jsonw_value] as the source has it: the primitive values first, then
    the structured ones. *)
Lemma jsonw_structured_eq (type : jsonw_ty) (json : cursor) :
  jsonw_structured buf type json
  = match fst (jsonw_array buf 0 json) with
    | Some j => (Some j, JSONW_ARRAY)
    | None =>
        match fst (jsonw_object buf 0 json) with
        | Some j => (Some j, JSONW_OBJECT)
        | None => (None, type)
        end
    end.
Proof.
  destruct json as [p |]; [| reflexivity].
  unfold jsonw_structured. cbn [nest_fuel].
  replace (4 * (List.length buf - p) + 8)%nat
    with (S (4 * (List.length buf - p) + 7))%nat by lia.
  cbn [jsonw_structured_f].
  rewrite array_f_adequate by lia. cbn [fbind].
  destruct (jsonw_array buf 0 (Some p)) as [[j |] l]; cbn [fst unwrap];
    [reflexivity |].
  rewrite object_f_adequate by lia. cbn [fbind].
  destruct (jsonw_object buf 0 (Some p)) as [[j |] l']; reflexivity.
Qed.

Lemma jsonw_value_eq (type : jsonw_ty) (p : nat) :
  jsonw_value buf type (Some p)
  = match jsonw_primitive buf type (Some p) with
    | (Some j, type) => (Some j, type)
    | (None, type) => jsonw_structured buf type (Some p)
    end.
Proof.
  unfold jsonw_value. cbn [nest_fuel].
  replace (4 * (List.length buf - p) + 8)%nat
    with (S (4 * (List.length buf - p) + 7))%nat by lia.
  cbn [jsonw_value_f].
  destruct (jsonw_primitive buf type (Some p)) as [[j |] type'];
    [reflexivity |].
  pose proof (jsonw_structured_total buf type' (Some p)) as Ht.
  pose proof (nest_total_all buf (4 * (List.length buf - p) + 7))
    as (_ & Hs & _).
  destruct (Hs type' p) as [r Hr]; [lia |]. rewrite Hr. cbn [unwrap].
  pose proof (nest_stable_le (4 * (List.length buf - p) + 7)
                (nest_fuel buf (Some p))) as (_ & Ss & _);
    [cbn [nest_fuel]; lia |].
  apply Ss in Hr. rewrite Ht in Hr. now inversion Hr.
Qed.

(** ** Arrays and objects as sequences *)

(** A result of [jsonw_value_f], whatever the fuel, is the result of
    [jsonw_value]. *)
Lemma value_f_done (n : nat) (type : jsonw_ty) (json : cursor)
  (r : cursor * jsonw_ty) :
  jsonw_value_f buf n type json = Done r -> r = jsonw_value buf type json.
Proof.
  intros Hr.
  pose proof (nest_stable_le n (Nat.max n (nest_fuel buf json)))
    as (Sv & _); [lia |].
  apply Sv in Hr. rewrite jsonw_value_any_fuel in Hr by lia.
  now inversion Hr.
Qed.

Lemma token_exclusive (c c' : ascii) (json : cursor) (q : nat) :
  WSCHRWS buf c json = Some q -> c <> c' -> WSCHRWS buf c' json = None.
Proof.
  intros H Hne. apply WSCHRWS_inv in H as (p & -> & Hpeek & _).
  unfold WSCHRWS. cbn [jsonw_ws jsonw_litchr]. rewrite Hpeek.
  apply Ascii.eqb_neq in Hne. now rewrite Hne.
Qed.

Lemma count_up_mod (n : nat) (length : Z) :
  0 <= length < 2 ^ 64 ->
  count_up n length = (length + Z.of_nat n) mod 2 ^ 64.
Proof.
  revert length. induction n as [| n IH]; intros length Hl.
  - cbn [count_up]. rewrite Z.add_0_r, Z.mod_small; auto.
  - cbn [count_up]. rewrite IH by (unfold size_t; apply Z.mod_pos_bound; lia).
    unfold size_t. rewrite Zplus_mod_idemp_l. f_equal. lia.
Qed.

Lemma array_loop_elements (p n j : nat) :
  elements buf p n j ->
  forall fuel len length q,
    (4 * (List.length buf - p) + 6 <= fuel)%nat ->
    jsonw_endarr buf (Some j) = Some q ->
    array_loop buf fuel len (Some p) length
    = Done (Some q, count_up n length).
Proof.
  induction 1 as [p j Hv | p j k n j' Hv Hs He IH];
    intros fuel len length q Hfuel Hend;
    (destruct fuel as [| fuel]; [lia |]); cbn [array_loop];
    rewrite value_f_adequate by lia;
    pose proof (value_advances buf JSONW_NULL (Some p) j Hv)
      as (p' & Hp' & Hlt);
    inversion Hp'; subst p'; clear Hp';
    destruct (jsonw_value buf JSONW_NULL (Some p)) as [j0 t];
    cbn [fst] in Hv; subst j0; cbn [fbind].
  - rewrite Hend. reflexivity.
  - assert (Hnone : jsonw_endarr buf (Some j) = None).
    { eapply token_exclusive; [exact Hs | discriminate]. }
    rewrite Hnone, Hs. cbn [count_up].
    apply IH; [| exact Hend].
    apply WSCHRWS_progress in Hs; [| discriminate]. lia.
Qed.

Lemma array_loop_inv (fuel : nat) :
  forall len json length q l,
    array_loop buf fuel len json length = Done (Some q, l) ->
    exists p n j,
      json = Some p /\ elements buf p n j /\
      jsonw_endarr buf (Some j) = Some q /\ l = count_up n length.
Proof.
  induction fuel as [| fuel IH]; intros len json length q l H;
    [discriminate |].
  cbn [array_loop] in H.
  destruct (jsonw_value_f buf fuel JSONW_NULL json) as [[j t] |] eqn:Hv;
    cbn [fbind] in H; [| discriminate].
  apply value_f_done in Hv.
  destruct j as [j |]; [| discriminate].
  assert (Hj : fst (jsonw_value buf JSONW_NULL json) = Some j)
    by now rewrite <- Hv.
  pose proof (value_advances buf JSONW_NULL json j Hj) as (p & -> & Hlt).
  destruct (jsonw_endarr buf (Some j)) as [q' |] eqn:He.
  - inversion H; subst. exists p, 0%nat, j.
    repeat split; auto. now constructor.
  - apply IH in H as (k & n & j' & Hk & Hel & Hend & ->).
    exists p, (S n), j'. repeat split; auto.
    econstructor; eauto.
Qed.

Lemma object_loop_members (p n j : nat) :
  members buf p n j ->
  forall fuel len length q,
    (4 * (List.length buf - p) + 6 <= fuel)%nat ->
    jsonw_endobj buf (Some j) = Some q ->
    object_loop buf fuel len (Some p) length = Done (Some q, len).
Proof.
  induction 1 as [p j Hv | p j k n j' Hv Hs He IH];
    intros fuel len length q Hfuel Hend;
    (destruct fuel as [| fuel]; [lia |]); cbn [object_loop];
    pose proof (value_advances buf JSONW_NULL _ j Hv) as (v & Hname & Hlt);
    pose proof (adv_name buf _ _ Hname) as [(p' & Hp' & Hlt' & _) _];
    inversion Hp'; subst p'; clear Hp';
    rewrite Hname in Hv |- *;
    rewrite value_f_adequate by lia;
    destruct (jsonw_value buf JSONW_NULL (Some v)) as [j0 t];
    cbn [fst] in Hv; subst j0; cbn [fbind].
  - rewrite Hend. reflexivity.
  - assert (Hnone : jsonw_endobj buf (Some j) = None).
    { eapply token_exclusive; [exact Hs | discriminate]. }
    rewrite Hnone, Hs.
    apply IH; [| exact Hend].
    apply WSCHRWS_progress in Hs; [| discriminate]. lia.
Qed.

Lemma object_loop_inv (fuel : nat) :
  forall len json length q l,
    object_loop buf fuel len json length = Done (Some q, l) ->
    exists p n j,
      json = Some p /\ members buf p n j /\
      jsonw_endobj buf (Some j) = Some q /\ l = len.
Proof.
  induction fuel as [| fuel IH]; intros len json length q l H;
    [discriminate |].
  cbn [object_loop] in H.
  destruct (jsonw_value_f buf fuel JSONW_NULL (jsonw_name buf json))
    as [[j t] |] eqn:Hv; cbn [fbind] in H; [| discriminate].
  apply value_f_done in Hv.
  destruct j as [j |]; [| discriminate].
  assert (Hj : fst (jsonw_value buf JSONW_NULL (jsonw_name buf json))
               = Some j) by now rewrite <- Hv.
  pose proof (value_advances buf JSONW_NULL _ j Hj) as (v & Hname & Hlt).
  pose proof (adv_name buf _ _ Hname) as [(p & -> & _) _].
  destruct (jsonw_endobj buf (Some j)) as [q' |] eqn:He.
  - inversion H; subst. exists p, 0%nat, j.
    repeat split; auto. now constructor.
  - apply IH in H as (k & n & j' & Hk & Hel & Hend & ->).
    exists p, (S n), j'. repeat split; auto.
    econstructor; eauto.
Qed.

(** [jsonw_array] and [jsonw_object] as the source has them, with the
    loops run on enough fuel. *)
Lemma jsonw_array_eq (len : Z) (p0 : nat) :
  jsonw_array buf len (Some p0)
  = match jsonw_endarr buf (jsonw_beginarr buf (Some p0)) with
    | Some j => (Some j, len)
    | None =>
        unwrap (None, len)
          (array_loop buf (4 * (List.length buf - p0) + 7) len
             (jsonw_beginarr buf (Some p0)) 0)
    end.
Proof.
  unfold jsonw_array. cbn [nest_fuel].
  replace (4 * (List.length buf - p0) + 8)%nat
    with (S (4 * (List.length buf - p0) + 7))%nat by lia.
  cbn [jsonw_array_f].
  destruct (jsonw_endarr buf (jsonw_beginarr buf (Some p0))); reflexivity.
Qed.

Lemma jsonw_object_eq (len : Z) (p0 : nat) :
  jsonw_object buf len (Some p0)
  = match jsonw_endobj buf (jsonw_beginobj buf (Some p0)) with
    | Some j => (Some j, len)
    | None =>
        unwrap (None, len)
          (object_loop buf (4 * (List.length buf - p0) + 7) len
             (jsonw_beginobj buf (Some p0)) 0)
    end.
Proof.
  unfold jsonw_object. cbn [nest_fuel].
  replace (4 * (List.length buf - p0) + 8)%nat
    with (S (4 * (List.length buf - p0) + 7))%nat by lia.
  cbn [jsonw_object_f].
  destruct (jsonw_endobj buf (jsonw_beginobj buf (Some p0))); reflexivity.
Qed.

(** ** Cursors stay in the text *)

Lemma isxdigit_not_nul (c : ascii) : isxdigit c = true -> c <> NUL.
Proof. intros H ->. vm_compute in H. discriminate. Qed.

Lemma hex_loop_in_text (i : nat) (cp : Z) (p : nat) (cp' : Z) (q : nat) :
  hex_loop buf i cp p = Some (cp', q) ->
  (p <= List.length buf)%nat -> (q <= List.length buf)%nat.
Proof.
  revert cp p. induction i as [| i IH]; intros cp p H Hp; cbn [hex_loop] in H.
  - inversion H; subst. exact Hp.
  - destruct (isdigit (peek buf p)) eqn:Hd.
    + apply IH in H; [exact H |].
      apply isdigit_not_nul, peek_in_text in Hd. lia.
    + destruct (isxdigit (peek buf p)) eqn:Hx; [| discriminate].
      apply IH in H; [exact H |].
      apply isxdigit_not_nul, peek_in_text in Hx. lia.
Qed.

Lemma character_in_text (chr : ascii) (p q : nat) :
  fst (jsonw_character buf chr (Some p)) = Some q ->
  (q <= List.length buf)%nat.
Proof.
  intros H. unfold jsonw_character in H. cbv zeta in H.
  destruct (Ascii.eqb (peek buf p) BACKSLASH) eqn:Hb.
  - apply peek_eqb_in_text in Hb; [| discriminate].
    destruct (peek buf (S p) =? NUL)%char eqn:Hn.
    { apply Ascii.eqb_eq in Hn. rewrite Hn in H. cbn in H. discriminate. }
    apply eqb_false_neq, peek_in_text in Hn.
    destruct (hex_loop buf 4 0 (S (S p))) as [[cp r] |] eqn:Hh;
      [apply hex_loop_in_text in Hh; [| lia] |];
      repeat break_if; cbn [fst snd] in H; try discriminate;
      inversion H; subst; lia.
  - destruct ((32 <=? code (peek buf p))
              && negb (Ascii.eqb (peek buf p) DQUOTE))%bool eqn:Hc;
      cbn [fst] in H; [| discriminate].
    inversion H; subst. apply andb_prop in Hc as [Hc _].
    apply Z.leb_le in Hc.
    assert (Hn : peek buf p <> NUL).
    { intros Hn. rewrite Hn in Hc. vm_compute in Hc. contradiction. }
    apply peek_in_text in Hn. lia.
Qed.

(** ** [jsonw_find] as a scan of members *)

Lemma skip_members_NULL (k : nat) : skip_members buf k None = None.
Proof. induction k as [| k IH]; [reflexivity | exact IH]. Qed.

Lemma find_loop_scan (fuel : nat) (name : string) :
  forall json q,
    (rem buf json < fuel)%nat ->
    (find_loop buf fuel name json = Done (Some q) <->
     exists k,
       skip_members buf k json = Some q /\
       jsonw_strcmp buf name (jsonw_beginstr buf (Some q)) = 0 /\
       forall i, (i < k)%nat ->
         jsonw_strcmp buf name
           (jsonw_beginstr buf (skip_members buf i json)) <> 0).
Proof.
  induction fuel as [| fuel IH]; intros json q Hfuel; [lia |].
  cbn [find_loop].
  destruct (jsonw_strcmp buf name (jsonw_beginstr buf json) =? 0) eqn:Hc.
  - apply Z.eqb_eq in Hc. split.
    + intros H. inversion H; subst. exists 0%nat.
      repeat split; auto. intros i Hi. lia.
    + intros (k & Hk & Hq & Hall). destruct k as [| k].
      * cbn [skip_members] in Hk. now rewrite Hk.
      * exfalso. apply (Hall 0%nat); [lia | exact Hc].
  - apply Z.eqb_neq in Hc.
    destruct (jsonw_member buf json) as [j |] eqn:Hm.
    + pose proof (member_progress buf json j Hm) as (p & -> & Hlt & Hin).
      rewrite IH by (cbn [rem] in *; lia). split.
      * intros (k & Hk & Hq & Hall). exists (S k).
        cbn [skip_members]. rewrite Hm. repeat split; auto.
        intros [| i] Hi; [exact Hc |].
        cbn [skip_members]. rewrite Hm. apply Hall. lia.
      * intros (k & Hk & Hq & Hall). destruct k as [| k].
        { cbn [skip_members] in Hk. inversion Hk; subst.
          contradiction. }
        cbn [skip_members] in Hk. rewrite Hm in Hk.
        exists k. repeat split; auto.
        intros i Hi. specialize (Hall (S i)).
        cbn [skip_members] in Hall. rewrite Hm in Hall. apply Hall. lia.
    + split; [discriminate |].
      intros (k & Hk & Hq & Hall). destruct k as [| k].
      * cbn [skip_members] in Hk. subst json. contradiction.
      * cbn [skip_members] in Hk. rewrite Hm, skip_members_NULL in Hk.
        discriminate.
Qed.

(** ** [jsonw_index] in a sequence of elements *)

Lemma index_NULL (n : nat) : jsonw_index buf n None = None.
Proof. induction n as [| n IH]; [reflexivity | exact IH]. Qed.

Lemma index_add (m n : nat) (json : cursor) :
  jsonw_index buf (m + n) json = jsonw_index buf n (jsonw_index buf m json).
Proof.
  revert json. induction m as [| m IH]; intros json; [reflexivity |].
  cbn [Nat.add jsonw_index]. apply IH.
Qed.

Lemma index_elements (p n j : nat) :
  elements buf p n j ->
  forall i, (i <= n)%nat ->
    exists k,
      jsonw_index buf i (Some p) = Some k /\ elements buf k (n - i) j.
Proof.
  induction 1 as [p j Hv | p j k n j' Hv Hs He IH]; intros i Hi.
  - assert (i = 0)%nat as -> by lia. exists p.
    split; [reflexivity | now constructor].
  - destruct i as [| i].
    + exists p. split; [reflexivity |]. econstructor; eauto.
    + cbn [jsonw_index]. unfold jsonw_element. rewrite Hv. cbn [fst].
      rewrite Hs. destruct (IH i) as (k' & Hk' & Hel); [lia |].
      exists k'. split; [exact Hk' |]. exact Hel.
Qed.

Lemma index_past_last (p n j q : nat) :
  elements buf p n j ->
  jsonw_endarr buf (Some j) = Some q ->
  jsonw_index buf (S n) (Some p) = None.
Proof.
  induction 1 as [p j Hv | p j k n j' Hv Hs He IH]; intros Hend.
  - cbn [jsonw_index]. unfold jsonw_element. rewrite Hv. cbn [fst].
    eapply token_exclusive; [exact Hend | discriminate].
  - cbn [jsonw_index]. unfold jsonw_element. rewrite Hv. cbn [fst].
    rewrite Hs. apply IH in Hend. exact Hend.
Qed.

(** ** Literals as prefixes of the text *)

Lemma skipn_peek (p : nat) :
  (p < List.length buf)%nat ->
  skipn p buf = peek buf p :: skipn (S p) buf.
Proof.
  unfold peek. revert p. induction buf as [| c l IH]; intros p Hp;
    cbn [List.length] in Hp; [lia |].
  destruct p as [| p]; [reflexivity |].
  cbn [skipn nth]. rewrite IH by lia. reflexivity.
Qed.

Lemma strncmp_eq_prefix (str : list ascii) (p : nat) :
  Forall (fun c => c <> NUL) str ->
  strncmp_eq buf p str = true <->
  firstn (List.length str) (skipn p buf) = str.
Proof.
  intros Hstr. revert p.
  induction Hstr as [| c str Hc Hstr IH]; intros p; [now cbn |].
  cbn [strncmp_eq List.length]. rewrite andb_true_iff, IH. split.
  - intros [Hp Hrest]. pose proof (peek_eqb_in_text buf p c Hp Hc) as Hin.
    apply Ascii.eqb_eq in Hp. rewrite skipn_peek by exact Hin.
    cbn [firstn]. now rewrite Hp, Hrest.
  - intros H.
    destruct (Nat.lt_ge_cases p (List.length buf)) as [Hin | Hout].
    + rewrite skipn_peek in H by exact Hin. cbn [firstn] in H.
      injection H as Hp Hrest.
      split; [rewrite Hp; apply Ascii.eqb_refl | exact Hrest].
    + rewrite skipn_all2 in H by exact Hout. discriminate.
Qed.

Lemma c_string_bytes (str : string) :
  c_string str = true -> Forall (fun c => c <> NUL) (bytes str).
Proof.
  induction str as [| c str IH]; cbn [c_string bytes list_ascii_of_string];
    intros H; [constructor |].
  apply andb_prop in H as [Hc Hs]. constructor; [| now apply IH].
  apply Ascii.eqb_neq. now apply negb_true_iff.
Qed.

Lemma bytes_length (str : string) :
  List.length (bytes str) = String.length str.
Proof.
  induction str as [| c str IH]; [reflexivity |].
  cbn [bytes list_ascii_of_string List.length String.length].
  f_equal. exact IH.
Qed.

Lemma litstr_prefix (str : string) (p q : nat) :
  c_string str = true ->
  jsonw_litstr buf str (Some p) = Some q <->
  firstn (String.length str) (skipn p buf) = bytes str /\
  q = (p + String.length str)%nat.
Proof.
  intros Hc. unfold jsonw_litstr.
  pose proof (strncmp_eq_prefix (bytes str) p (c_string_bytes str Hc)) as H.
  rewrite bytes_length in H.
  destruct (strncmp_eq buf p (bytes str)).
  - split.
    + intros Hq. inversion Hq. split; [now apply H | reflexivity].
    + intros [_ ->]. reflexivity.
  - split; [discriminate |]. intros [Hpre _]. apply H in Hpre.
    discriminate.
Qed.

(** ** White space *)

Lemma ws_cond_is_wschr (p : nat) : ws_cond buf p = is_wschr (peek buf p).
Proof.
  unfold ws_cond. destruct (Ascii.eqb (peek buf p) NUL) eqn:He;
    [| reflexivity].
  apply Ascii.eqb_eq in He. rewrite He. reflexivity.
Qed.

Lemma ws_at_unique (p q : nat) :
  (p <= q)%nat ->
  (forall i, (p <= i < q)%nat -> is_wschr (peek buf i) = true) ->
  is_wschr (peek buf q) = false ->
  ws_at buf p = q.
Proof.
  intros Hle Hall Hstop.
  pose proof (ws_at_spec buf p) as (Hle' & Hstop' & Hall').
  destruct (Nat.lt_trichotomy (ws_at buf p) q) as [Hlt | [Heq | Hgt]].
  - rewrite ws_cond_is_wschr, Hall in Hstop' by lia. discriminate.
  - exact Heq.
  - specialize (Hall' q). rewrite ws_cond_is_wschr, Hstop in Hall'.
    discriminate Hall'. lia.
Qed.

(** ** Digits *)

Lemma DIGIT_PLUS_digits {A} (step : A -> Z -> A) (acc acc' : A)
  (p q : nat) :
  DIGIT_PLUS buf step acc p = Some (acc', q) ->
  isdigit (peek buf p) = true /\ isdigit (peek buf (q - 1)) = true.
Proof.
  intros H. pose proof (DIGIT_PLUS_progress buf step acc acc' p q H)
    as [Hlt _].
  unfold DIGIT_PLUS in H. destruct (isdigit (peek buf p)) eqn:Hd;
    cbn [negb] in H; [| discriminate].
  split; [reflexivity |].
  destruct (digits_loop_spec buf step (fuel_at buf p) acc p)
    as (a & r & Hr & Hle & Hstop & Hall); [unfold fuel_at; lia |].
  rewrite Hr in H. cbn [unwrap] in H. inversion H; subst.
  apply Hall. lia.
Qed.

(** ** Hexadecimal digits *)

Lemma hexval_range (c : ascii) (v : Z) : hexval c = Some v -> 0 <= v < 16.
Proof.
  unfold hexval, isxdigit, isdigit, tolower.
  repeat
    match goal with
    | |- context [?a <=? ?b] =>
        let E := fresh "E" in
        destruct (a <=? b) eqn:E;
        [apply Z.leb_le in E | apply Z.leb_gt in E]
    end; cbn [andb orb]; intros H; inversion H; lia.
Qed.

Lemma lor_low_digit (x d : Z) :
  0 <= x -> 0 <= d < 16 -> Z.lor (Z.shiftl x 4) d = 16 * x + d.
Proof.
  intros Hx Hd.
  assert (Hland : Z.land (Z.shiftl x 4) d = 0).
  { assert (Hd' : Z.land d (Z.ones 4) = d).
    { rewrite Z.land_ones by lia. apply Z.mod_small.
      change (2 ^ 4) with 16. lia. }
    rewrite <- Hd', (Z.land_comm d), Z.land_assoc.
    rewrite (Z.land_ones (Z.shiftl x 4)) by lia.
    rewrite Z.shiftl_mul_pow2 by lia.
    rewrite Z.mod_mul by (change (2 ^ 4) with 16; lia).
    apply Z.land_0_l. }
  pose proof (Z.add_lor_land (Z.shiftl x 4) d) as H.
  rewrite Hland in H. rewrite Z.shiftl_mul_pow2 in H |- * by lia.
  change (2 ^ 4) with 16 in *. lia.
Qed.

Lemma hex_step (cp : Z) (p : nat) (v : Z) (i : nat) :
  0 <= cp < 4096 -> hexval (peek buf p) = Some v ->
  hex_loop buf (S i) cp p = hex_loop buf i (16 * cp + v) (S p).
Proof.
  intros Hcp Hv. pose proof (hexval_range _ _ Hv) as Hr.
  cbn [hex_loop]. unfold hexval in Hv.
  assert (Hs : ushort (Z.shiftl cp 4) = Z.shiftl cp 4).
  { unfold ushort. rewrite Z.shiftl_mul_pow2 by lia.
    change (2 ^ 4) with 16. apply Z.mod_small. lia. }
  rewrite Hs.
  destruct (isdigit (peek buf p)).
  - inversion Hv; subst v. rewrite lor_low_digit by lia.
    unfold ushort. rewrite Z.mod_small by lia. reflexivity.
  - destruct (isxdigit (peek buf p)); [| discriminate].
    inversion Hv; subst v. rewrite lor_low_digit by lia.
    unfold ushort. rewrite Z.mod_small by lia. reflexivity.
Qed.

(** ** Runs of decoded characters *)

Lemma character_with (chr : ascii) (p p' : nat) (c : ascii) :
  jsonw_character buf NUL (Some p) = (Some p', c) ->
  jsonw_character buf chr (Some p) = (Some p', c).
Proof.
  intros H. destruct (character_chr_indep buf NUL chr (Some p)) as [Hf Hs].
  rewrite H in Hf, Hs. cbn [fst snd] in Hf, Hs.
  destruct (jsonw_character buf chr (Some p)) as [j c'].
  cbn [fst snd] in Hf, Hs. subst j. rewrite <- Hs by discriminate.
  reflexivity.
Qed.

Lemma character_fails_with (chr : ascii) (json : cursor) :
  fst (jsonw_character buf NUL json) = None ->
  jsonw_character buf chr json = (None, chr).
Proof.
  intros H. destruct (character_chr_indep buf NUL chr json) as [Hf _].
  rewrite H in Hf. symmetry in Hf.
  pose proof (character_fail_keeps buf chr json Hf) as Hk.
  destruct (jsonw_character buf chr json) as [j c].
  cbn [fst snd] in Hf, Hk. now subst.
Qed.

Lemma decodes_span (p : nat) (cs : list ascii) (q : nat) :
  decodes buf p cs q -> (p <= List.length buf)%nat ->
  (p + List.length cs <= q <= List.length buf)%nat.
Proof.
  induction 1 as [p | p p' c cs q Hc Hd IH]; intros Hp.
  - cbn [List.length]. lia.
  - assert (Hf : fst (jsonw_character buf NUL (Some p)) = Some p')
      by now rewrite Hc.
    pose proof (character_in_text NUL p p' Hf).
    apply character_progress in Hf as [Hin Hlt].
    cbn [List.length]. specialize (IH ltac:(lia)). lia.
Qed.

Lemma string_loop_count (p : nat) (cs : list ascii) (q : nat) :
  decodes buf p cs q ->
  fst (jsonw_character buf NUL (Some q)) = None ->
  forall fuel m,
    (List.length buf - p < fuel)%nat ->
    string_loop buf fuel (Some p) m
    = Done (Some q, count_up (List.length cs) m).
Proof.
  intros Hd Hstop. induction Hd as [p | p p' c cs q Hc Hd IH];
    intros fuel m Hfuel; (destruct fuel as [| fuel]; [lia |]);
    cbn [string_loop].
  - rewrite Hstop. reflexivity.
  - rewrite Hc. cbn [fst List.length count_up].
    assert (Hp : fst (jsonw_character buf NUL (Some p)) = Some p')
      by now rewrite Hc.
    apply character_progress in Hp as [Hin Hlt].
    apply IH; [exact Hstop | lia].
Qed.

Lemma string_loop_run (fuel : nat) :
  forall p m j n,
    string_loop buf fuel (Some p) m = Done (j, n) ->
    exists cs q,
      j = Some q /\ decodes buf p cs q /\
      n = count_up (List.length cs) m /\
      fst (jsonw_character buf NUL (Some q)) = None.
Proof.
  induction fuel as [| fuel IH]; intros p m j n H; [discriminate |].
  cbn [string_loop] in H.
  destruct (jsonw_character buf NUL (Some p)) as [[p' |] c] eqn:Hc;
    cbn [fst] in H.
  - apply IH in H as (cs & q & -> & Hd & -> & Hstop).
    exists (c :: cs), q. repeat split; auto. econstructor; eauto.
  - inversion H; subst. exists [], p. repeat split; auto.
    + constructor.
    + now rewrite Hc.
Qed.

Lemma quote_stops (q : nat) :
  peek buf q = DQUOTE -> fst (jsonw_character buf NUL (Some q)) = None.
Proof.
  intros H. unfold jsonw_character. rewrite H. reflexivity.
Qed.

(** ** [jsonw_unescape] on a run *)

Lemma unescape_loop_exact (p : nat) (cs : list ascii) (q : nat) :
  decodes buf p cs q ->
  forall fuel out i len,
    (List.length buf - p < fuel)%nat -> 0 < len < 2 ^ 64 ->
    Z.of_nat i + len <= Z.of_nat (List.length out) ->
    Z.of_nat (List.length cs) = len - 1 \/
    (Z.of_nat (List.length cs) < len - 1 /\
     fst (jsonw_character buf NUL (Some q)) = None) ->
    unescape_loop buf fuel out i len (Some p)
    = Done (Some (firstn i out ++ cs ++
                  NUL :: skipn (i + List.length cs + 1) out, Some q)).
Proof.
  induction 1 as [p | p p' c cs q Hc Hd IH];
    intros fuel out i len Hfuel Hlen Hroom Hcase;
    (destruct fuel as [| fuel]; [lia |]);
    assert (Hi : (i < List.length out)%nat) by lia;
    cbn [unescape_loop]; unfold size_t; rewrite Z.mod_small by lia;
    cbn [List.length] in Hcase.
  - assert (Hend : Done (option_map (fun o => (o, Some p))
                           (store out i NUL))
                   = Done (Some (firstn i out ++ [] ++
                                 NUL :: skipn (i + 0 + 1) out, Some p))).
    { rewrite store_in by exact Hi. cbn [option_map app].
      replace (i + 0 + 1)%nat with (S i) by lia. reflexivity. }
    destruct Hcase as [Hfull | [Hless Hstop]].
    + replace (len - 1) with 0 by lia. cbn [Z.eqb]. exact Hend.
    + destruct (len - 1 =? 0) eqn:Hz; [exact Hend |].
      rewrite (character_fails_with _ _ Hstop). exact Hend.
  - destruct (len - 1 =? 0) eqn:Hz; [apply Z.eqb_eq in Hz; lia |].
    rewrite (character_with _ _ _ _ Hc).
    rewrite store_in by exact Hi.
    assert (Hp : fst (jsonw_character buf NUL (Some p)) = Some p')
      by now rewrite Hc.
    apply character_progress in Hp as [Hin Hlt].
    rewrite (IH fuel _ (S i) (len - 1)).
    + rewrite stored_firstn by exact Hi.
      replace (S i + List.length cs + 1)%nat
        with (S i + (List.length cs + 1))%nat by lia.
      rewrite stored_skipn by exact Hi.
      rewrite <- app_assoc. cbn [app List.length].
      replace (i + S (List.length cs) + 1)%nat
        with (S i + (List.length cs + 1))%nat by lia.
      reflexivity.
    + lia.
    + lia.
    + rewrite stored_length by exact Hi. lia.
    + destruct Hcase as [Hfull | [Hless Hstop]]; [left | right; split];
        auto; lia.
Qed.

Lemma jsonw_unescape_run (out : list ascii) (len : Z) (p : nat)
  (cs : list ascii) (q : nat) :
  0 < len < 2 ^ 64 ->
  len <= Z.of_nat (List.length out) ->
  decodes buf p cs q ->
  Z.of_nat (List.length cs) = len - 1 \/
  (Z.of_nat (List.length cs) < len - 1 /\
   fst (jsonw_character buf NUL (Some q)) = None) ->
  jsonw_unescape buf out len (Some p)
  = Some (cs ++ NUL :: skipn (S (List.length cs)) out, Some q).
Proof.
  intros Hlen Hroom Hd Hcase. unfold jsonw_unescape.
  rewrite (unescape_loop_exact p cs q Hd (cursor_fuel buf (Some p)) out 0
             len ltac:(fuel_enough) Hlen ltac:(lia) Hcase).
  cbn [unwrap firstn app].
  replace (0 + List.length cs + 1)%nat with (S (List.length cs)) by lia.
  reflexivity.
Qed.

(** ** [jsonw_strcmp] on a run *)

Lemma strcmp_run (p : nat) (cs : list ascii) (q : nat) :
  decodes buf p cs q ->
  ~ In NUL cs ->
  snd (jsonw_character buf NUL (Some q)) = NUL ->
  forall name,
    c_string name = true ->
    (jsonw_strcmp buf name (Some p) = 0 <-> bytes name = cs).
Proof.
  assert (Hcode : forall a b : ascii, a <> b -> code a - code b <> 0).
  { intros a b Hab Hz. apply Hab, code_inj. lia. }
  induction 1 as [p | p p' c cs q Hc Hd IH]; intros Hnul Hend name Hname.
  - destruct (jsonw_character buf NUL (Some p)) as [j c] eqn:Hc.
    cbn [snd] in Hend. subst c.
    destruct name as [| s name]; cbn [jsonw_strcmp]; rewrite Hc.
    + split; reflexivity.
    + cbn [c_string] in Hname. apply andb_prop in Hname as [Hs _].
      apply negb_true_iff in Hs. rewrite Hs.
      apply Ascii.eqb_neq in Hs. split.
      * intros H. exfalso. exact (Hcode s NUL Hs H).
      * cbn [bytes list_ascii_of_string]. discriminate.
  - assert (Hcn : c <> NUL) by (intros ->; apply Hnul; now left).
    assert (Hnul' : ~ In NUL cs) by (intros Hin; apply Hnul; now right).
    destruct name as [| s name]; cbn [jsonw_strcmp]; rewrite Hc.
    + split.
      * intros H. exfalso. apply (Hcode NUL c); [congruence | exact H].
      * cbn [bytes list_ascii_of_string]. discriminate.
    + cbn [c_string] in Hname. apply andb_prop in Hname as [Hs Hname].
      apply negb_true_iff in Hs. rewrite Hs.
      cbn [bytes list_ascii_of_string].
      destruct (Ascii.eqb s c) eqn:Hsc.
      * apply Ascii.eqb_eq in Hsc. subst s.
        rewrite (IH Hnul' Hend name Hname). unfold bytes.
        split; [intros ->; reflexivity | intros H; now inversion H].
      * apply Ascii.eqb_neq in Hsc. split.
        -- intros H. exfalso. exact (Hcode s c Hsc H).
        -- intros H. inversion H. contradiction.
Qed.

(** ** The [u] escape *)

Lemma character_u (chr : ascii) (p : nat) :
  peek buf p = BACKSLASH -> peek buf (S p) = "u"%char ->
  jsonw_character buf chr (Some p)
  = match hex_loop buf 4 0 (S (S p)) with
    | None => (None, chr)
    | Some (cp, q) => (Some q, if cp <=? 127 then chr_of cp else NUL)
    end.
Proof.
  intros Hb Hu. unfold jsonw_character. rewrite Hb, Hu. reflexivity.
Qed.

Lemma hexval_digit (c : ascii) :
  hexval c = None -> isdigit c = false /\ isxdigit c = false.
Proof.
  unfold hexval. destruct (isdigit c); [discriminate |].
  destruct (isxdigit c); [discriminate | auto].
Qed.

Lemma hex_loop_none (n : nat) :
  forall cp p i,
    (i < n)%nat -> hexval (peek buf (i + p)) = None ->
    hex_loop buf n cp p = None.
Proof.
  induction n as [| n IH]; intros cp p i Hi Hnone; [lia |].
  cbn [hex_loop]. destruct i as [| i].
  - apply hexval_digit in Hnone as [Hd Hx]. cbn [Nat.add] in Hd, Hx.
    now rewrite Hd, Hx.
  - replace (S i + p)%nat with (i + S p)%nat in Hnone by lia.
    destruct (isdigit (peek buf p)); [apply (IH _ _ i); auto; lia |].
    destruct (isxdigit (peek buf p)); [apply (IH _ _ i); auto; lia |].
    reflexivity.
Qed.

(** ** Kinds of values *)

Lemma litstr_first (str : string) (c : ascii) (str' : string) (p q : nat) :
  str = String c str' ->
  jsonw_litstr buf str (Some p) = Some q -> peek buf p = c.
Proof.
  intros -> H. unfold jsonw_litstr in H.
  cbn [bytes list_ascii_of_string strncmp_eq] in H.
  destruct (Ascii.eqb (peek buf p) c) eqn:He; [| discriminate].
  now apply Ascii.eqb_eq.
Qed.

Lemma array_begins (len : Z) (p q : nat) :
  fst (jsonw_array buf len (Some p)) = Some q ->
  peek buf (ws_at buf p) = "["%char.
Proof.
  rewrite jsonw_array_eq.
  destruct (jsonw_beginarr buf (Some p)) as [p1 |] eqn:Hb.
  - intros _. apply WSCHRWS_inv in Hb as (p' & Hp' & Hpeek & _).
    now inversion Hp'; subst.
  - replace (4 * (List.length buf - p) + 7)%nat
      with (S (S (4 * (List.length buf - p) + 5)))%nat by lia.
    cbn [jsonw_endarr WSCHRWS jsonw_ws jsonw_litchr].
    rewrite array_loop_NULL. cbn. discriminate.
Qed.

Lemma object_begins (len : Z) (p q : nat) :
  fst (jsonw_object buf len (Some p)) = Some q ->
  peek buf (ws_at buf p) = "{"%char.
Proof.
  rewrite jsonw_object_eq.
  destruct (jsonw_beginobj buf (Some p)) as [p1 |] eqn:Hb.
  - intros _. apply WSCHRWS_inv in Hb as (p' & Hp' & Hpeek & _).
    now inversion Hp'; subst.
  - replace (4 * (List.length buf - p) + 7)%nat
      with (S (S (4 * (List.length buf - p) + 5)))%nat by lia.
    cbn [jsonw_endobj WSCHRWS jsonw_ws jsonw_litchr].
    rewrite object_loop_NULL. cbn. discriminate.
Qed.

Lemma number_first (num : float) (p q : nat) :
  fst (jsonw_number buf num (Some p)) = Some q ->
  peek buf p = "-"%char \/ isdigit (peek buf p) = true.
Proof.
  intros H. unfold jsonw_number in H.
  destruct (Ascii.eqb (peek buf p) "-") eqn:Hm;
    [left; now apply Ascii.eqb_eq |].
  right. cbv beta iota in H.
  destruct (Ascii.eqb (peek buf p) "0") eqn:H0.
  - apply Ascii.eqb_eq in H0. now rewrite H0.
  - destruct (DIGIT_PLUS buf step_double (double_of_int 0) p)
      as [[s q1] |] eqn:Hd; [| cbn in H; discriminate].
    now apply DIGIT_PLUS_digits in Hd.
Qed.

Lemma string_first (len : Z) (p q : nat) :
  fst (jsonw_string buf len (Some p)) = Some q -> peek buf p = DQUOTE.
Proof.
  unfold jsonw_string, jsonw_beginstr. cbn [jsonw_litchr].
  destruct (Ascii.eqb (peek buf p) DQUOTE) eqn:He;
    [intros _; now apply Ascii.eqb_eq |].
  cbn. discriminate.
Qed.

Lemma value_kind (type : jsonw_ty) (p q : nat) (k : jsonw_ty) :
  jsonw_value buf type (Some p) = (Some q, k) ->
  match k with
  | JSONW_NULL => peek buf p = "n"%char
  | JSONW_BOOLEAN => peek buf p = "t"%char \/ peek buf p = "f"%char
  | JSONW_NUMBER => peek buf p = "-"%char \/ isdigit (peek buf p) = true
  | JSONW_STRING => peek buf p = DQUOTE
  | JSONW_ARRAY => peek buf (ws_at buf p) = "["%char
  | JSONW_OBJECT => peek buf (ws_at buf p) = "{"%char
  end.
Proof.
  rewrite jsonw_value_eq. unfold jsonw_primitive, jsonw_null.
  destruct (jsonw_litstr buf "null" (Some p)) as [j |] eqn:Hn.
  { intros H. inversion H; subst.
    eapply litstr_first; [reflexivity | exact Hn]. }
  destruct (fst (jsonw_boolean buf false (Some p))) as [j |] eqn:Hb.
  { intros H. inversion H; subst. unfold jsonw_boolean in Hb.
    destruct (jsonw_litstr buf "true" (Some p)) as [j' |] eqn:Ht.
    - left. eapply litstr_first; [reflexivity | exact Ht].
    - destruct (jsonw_litstr buf "false" (Some p)) as [j' |] eqn:Hf;
        [| discriminate].
      right. eapply litstr_first; [reflexivity | exact Hf]. }
  destruct (fst (jsonw_number buf (double_of_int 0) (Some p))) as [j |]
    eqn:Hnum.
  { intros H. inversion H; subst. now apply number_first in Hnum. }
  destruct (fst (jsonw_string buf 0 (Some p))) as [j |] eqn:Hs.
  { intros H. inversion H; subst. now apply string_first in Hs. }
  rewrite jsonw_structured_eq.
  destruct (fst (jsonw_array buf 0 (Some p))) as [j |] eqn:Ha.
  { intros H. inversion H; subst. now apply array_begins in Ha. }
  destruct (fst (jsonw_object buf 0 (Some p))) as [j |] eqn:Ho.
  { intros H. inversion H; subst. now apply object_begins in Ho. }
  discriminate.
Qed.

(** ** Members of an accepted object *)

Lemma member_of_members (p j k : nat) :
  fst (jsonw_value buf JSONW_NULL (jsonw_name buf (Some p))) = Some j ->
  jsonw_valuesep buf (Some j) = Some k ->
  jsonw_member buf (Some p) = Some k.
Proof.
  intros Hv Hs. unfold jsonw_member, jsonw_element. now rewrite Hv.
Qed.

Lemma skip_members_in_object (p n j e : nat) :
  members buf p n j ->
  jsonw_endobj buf (Some j) = Some e ->
  forall k q,
    skip_members buf k (Some p) = Some q ->
    exists m, members buf q m j.
Proof.
  induction 1 as [p j Hv | p j k' n j' Hv Hs Hm IH]; intros Hend k q Hk.
  - destruct k as [| k].
    + cbn [skip_members] in Hk. inversion Hk; subst.
      exists 0%nat. now constructor.
    + cbn [skip_members] in Hk.
      unfold jsonw_member, jsonw_element in Hk. rewrite Hv in Hk.
      cbn [fst] in Hk.
      assert (Hn : jsonw_valuesep buf (Some j) = None)
        by (eapply token_exclusive; [exact Hend | discriminate]).
      rewrite Hn, skip_members_NULL in Hk. discriminate.
  - destruct k as [| k].
    + cbn [skip_members] in Hk. inversion Hk; subst.
      exists (S n). econstructor; eauto.
    + cbn [skip_members] in Hk.
      rewrite (member_of_members p j k' Hv Hs) in Hk.
      now apply (IH Hend k q).
Qed.

Lemma members_head (p n j : nat) :
  members buf p n j ->
  exists v w,
    jsonw_name buf (Some p) = Some v /\
    fst (jsonw_value buf JSONW_NULL (Some v)) = Some w.
Proof.
  intros H.
  assert (Hv : exists w,
             fst (jsonw_value buf JSONW_NULL (jsonw_name buf (Some p)))
             = Some w) by (inversion H; eauto).
  destruct Hv as [w Hv].
  pose proof (value_advances buf JSONW_NULL _ w Hv) as (v & Hname & _).
  exists v, w. split; [exact Hname |]. now rewrite <- Hname.
Qed.

(** ** [jsonw_unescape] without a capacity *)

Lemma unescape_loop_overrun (p : nat) (cs : list ascii) (q : nat) :
  decodes buf p cs q ->
  fst (jsonw_character buf NUL (Some q)) = None ->
  forall fuel out i len,
    (List.length buf - p < fuel)%nat ->
    Z.of_nat (List.length cs) < size_t (len - 1) ->
    (List.length out <= i + List.length cs)%nat ->
    unescape_loop buf fuel out i len (Some p) = Done None.
Proof.
  intros Hd Hstop. induction Hd as [p | p p' c cs q Hc Hd IH];
    intros fuel out i len Hfuel Hlen Hout;
    (destruct fuel as [| fuel]; [lia |]); cbn [unescape_loop];
    cbn [List.length] in Hlen, Hout;
    (destruct (size_t (len - 1) =? 0) eqn:Hz;
     [apply Z.eqb_eq in Hz; lia |]).
  - rewrite (character_fails_with _ _ Hstop).
    unfold store. replace (i <? List.length out)%nat with false
      by (symmetry; apply Nat.ltb_ge; lia).
    reflexivity.
  - rewrite (character_with _ _ _ _ Hc).
    assert (Hp : fst (jsonw_character buf NUL (Some p)) = Some p')
      by now rewrite Hc.
    apply character_progress in Hp as [Hin Hlt].
    destruct (Nat.lt_ge_cases i (List.length out)) as [Hi | Hi].
    + rewrite store_in by exact Hi. apply IH; [exact Hstop | lia | |].
      * assert (Hr : 0 <= size_t (len - 1) < 2 ^ 64)
          by (unfold size_t; apply Z.mod_pos_bound; lia).
        unfold size_t at 1. rewrite Z.mod_small by lia. lia.
      * rewrite stored_length by exact Hi. lia.
    + unfold store. replace (i <? List.length out)%nat with false
        by (symmetry; apply Nat.ltb_ge; lia).
      reflexivity.
Qed.

(** ** The exponent counter *)

Lemma digits_loop_ushort (n : nat) :
  forall fuel p acc,
    (List.length buf - p < fuel)%nat ->
    (forall i, (p <= i < p + n)%nat -> isdigit (peek buf i) = true) ->
    isdigit (peek buf (p + n)) = false ->
    digits_loop buf step_ushort fuel (ushort acc) p
    = Done (ushort (decimal_at buf n p acc), (p + n)%nat).
Proof.
  induction n as [| n IH]; intros fuel p acc Hfuel Hall Hstop;
    (destruct fuel as [| fuel]; [lia |]); cbn [digits_loop decimal_at].
  - rewrite Nat.add_0_r in *. now rewrite Hstop.
  - assert (Hd : isdigit (peek buf p) = true) by (apply Hall; lia).
    rewrite Hd.
    pose proof (peek_in_text buf p (isdigit_not_nul _ Hd)) as Hin.
    replace (step_ushort (ushort acc) (code (peek buf p) - 48))
      with (ushort (acc * 10 + (code (peek buf p) - 48))).
    + replace (p + S n)%nat with (S p + n)%nat in * by lia.
      apply IH; [lia | | exact Hstop].
      intros i Hi. apply Hall. lia.
    + unfold step_ushort, ushort.
      rewrite Zmult_mod_idemp_l, Zplus_mod_idemp_l. reflexivity.
Qed.

Lemma DIGIT_PLUS_one {A} (step : A -> Z -> A) (acc : A) (p : nat) :
  isdigit (peek buf p) = true -> isdigit (peek buf (S p)) = false ->
  DIGIT_PLUS buf step acc p = Some (step acc (code (peek buf p) - 48), S p).
Proof.
  intros Hd Hstop. unfold DIGIT_PLUS, fuel_at. rewrite Hd. cbn [negb].
  pose proof (peek_in_text buf p (isdigit_not_nul _ Hd)) as Hin.
  destruct (List.length buf - p)%nat as [| k] eqn:Hk; [lia |].
  cbn [digits_loop]. rewrite Hd, Hstop. reflexivity.
Qed.

Lemma DIGIT_PLUS_ushort (n p : nat) :
  (0 < n)%nat ->
  (forall i, (p <= i < p + n)%nat -> isdigit (peek buf i) = true) ->
  isdigit (peek buf (p + n)) = false ->
  DIGIT_PLUS buf step_ushort 0 p
  = Some (ushort (decimal_at buf n p 0), (p + n)%nat).
Proof.
  intros Hn Hall Hstop. unfold DIGIT_PLUS.
  rewrite Hall by lia. cbn [negb].
  change 0 with (ushort 0) at 1 2.
  rewrite (digits_loop_ushort n (fuel_at buf p) p 0); auto;
    unfold fuel_at; lia.
Qed.

Lemma isdigit_not_sign (c : ascii) :
  isdigit c = true ->
  Ascii.eqb c "-" = false /\ Ascii.eqb c "+" = false.
Proof.
  intros H. split; apply Ascii.eqb_neq; intros ->; vm_compute in H;
    discriminate.
Qed.

(** ** No parser crosses the terminator *)

Lemma clean_join (p q r : nat) :
  clean buf p q -> clean buf q r -> clean buf p r.
Proof.
  intros H1 H2 i Hi. destruct (Nat.lt_ge_cases i q);
    [apply H1 | apply H2]; lia.
Qed.

Lemma clean_one (p : nat) : peek buf p <> NUL -> clean buf p (S p).
Proof. intros H i Hi. assert (i = p) as -> by lia. exact H. Qed.

Lemma clean_empty (p : nat) : clean buf p p.
Proof. intros i Hi. lia. Qed.

Lemma clean_from_join (json : cursor) (q r : nat) :
  clean_from buf json q -> clean_from buf (Some q) r ->
  clean_from buf json r.
Proof.
  intros (p & -> & H1) (q' & Hq & H2). inversion Hq; subst q'.
  exists p. split; [reflexivity |]. eapply clean_join; eauto.
Qed.

Lemma peek_eqb_not_nul (p : nat) (c : ascii) :
  Ascii.eqb (peek buf p) c = true -> c <> NUL -> peek buf p <> NUL.
Proof. intros H Hc. apply Ascii.eqb_eq in H. congruence. Qed.

Lemma ws_clean (p : nat) : clean buf p (ws_at buf p).
Proof.
  intros i Hi. pose proof (ws_at_spec buf p) as (_ & _ & Hall).
  specialize (Hall i Hi). unfold ws_cond in Hall.
  apply andb_prop in Hall as [Hn _]. apply Ascii.eqb_neq.
  now apply negb_true_iff.
Qed.

Lemma token_clean (chr : ascii) (json : cursor) (q : nat) :
  chr <> NUL -> WSCHRWS buf chr json = Some q -> clean_from buf json q.
Proof.
  intros Hchr H. apply WSCHRWS_inv in H as (p & -> & Hpeek & ->).
  exists p. split; [reflexivity |].
  eapply clean_join; [apply ws_clean |].
  eapply clean_join; [apply clean_one; congruence | apply ws_clean].
Qed.

Lemma strncmp_eq_clean (str : list ascii) (p : nat) :
  Forall (fun c => c <> NUL) str ->
  strncmp_eq buf p str = true -> clean buf p (p + List.length str).
Proof.
  intros Hstr. revert p.
  induction Hstr as [| c str Hc Hstr IH]; intros p H;
    cbn [List.length strncmp_eq] in *.
  - rewrite Nat.add_0_r. apply clean_empty.
  - apply andb_prop in H as [Hp H].
    eapply clean_join; [apply clean_one; eapply peek_eqb_not_nul; eauto |].
    replace (p + S (List.length str))%nat
      with (S p + List.length str)%nat by lia.
    now apply IH.
Qed.

Lemma litstr_clean (str : string) (p q : nat) :
  c_string str = true ->
  jsonw_litstr buf str (Some p) = Some q -> clean buf p q.
Proof.
  intros Hc. unfold jsonw_litstr.
  destruct (strncmp_eq buf p (bytes str)) eqn:He; [| discriminate].
  intros H. inversion H; subst q. rewrite <- bytes_length.
  apply strncmp_eq_clean; [now apply c_string_bytes | exact He].
Qed.

Lemma DIGIT_PLUS_clean {A} (step : A -> Z -> A) (acc acc' : A)
  (p q : nat) :
  DIGIT_PLUS buf step acc p = Some (acc', q) ->
  clean buf p q /\ (p < q)%nat.
Proof.
  intros H. pose proof (DIGIT_PLUS_progress buf step acc acc' p q H)
    as [Hlt _].
  split; [| lia].
  unfold DIGIT_PLUS in H. destruct (isdigit (peek buf p)) eqn:Hd;
    cbn [negb] in H; [| discriminate].
  destruct (digits_loop_spec buf step (fuel_at buf p) acc p)
    as (a & r & Hr & Hle & Hstop & Hall); [unfold fuel_at; lia |].
  rewrite Hr in H. cbn [unwrap] in H. inversion H; subst.
  intros i Hi. apply isdigit_not_nul. now apply Hall.
Qed.

Lemma number_clean (num : float) (p q : nat) :
  fst (jsonw_number buf num (Some p)) = Some q -> clean buf p q.
Proof.
  intros H. unfold jsonw_number in H.
  repeat
    match goal with
    | H : context [if ?b then _ else _] |- _ => destruct b eqn:?
    | H : context [match ?x with Some _ => _ | None => _ end] |- _ =>
        destruct x as [[? ?] |] eqn:?
    | H : DIGIT_PLUS _ _ _ _ = Some _ |- _ =>
        apply DIGIT_PLUS_clean in H; destruct H
    | H : Some _ = Some _ |- _ => inversion H; subst; clear H
    | H : None = Some _ |- _ => discriminate H
    | H : fst (_, _) = _ |- _ => cbn [fst] in H
    | H : context [let '(_, _) := (_, _) in _] |- _ => cbv beta iota in H
    | H : (_ || _)%bool = true |- _ => apply orb_true_iff in H; destruct H
    | H : Ascii.eqb (peek buf _) _ = true |- _ =>
        apply peek_eqb_not_nul in H; [| discriminate]
    end;
    intros i Hi;
    repeat
      match goal with
      | Hx : peek buf ?x <> NUL |- peek buf ?i <> NUL =>
          destruct (Nat.eq_dec i x) as [-> | ?]; [exact Hx | clear Hx]
      | Hr : clean buf ?a ?b |- peek buf ?i <> NUL =>
          destruct (Nat.lt_ge_cases i a);
          [clear Hr
          | destruct (Nat.lt_ge_cases i b); [apply Hr; lia | clear Hr]]
      end; lia.
Qed.

Lemma hex_loop_clean (i : nat) (cp : Z) (p : nat) (cp' : Z) (q : nat) :
  hex_loop buf i cp p = Some (cp', q) -> clean buf p q.
Proof.
  revert cp p. induction i as [| i IH]; intros cp p H; cbn [hex_loop] in H.
  - inversion H; subst. apply clean_empty.
  - destruct (isdigit (peek buf p)) eqn:Hd.
    + eapply clean_join; [apply clean_one, isdigit_not_nul, Hd |].
      eapply IH; eauto.
    + destruct (isxdigit (peek buf p)) eqn:Hx; [| discriminate].
      eapply clean_join; [apply clean_one, isxdigit_not_nul, Hx |].
      eapply IH; eauto.
Qed.

Lemma character_clean (chr : ascii) (p q : nat) :
  fst (jsonw_character buf chr (Some p)) = Some q -> clean buf p q.
Proof.
  intros H. unfold jsonw_character in H. cbv zeta in H.
  destruct (Ascii.eqb (peek buf p) BACKSLASH) eqn:Hb.
  - apply peek_eqb_not_nul in Hb; [| discriminate].
    destruct (peek buf (S p) =? NUL)%char eqn:Hn.
    { apply Ascii.eqb_eq in Hn. rewrite Hn in H. cbn in H. discriminate. }
    apply eqb_false_neq in Hn.
    assert (H2 : clean buf p (S (S p))).
    { eapply clean_join; apply clean_one; assumption. }
    destruct (hex_loop buf 4 0 (S (S p))) as [[cp r] |] eqn:Hh;
      [apply hex_loop_clean in Hh |];
      repeat break_if; cbn [fst snd] in H; try discriminate;
      inversion H; subst;
      first [exact H2 | eapply clean_join; [exact H2 | exact Hh]].
  - destruct ((32 <=? code (peek buf p))
              && negb (Ascii.eqb (peek buf p) DQUOTE))%bool eqn:Hc;
      cbn [fst] in H; [| discriminate].
    inversion H; subst. apply andb_prop in Hc as [Hc _].
    apply Z.leb_le in Hc. apply clean_one.
    intros Hn. rewrite Hn in Hc. vm_compute in Hc. contradiction.
Qed.

Lemma decodes_clean (p : nat) (cs : list ascii) (q : nat) :
  decodes buf p cs q -> clean buf p q.
Proof.
  induction 1 as [p | p p' c cs q Hc Hd IH]; [apply clean_empty |].
  eapply clean_join; [| exact IH].
  apply (character_clean NUL). now rewrite Hc.
Qed.

Lemma string_clean (len : Z) (p q : nat) :
  fst (jsonw_string buf len (Some p)) = Some q -> clean buf p q.
Proof.
  unfold jsonw_string, jsonw_beginstr, jsonw_endstr. cbn [jsonw_litchr].
  destruct (Ascii.eqb (peek buf p) DQUOTE) eqn:Hq.
  2: { cbn. discriminate. }
  destruct (string_loop_total buf (Some (S p))) as [[j m] Hl].
  rewrite Hl. cbn [unwrap].
  apply string_loop_run in Hl as (cs & r & -> & Hd & -> & Hstop).
  cbn [jsonw_litchr].
  destruct (Ascii.eqb (peek buf r) DQUOTE) eqn:Hq'; cbn [fst];
    [| discriminate].
  intros H. inversion H; subst.
  eapply clean_join;
    [apply clean_one; eapply peek_eqb_not_nul; eauto; discriminate |].
  eapply clean_join; [eapply decodes_clean; eauto |].
  apply clean_one. eapply peek_eqb_not_nul; eauto. discriminate.
Qed.

Lemma name_clean (json : cursor) (q : nat) :
  jsonw_name buf json = Some q -> clean_from buf json q.
Proof.
  unfold jsonw_name, jsonw_namesep. intros H.
  apply token_clean in H as (j & Hs & Hc); [| discriminate].
  destruct json as [p |]; [| cbn in Hs; discriminate].
  exists p. split; [reflexivity |].
  eapply clean_join; [eapply string_clean; eauto | exact Hc].
Qed.

Lemma primitive_clean (type : jsonw_ty) (p q : nat) :
  fst (jsonw_primitive buf type (Some p)) = Some q -> clean buf p q.
Proof.
  unfold jsonw_primitive, jsonw_null.
  destruct (jsonw_litstr buf "null" (Some p)) as [j |] eqn:Hn; cbn [fst].
  { intros H. inversion H; subst.
    eapply litstr_clean; [| exact Hn]. reflexivity. }
  destruct (fst (jsonw_boolean buf false (Some p))) as [j |] eqn:Hb;
    cbn [fst].
  { intros H. inversion H; subst. unfold jsonw_boolean in Hb.
    destruct (jsonw_litstr buf "true" (Some p)) as [j' |] eqn:Ht;
      cbn [fst] in Hb.
    - inversion Hb; subst. eapply litstr_clean; [| exact Ht]. reflexivity.
    - destruct (jsonw_litstr buf "false" (Some p)) as [j' |] eqn:Hf;
        cbn [fst] in Hb; [| discriminate].
      inversion Hb; subst. eapply litstr_clean; [| exact Hf].
      reflexivity. }
  destruct (fst (jsonw_number buf (double_of_int 0) (Some p))) as [j |]
    eqn:Hnum; cbn [fst].
  { intros H. inversion H; subst. now apply number_clean in Hnum. }
  destruct (fst (jsonw_string buf 0 (Some p))) as [j |] eqn:Hs; cbn [fst].
  { intros H. inversion H; subst. now apply string_clean in Hs. }
  discriminate.
Qed.

Lemma nest_clean_all (n : nat) : nest_clean buf n.
Proof.
  induction n as [| n (IHv & IHs & IHa & IHal & IHo & IHol)];
    [repeat split; intros; discriminate |].
  unfold nest_clean. repeat apply conj.
  - intros type json q t. cbn [jsonw_value_f].
    destruct json as [p |]; [| discriminate].
    destruct (jsonw_primitive buf type (Some p)) as [[j |] type'] eqn:Hp.
    + intros H. inversion H; subst. exists p. split; [reflexivity |].
      apply (primitive_clean type). now rewrite Hp.
    + apply IHs.
  - intros type json q t. cbn [jsonw_structured_f].
    destruct (jsonw_array_f buf n 0 json) as [[[j |] l] |] eqn:Ha;
      cbn [fbind]; try discriminate.
    + intros H. inversion H; subst. eapply IHa; eauto.
    + destruct (jsonw_object_f buf n 0 json) as [[[j |] l'] |] eqn:Ho;
        cbn [fbind]; try discriminate.
      intros H. inversion H; subst. eapply IHo; eauto.
  - intros len json q l. cbn [jsonw_array_f].
    destruct (jsonw_beginarr buf json) as [p1 |] eqn:Hb.
    + apply token_clean in Hb; [| discriminate].
      destruct (jsonw_endarr buf (Some p1)) as [j |] eqn:He.
      * intros H. inversion H; subst.
        apply token_clean in He; [| discriminate].
        eapply clean_from_join; eauto.
      * intros H. apply IHal in H. eapply clean_from_join; eauto.
    + cbn [jsonw_endarr WSCHRWS jsonw_ws jsonw_litchr].
      intros H. apply IHal in H as (p & Hp & _). discriminate.
  - intros len json length q l. cbn [array_loop].
    destruct (jsonw_value_f buf n JSONW_NULL json) as [[[j |] t] |] eqn:Hv;
      cbn [fbind]; try discriminate.
    apply IHv in Hv.
    destruct (jsonw_endarr buf (Some j)) as [q' |] eqn:He.
    + intros H. inversion H; subst.
      apply token_clean in He; [| discriminate].
      eapply clean_from_join; eauto.
    + intros H. apply IHal in H as (k & Hk & Hc).
      apply token_clean in Hk; [| discriminate].
      eapply clean_from_join; [exact Hv |].
      eapply clean_from_join; [exact Hk |].
      exists k. auto.
  - intros len json q l. cbn [jsonw_object_f].
    destruct (jsonw_beginobj buf json) as [p1 |] eqn:Hb.
    + apply token_clean in Hb; [| discriminate].
      destruct (jsonw_endobj buf (Some p1)) as [j |] eqn:He.
      * intros H. inversion H; subst.
        apply token_clean in He; [| discriminate].
        eapply clean_from_join; eauto.
      * intros H. apply IHol in H. eapply clean_from_join; eauto.
    + cbn [jsonw_endobj WSCHRWS jsonw_ws jsonw_litchr].
      intros H. apply IHol in H as (p & Hp & _). discriminate.
  - intros len json length q l. cbn [object_loop].
    destruct (jsonw_value_f buf n JSONW_NULL (jsonw_name buf json))
      as [[[j |] t] |] eqn:Hv; cbn [fbind]; try discriminate.
    apply IHv in Hv. destruct Hv as (v & Hname & Hc).
    apply name_clean in Hname.
    assert (Hj : clean_from buf json j).
    { eapply clean_from_join; [exact Hname |]. exists v. auto. }
    destruct (jsonw_endobj buf (Some j)) as [q' |] eqn:He.
    + intros H. inversion H; subst.
      apply token_clean in He; [| discriminate].
      eapply clean_from_join; eauto.
    + intros H. apply IHol in H as (k & Hk & Hck).
      apply token_clean in Hk; [| discriminate].
      eapply clean_from_join; [exact Hj |].
      eapply clean_from_join; [exact Hk |].
      exists k. auto.
Qed.

Lemma value_clean (type : jsonw_ty) (json : cursor) (q : nat) :
  fst (jsonw_value buf type json) = Some q -> clean_from buf json q.
Proof.
  intros H. pose proof (jsonw_value_total buf type json) as Ht.
  destruct (jsonw_value buf type json) as [j t]. cbn [fst] in H. subst j.
  destruct (nest_clean_all (nest_fuel buf json)) as (Hv & _).
  eapply Hv; eauto.
Qed.

Lemma text_clean (type : jsonw_ty) (p q : nat) :
  fst (jsonw_text buf type (Some p)) = Some q -> clean buf p q.
Proof.
  unfold jsonw_text.
  destruct (jsonw_value buf type (jsonw_ws buf (Some p))) as [j ty] eqn:Hv.
  cbn [fst]. destruct j as [j |]; [| discriminate].
  cbn [jsonw_ws]. intros H. inversion H; subst q; clear H.
  assert (Hj : fst (jsonw_value buf type (jsonw_ws buf (Some p))) = Some j)
    by now rewrite Hv.
  apply value_clean in Hj as (p1 & Hp1 & Hc).
  cbn [jsonw_ws] in Hp1. inversion Hp1; subst p1.
  eapply clean_join; [apply ws_clean |].
  eapply clean_join; [exact Hc | apply ws_clean].
Qed.

(** ** The shape of a number *)

Lemma DIGIT_PLUS_run {A} (step : A -> Z -> A) (acc acc' : A) (p q : nat) :
  DIGIT_PLUS buf step acc p = Some (acc', q) -> digit_run buf p q.
Proof.
  intros H.
  pose proof (DIGIT_PLUS_progress buf step acc acc' p q H) as [Hlt _].
  unfold DIGIT_PLUS in H. destruct (isdigit (peek buf p)) eqn:Hd;
    cbn [negb] in H; [| discriminate].
  destruct (digits_loop_spec buf step (fuel_at buf p) acc p)
    as (a & r & Hr & Hle & Hstop & Hall); [unfold fuel_at; lia |].
  rewrite Hr in H. cbn [unwrap] in H. inversion H; subst.
  split; [lia |]. split; [exact Hall | exact Hstop].
Qed.

Lemma run_DIGIT_PLUS {A} (step : A -> Z -> A) (acc : A) (p q : nat) :
  digit_run buf p q ->
  exists acc', DIGIT_PLUS buf step acc p = Some (acc', q).
Proof.
  intros (Hlt & Hall & Hstop). unfold DIGIT_PLUS.
  rewrite Hall by lia. cbn [negb].
  destruct (digits_loop_spec buf step (fuel_at buf p) acc p)
    as (a & r & Hr & Hle & Hstop' & Hall'); [unfold fuel_at; lia |].
  rewrite Hr. cbn [unwrap]. exists a. do 2 f_equal.
  destruct (Nat.lt_trichotomy r q) as [H | [H | H]]; [| exact H |].
  - rewrite Hall in Hstop' by lia. discriminate.
  - rewrite Hall' in Hstop by lia. discriminate.
Qed.

Lemma DIGIT_PLUS_none {A} (step : A -> Z -> A) (acc : A) (p : nat) :
  isdigit (peek buf p) = false -> DIGIT_PLUS buf step acc p = None.
Proof. intros H. unfold DIGIT_PLUS. now rewrite H. Qed.

Lemma minus_part_eqb (p s : nat) :
  minus_part buf p s ->
  (if Ascii.eqb (peek buf p) "-" then (-1, S p) else (1, p))
  = ((if Ascii.eqb (peek buf p) "-" then -1 else 1), s).
Proof.
  intros [[H ->] | [H ->]].
  - rewrite H. reflexivity.
  - apply Ascii.eqb_neq in H. rewrite H. reflexivity.
Qed.

Lemma int_part_eqb (x : float) (s j : nat) :
  int_part buf s j ->
  exists y,
    (if Ascii.eqb (peek buf s) "0" then Some (x, S s)
     else DIGIT_PLUS buf step_double x s) = Some (y, j).
Proof.
  intros [[H ->] | [H Hrun]].
  - rewrite H. now exists x.
  - apply Ascii.eqb_neq in H. rewrite H.
    now apply run_DIGIT_PLUS.
Qed.

Lemma exp_mark_eqb (c : ascii) :
  exp_mark c -> (Ascii.eqb c "e" || Ascii.eqb c "E")%bool = true.
Proof. intros [-> | ->]; reflexivity. Qed.

Lemma not_exp_mark_eqb (c : ascii) :
  ~ exp_mark c -> (Ascii.eqb c "e" || Ascii.eqb c "E")%bool = false.
Proof.
  intros H. apply orb_false_iff. split; apply Ascii.eqb_neq; intros ->;
    apply H; [left | right]; reflexivity.
Qed.

Lemma exp_sign_eqb (e t : nat) :
  exp_sign buf e t ->
  exists z,
    (if Ascii.eqb (peek buf e) "-" then (-1, S e)
     else if Ascii.eqb (peek buf e) "+" then (1, S e) else (1, e))
    = (z, t).
Proof.
  intros [[[H | H] ->] | (H1 & H2 & ->)].
  - rewrite H. now exists (-1).
  - rewrite H. now exists 1.
  - apply Ascii.eqb_neq in H1, H2. rewrite H1, H2. now exists 1.
Qed.

Local Abbreviation after_minus p :=
  (if Ascii.eqb (peek buf p%nat) "-" then S p%nat else p%nat).

Local Abbreviation int_stage x s :=
  (if Ascii.eqb (peek buf s%nat) "0" then Some (x, S s%nat)
   else DIGIT_PLUS buf step_double x s%nat).

Local Abbreviation frac_stage x j :=
  (if Ascii.eqb (peek buf j%nat) "." then
     match DIGIT_PLUS buf step_double x (S j%nat) with
     | None => None
     | Some (significand, p) =>
         Some (significand, ushort (Z.of_nat p - Z.of_nat (S j%nat)), p)
     end
   else Some (x, 0, j%nat)).

Local Abbreviation exp_stage k :=
  (if orb (Ascii.eqb (peek buf k%nat) "e") (Ascii.eqb (peek buf k%nat) "E")
   then
     let '(esign, p) :=
       if Ascii.eqb (peek buf (S k%nat)) "-" then (-1, S (S k%nat))
       else if Ascii.eqb (peek buf (S k%nat)) "+" then (1, S (S k%nat))
       else (1, S k%nat) in
     match DIGIT_PLUS buf step_ushort 0 p with
     | None => None
     | Some (exponent, p) => Some (ushort (exponent * esign), p)
     end
   else Some (0, k%nat)).

(** [jsonw_number] after its sign: three stages, each of which may fail,
    then the scaling, which does not. *)
Lemma jsonw_number_stages (num : float) (p : nat) :
  exists finish : float -> Z -> Z -> float,
    jsonw_number buf num (Some p)
    = match int_stage (double_of_int 0) (after_minus p) with
      | None => (None, num)
      | Some (x, j) =>
          match frac_stage x j with
          | None => (None, num)
          | Some (x, shift, k) =>
              match exp_stage k with
              | None => (None, num)
              | Some (exponent, q) => (Some q, finish x shift exponent)
              end
          end
      end.
Proof.
  unfold jsonw_number.
  destruct (Ascii.eqb (peek buf p) "-"); eexists (fun x shift exponent => _);
    cbv zeta; reflexivity.
Qed.

Lemma minus_part_after (p s : nat) :
  minus_part buf p s <-> s = after_minus p.
Proof.
  unfold minus_part. destruct (Ascii.eqb (peek buf p) "-") eqn:H.
  - apply Ascii.eqb_eq in H. split; [intros [[_ ->] | [Hn _]] | intros ->];
      [reflexivity | contradiction | left; auto].
  - apply Ascii.eqb_neq in H. split; [intros [[Hn _] | [_ ->]] | intros ->];
      [contradiction | reflexivity | right; auto].
Qed.

Lemma int_stage_inv (x y : float) (s j : nat) :
  int_stage x s = Some (y, j) -> int_part buf s j.
Proof.
  destruct (Ascii.eqb (peek buf s) "0") eqn:H0; intros H.
  - left. apply Ascii.eqb_eq in H0. inversion H. auto.
  - right. apply Ascii.eqb_neq in H0. split; [exact H0 |].
    eapply DIGIT_PLUS_run; exact H.
Qed.

Lemma frac_stage_inv (x y : float) (shift : Z) (j k : nat) :
  frac_stage x j = Some (y, shift, k) -> frac_part buf j k.
Proof.
  destruct (Ascii.eqb (peek buf j) ".") eqn:Hd; intros H.
  - left. apply Ascii.eqb_eq in Hd. split; [exact Hd |].
    destruct (DIGIT_PLUS buf step_double x (S j)) as [[y' k'] |] eqn:Hr;
      [| discriminate H].
    inversion H; subst. eapply DIGIT_PLUS_run; exact Hr.
  - right. apply Ascii.eqb_neq in Hd. injection H as _ _ <-. auto.
Qed.

Lemma frac_stage_run (x : float) (j k : nat) :
  frac_part buf j k -> exists y shift, frac_stage x j = Some (y, shift, k).
Proof.
  intros [[Hd Hrun] | [Hd ->]].
  - rewrite Hd. change (Ascii.eqb "." ".") with true. cbv iota.
    destruct (run_DIGIT_PLUS step_double x (S j) k Hrun) as [y Hy].
    rewrite Hy. eauto.
  - apply Ascii.eqb_neq in Hd. rewrite Hd. eauto.
Qed.

Lemma frac_stage_none (x : float) (j : nat) :
  peek buf j = "."%char -> isdigit (peek buf (S j)) = false ->
  frac_stage x j = None.
Proof.
  intros Hd Hn. rewrite Hd. change (Ascii.eqb "." ".") with true. cbv iota.
  now rewrite DIGIT_PLUS_none.
Qed.

Lemma exp_stage_inv (exponent : Z) (k q : nat) :
  exp_stage k = Some (exponent, q) -> exp_part buf k q.
Proof.
  destruct (Ascii.eqb (peek buf k) "e" || Ascii.eqb (peek buf k) "E")%bool
    eqn:He; intros H.
  - left. split.
    { apply orb_true_iff in He as [He | He]; apply Ascii.eqb_eq in He;
        [left | right]; exact He. }
    destruct (Ascii.eqb (peek buf (S k)) "-") eqn:Hm.
    { apply Ascii.eqb_eq in Hm. cbv beta iota in H.
      destruct (DIGIT_PLUS buf step_ushort 0 (S (S k))) as [[e q'] |] eqn:Hr;
        [| discriminate H].
      inversion H; subst. exists (S (S k)). split.
      - left. auto.
      - eapply DIGIT_PLUS_run; exact Hr. }
    destruct (Ascii.eqb (peek buf (S k)) "+") eqn:Hp.
    { apply Ascii.eqb_eq in Hp. cbv beta iota in H.
      destruct (DIGIT_PLUS buf step_ushort 0 (S (S k))) as [[e q'] |] eqn:Hr;
        [| discriminate H].
      inversion H; subst. exists (S (S k)). split.
      - left. auto.
      - eapply DIGIT_PLUS_run; exact Hr. }
    apply Ascii.eqb_neq in Hm, Hp. cbv beta iota in H.
    destruct (DIGIT_PLUS buf step_ushort 0 (S k)) as [[e q'] |] eqn:Hr;
      [| discriminate H].
    inversion H; subst. exists (S k). split.
    + right. auto.
    + eapply DIGIT_PLUS_run; exact Hr.
  - right. injection H as _ <-. split; [| reflexivity].
    intros Hm. apply exp_mark_eqb in Hm. congruence.
Qed.

Lemma exp_stage_run (k q : nat) :
  exp_part buf k q -> exists exponent, exp_stage k = Some (exponent, q).
Proof.
  intros [[Hm (t & Hs & Hrun)] | [Hm ->]].
  - rewrite (exp_mark_eqb _ Hm).
    destruct (exp_sign_eqb (S k) t Hs) as [z Hz]. rewrite Hz.
    destruct (run_DIGIT_PLUS step_ushort 0 t q Hrun) as [e He].
    rewrite He. eauto.
  - rewrite (not_exp_mark_eqb _ Hm). eauto.
Qed.

Lemma exp_stage_none (k t : nat) :
  exp_mark (peek buf k) -> exp_sign buf (S k) t ->
  isdigit (peek buf t) = false ->
  exp_stage k = None.
Proof.
  intros Hm Hs Hn. rewrite (exp_mark_eqb _ Hm).
  destruct (exp_sign_eqb (S k) t Hs) as [z Hz]. rewrite Hz.
  now rewrite DIGIT_PLUS_none.
Qed.

Lemma number_shape_of_success (num : float) (p q : nat) :
  fst (jsonw_number buf num (Some p)) = Some q -> number_shape buf p q.
Proof.
  destruct (jsonw_number_stages num p) as [finish ->].
  destruct (int_stage (double_of_int 0) (after_minus p))
    as [[x j] |] eqn:Hi; [| discriminate].
  destruct (frac_stage x j) as [[[y shift] k] |] eqn:Hf; [| discriminate].
  destruct (exp_stage k) as [[exponent q'] |] eqn:He; [| discriminate].
  cbn [fst]. intros H. inversion H; subst q'.
  exists (after_minus p), j, k. split; [now apply minus_part_after |].
  split; [eapply int_stage_inv; exact Hi |].
  split; [eapply frac_stage_inv; exact Hf | eapply exp_stage_inv; exact He].
Qed.

Lemma number_of_shape (num : float) (p q : nat) :
  number_shape buf p q -> fst (jsonw_number buf num (Some p)) = Some q.
Proof.
  intros (s & j & k & Hm & Hi & Hf & He).
  apply minus_part_after in Hm. subst s.
  destruct (jsonw_number_stages num p) as [finish ->].
  destruct (int_part_eqb (double_of_int 0) _ j Hi) as [x ->].
  destruct (frac_stage_run x j k Hf) as (y & shift & ->).
  destruct (exp_stage_run k q He) as (exponent & ->).
  reflexivity.
Qed.

Lemma number_no_digit (num : float) (p s : nat) :
  minus_part buf p s -> isdigit (peek buf s) = false ->
  jsonw_number buf num (Some p) = (None, num).
Proof.
  intros Hm Hn. apply minus_part_after in Hm.
  destruct (jsonw_number_stages num p) as [finish ->]. rewrite <- Hm.
  destruct (Ascii.eqb (peek buf s) "0") eqn:H0.
  - apply Ascii.eqb_eq in H0. rewrite H0 in Hn. discriminate.
  - now rewrite DIGIT_PLUS_none.
Qed.

Lemma number_no_fraction (num : float) (p s j : nat) :
  minus_part buf p s -> int_part buf s j ->
  peek buf j = "."%char -> isdigit (peek buf (S j)) = false ->
  jsonw_number buf num (Some p) = (None, num).
Proof.
  intros Hm Hi Hd Hn. apply minus_part_after in Hm. subst s.
  destruct (jsonw_number_stages num p) as [finish ->].
  destruct (int_part_eqb (double_of_int 0) _ j Hi) as [x ->].
  now rewrite frac_stage_none.
Qed.

Lemma number_no_exponent (num : float) (p s j k t : nat) :
  minus_part buf p s -> int_part buf s j -> frac_part buf j k ->
  exp_mark (peek buf k) -> exp_sign buf (S k) t ->
  isdigit (peek buf t) = false ->
  jsonw_number buf num (Some p) = (None, num).
Proof.
  intros Hm Hi Hf He Hs Hn. apply minus_part_after in Hm. subst s.
  destruct (jsonw_number_stages num p) as [finish ->].
  destruct (int_part_eqb (double_of_int 0) _ j Hi) as [x ->].
  destruct (frac_stage_run x j k Hf) as (y & shift & ->).
  now rewrite (exp_stage_none k t).
Qed.

Lemma number_first_last (num : float) (p q : nat) :
  fst (jsonw_number buf num (Some p)) = Some q ->
  (isdigit (peek buf p) = true \/
   (peek buf p = "-"%char /\ isdigit (peek buf (S p)) = true)) /\
  isdigit (peek buf (q - 1)) = true.
Proof.
  intros H. unfold jsonw_number in H.
  repeat
    match goal with
    | H : context [if ?b then _ else _] |- _ => destruct b eqn:?
    | H : context [match ?x with Some _ => _ | None => _ end] |- _ =>
        destruct x as [[? ?] |] eqn:?
    | H : DIGIT_PLUS _ _ _ _ = Some _ |- _ =>
        apply DIGIT_PLUS_digits in H; destruct H
    | H : Some _ = Some _ |- _ => inversion H; subst; clear H
    | H : None = Some _ |- _ => discriminate H
    | H : fst (_, _) = _ |- _ => cbn [fst] in H
    | H : context [let '(_, _) := (_, _) in _] |- _ => cbv beta iota in H
    | H : Ascii.eqb (peek buf _) "0" = true |- _ =>
        apply Ascii.eqb_eq in H
    | H : Ascii.eqb (peek buf _) "-" = true |- _ =>
        apply Ascii.eqb_eq in H
    end;
    rewrite ?Nat.sub_succ, ?Nat.sub_0_r;
    (split;
     [ first
         [ left; assumption
         | left; match goal with
                 | H : peek buf ?x = "0"%char |- isdigit (peek buf ?x) = _ =>
                     rewrite H; reflexivity
                 end
         | right; split; [assumption |]; first
             [ assumption
             | match goal with
               | H : peek buf ?x = "0"%char |- isdigit (peek buf ?x) = _ =>
                   rewrite H; reflexivity
               end ] ]
     | first
         [ assumption
         | match goal with
           | H : peek buf ?x = "0"%char |- isdigit (peek buf ?x) = _ =>
               rewrite H; reflexivity
           end ] ]).
Qed.

End MoreFacts.

(** ** Termination *)

(** X1. The recursive descent ends on every text: with four units of fuel
    for every byte left and eight more, or with any larger amount,
    [jsonw_value], [jsonw_array] and [jsonw_object] return the result of
    the entry point; the depth of the calls and the iterations of the
    loops are bounded by the bytes left. *)
Theorem recursion_terminates (buf : list ascii) (json : cursor) (n : nat) :
  (nest_fuel buf json <= n)%nat ->
  (forall type,
      jsonw_value_f buf n type json = Done (jsonw_value buf type json)) /\
  (forall len,
      jsonw_array_f buf n len json = Done (jsonw_array buf len json)) /\
  (forall len,
      jsonw_object_f buf n len json = Done (jsonw_object buf len json)).
Proof.
  intros Hn. repeat apply conj; intros.
  - now apply jsonw_value_any_fuel.
  - now apply jsonw_array_any_fuel.
  - now apply jsonw_object_any_fuel.
Qed.

Lemma recursion_terminates_witness :
  jsonw_value_f (bytes "[[[1]]]") 100 JSONW_NULL (Some 0%nat)
  = Done (Some 7%nat, JSONW_ARRAY).
Proof.
  apply (recursion_terminates (bytes "[[[1]]]") (Some 0%nat) 100).
  vm_compute. lia.
Defined.

(** ** Failure and progress *)

(** X2. Failure propagates: given [NULL], every parser and every
    navigation function returns [NULL], leaving its out-parameter as it
    was; [jsonw_unescape] returns [NULL] after storing the terminator at
    the start of the buffer. *)
Theorem failure_propagates (buf : list ascii) :
  (forall chr, jsonw_litchr buf chr None = None) /\
  (forall str, jsonw_litstr buf str None = None) /\
  jsonw_ws buf None = None /\
  (forall chr, WSCHRWS buf chr None = None) /\
  jsonw_null buf None = None /\
  (forall b, jsonw_boolean buf b None = (None, b)) /\
  (forall num, jsonw_number buf num None = (None, num)) /\
  (forall chr, jsonw_character buf chr None = (None, chr)) /\
  (forall len, jsonw_string buf len None = (None, len)) /\
  jsonw_name buf None = None /\
  (forall type, jsonw_value buf type None = (None, type)) /\
  (forall len, jsonw_array buf len None = (None, len)) /\
  (forall len, jsonw_object buf len None = (None, len)) /\
  jsonw_element buf None = None /\
  jsonw_member buf None = None /\
  (forall type, jsonw_text buf type None = (None, type)) /\
  (forall idx, jsonw_index buf idx None = None) /\
  (forall name, jsonw_find buf name None = None) /\
  (forall name, jsonw_lookup buf name None = None) /\
  (forall out len,
      out <> [] ->
      jsonw_unescape buf out len None = Some (NUL :: skipn 1 out, None)).
Proof.
  assert (Hfind : forall name, jsonw_find buf name None = None).
  { intros name. unfold jsonw_find. cbn [cursor_fuel find_loop].
    destruct (jsonw_strcmp buf name (jsonw_beginstr buf None) =? 0);
      reflexivity. }
  repeat apply conj; try reflexivity.
  - intros idx. apply index_NULL.
  - exact Hfind.
  - intros name. unfold jsonw_lookup. now rewrite Hfind.
  - intros out len Hout. destruct out as [| c out]; [contradiction |].
    unfold jsonw_unescape. cbn [cursor_fuel unescape_loop].
    destruct (size_t (len - 1) =? 0); reflexivity.
Qed.

Lemma failure_propagates_witness :
  jsonw_unescape (bytes "x") (bytes "abc") 3 None
  = Some ([NUL; "b"; "c"]%char, None).
Proof.
  apply (failure_propagates (bytes "x")). discriminate.
Defined.

(** X3. A structural token and each production of the grammar, from
    [jsonw_null] to [jsonw_text], that returns a cursor was given a cursor
    inside the text and returns one that is after it and not beyond the
    terminator: nothing is matched at the terminator, no match is empty,
    and no cursor leaves the text.  So do [jsonw_litchr] for a character
    other than the terminator and [jsonw_litstr] for a string that is not
    empty.  [jsonw_ws] is the one parser whose match may be empty: the
    cursor it returns is at or after the one it was given, and within the
    text or at its terminator when that one was. *)
Theorem cursors_advance_in_text (buf : list ascii) (json : cursor) (q : nat) :
  (forall chr, chr <> NUL -> WSCHRWS buf chr json = Some q -> adv buf json q)
  /\
  (jsonw_null buf json = Some q -> adv buf json q) /\
  (forall b, fst (jsonw_boolean buf b json) = Some q -> adv buf json q) /\
  (forall num, fst (jsonw_number buf num json) = Some q -> adv buf json q) /\
  (forall chr,
      fst (jsonw_character buf chr json) = Some q -> adv buf json q) /\
  (forall len, fst (jsonw_string buf len json) = Some q -> adv buf json q) /\
  (jsonw_name buf json = Some q -> adv buf json q) /\
  (forall type, fst (jsonw_value buf type json) = Some q -> adv buf json q) /\
  (forall len, fst (jsonw_array buf len json) = Some q -> adv buf json q) /\
  (forall len, fst (jsonw_object buf len json) = Some q -> adv buf json q) /\
  (jsonw_element buf json = Some q -> adv buf json q) /\
  (jsonw_member buf json = Some q -> adv buf json q) /\
  (forall type, fst (jsonw_text buf type json) = Some q -> adv buf json q) /\
  (forall chr,
      chr <> NUL -> jsonw_litchr buf chr json = Some q -> adv buf json q) /\
  (forall str,
      c_string str = true -> str <> EmptyString ->
      jsonw_litstr buf str json = Some q -> adv buf json q) /\
  (jsonw_ws buf json = Some q ->
   exists p,
     json = Some p /\ (p <= q)%nat /\
     ((p <= List.length buf)%nat -> (q <= List.length buf)%nat)).
Proof.
  assert (Hadv : forall p, (p < q <= List.length buf)%nat ->
                           (p < List.length buf)%nat -> adv buf (Some p) q).
  { intros p H1 H2. exists p. auto. }
  repeat apply conj.
  - intros chr Hc H. now apply adv_token in H.
  - destruct json as [p |]; [| discriminate]. intros H.
    apply litstr_progress in H as [H1 H2]; auto; discriminate.
  - destruct json as [p |]; [| discriminate]. intros b H.
    apply boolean_progress in H as [H1 H2]. auto.
  - destruct json as [p |]; [| discriminate]. intros num H.
    apply number_progress in H as [H1 H2]. auto.
  - destruct json as [p |]; [| discriminate]. intros chr H.
    pose proof (character_in_text buf chr p q H).
    apply character_progress in H as [H1 H2]. apply Hadv; lia.
  - destruct json as [p |]; [| discriminate]. intros len H.
    apply string_progress in H as [H1 H2]. auto.
  - intros H. now apply adv_name in H.
  - intros type H. pose proof (value_ok buf type json) as Hok.
    unfold ok_result in Hok. now rewrite H in Hok.
  - intros len H. pose proof (array_ok buf len json) as Hok.
    unfold ok_result in Hok. now rewrite H in Hok.
  - intros len H. pose proof (object_ok buf len json) as [Hok _].
    unfold ok_result in Hok. now rewrite H in Hok.
  - apply element_progress.
  - apply member_progress.
  - intros type H. apply text_in_bounds in H as (p & -> & Hlt).
    apply Hadv; lia.
  - intros chr Hc H. apply litchr_inv in H as (p & -> & Hpeek & ->).
    assert (p < List.length buf)%nat
      by (apply peek_in_text; now rewrite Hpeek).
    apply Hadv; lia.
  - destruct json as [p |]; [| discriminate]. intros str Hc Hne H.
    apply litstr_progress in H as [H1 H2]; auto.
  - destruct json as [p |]; [| discriminate]. cbn [jsonw_ws].
    intros H. inversion H; subst q. exists p.
    pose proof (ws_at_spec buf p) as (Hle & _).
    pose proof (ws_at_bound buf p). split; [reflexivity | lia].
Qed.

Lemma cursors_advance_in_text_witness :
  adv (bytes " [1, 2] ") (Some 0%nat) 8.
Proof.
  apply (cursors_advance_in_text (bytes " [1, 2] ") (Some 0%nat) 8)
    with (type := JSONW_NULL).
  vm_compute. reflexivity.
Defined.

(** ** Arrays and objects as sequences *)

(** X4. [jsonw_array] accepts an opening bracket followed by a closing
    bracket, or by values separated by value separators and a closing
    bracket, and nothing else.  It stores nothing in the first case; in
    the second it stores the number of separators, that is one less than
    the number of values, reduced modulo the size of [size_t]. *)
Theorem array_accepts_sequences (buf : list ascii) (len : Z) (json : cursor)
  (q : nat) (l : Z) :
  jsonw_array buf len json = (Some q, l) <->
  exists p,
    jsonw_beginarr buf json = Some p /\
    ((jsonw_endarr buf (Some p) = Some q /\ l = len) \/
     (jsonw_endarr buf (Some p) = None /\
      exists n j,
        elements buf p n j /\ jsonw_endarr buf (Some j) = Some q /\
        l = Z.of_nat n mod 2 ^ 64)).
Proof.
  destruct json as [p0 |].
  2: { split; [discriminate | intros (p & H & _); discriminate]. }
  rewrite jsonw_array_eq.
  destruct (jsonw_beginarr buf (Some p0)) as [p |] eqn:Hb.
  2: { replace (4 * (List.length buf - p0) + 7)%nat
         with (S (S (4 * (List.length buf - p0) + 5)))%nat by lia.
       cbn [jsonw_endarr WSCHRWS jsonw_ws jsonw_litchr].
       rewrite array_loop_NULL. cbn [unwrap].
       split; [discriminate | intros (p & H & _); discriminate]. }
  assert (Hp : (p0 < p <= List.length buf)%nat)
    by (eapply WSCHRWS_progress; [| exact Hb]; discriminate).
  destruct (jsonw_endarr buf (Some p)) as [q' |] eqn:He.
  - split.
    + intros H. inversion H; subst. exists p. auto.
    + intros (p' & Hp' & [[Hq Hl] | [Hq _]]); inversion Hp'; subst p'.
      * rewrite He in Hq. inversion Hq; subst. reflexivity.
      * rewrite He in Hq. discriminate.
  - split.
    + intros H.
      destruct (array_loop buf (4 * (List.length buf - p0) + 7) len
                  (Some p) 0) as [[r l'] |] eqn:Hl; cbn [unwrap] in H;
        [| discriminate].
      inversion H; subst r l'.
      apply array_loop_inv in Hl as (p' & n & j & Hp' & Hel & Hend & ->).
      inversion Hp'; subst p'. exists p. split; [reflexivity |]. right.
      split; [exact He |]. exists n, j. repeat split; auto.
      rewrite count_up_mod by lia. reflexivity.
    + intros (p' & Hp' & [[Hq _] | [_ (n & j & Hel & Hend & ->)]]);
        inversion Hp'; subst p'; [rewrite He in Hq; discriminate |].
      rewrite (array_loop_elements buf p n j Hel _ len 0 q) by (auto; lia).
      cbn [unwrap]. rewrite count_up_mod by lia. reflexivity.
Qed.

Lemma array_accepts_sequences_witness :
  jsonw_array (bytes "[true, [], 7]") 0 (Some 0%nat) = (Some 13%nat, 2).
Proof.
  apply (array_accepts_sequences (bytes "[true, [], 7]")).
  exists 1%nat. split; [reflexivity |]. right. split; [reflexivity |].
  exists 2%nat, 12%nat. split; [| split; reflexivity].
  apply elements_more with (j := 5%nat) (k := 7%nat); [reflexivity .. |].
  apply elements_more with (j := 9%nat) (k := 11%nat); [reflexivity .. |].
  apply elements_last. reflexivity.
Defined.

(** X5. [jsonw_object] accepts an opening brace followed by a closing
    brace, or by members (a name, then a value) separated by value
    separators and a closing brace, and nothing else; it never stores a
    count. *)
Theorem object_accepts_sequences (buf : list ascii) (len : Z) (json : cursor)
  (q : nat) (l : Z) :
  jsonw_object buf len json = (Some q, l) <->
  l = len /\
  exists p,
    jsonw_beginobj buf json = Some p /\
    (jsonw_endobj buf (Some p) = Some q \/
     (jsonw_endobj buf (Some p) = None /\
      exists n j, members buf p n j /\ jsonw_endobj buf (Some j) = Some q)).
Proof.
  destruct json as [p0 |].
  2: { split; [discriminate | intros (_ & p & H & _); discriminate]. }
  rewrite jsonw_object_eq.
  destruct (jsonw_beginobj buf (Some p0)) as [p |] eqn:Hb.
  2: { replace (4 * (List.length buf - p0) + 7)%nat
         with (S (S (4 * (List.length buf - p0) + 5)))%nat by lia.
       cbn [jsonw_endobj WSCHRWS jsonw_ws jsonw_litchr].
       rewrite object_loop_NULL. cbn [unwrap].
       split; [discriminate | intros (_ & p & H & _); discriminate]. }
  assert (Hp : (p0 < p <= List.length buf)%nat)
    by (eapply WSCHRWS_progress; [| exact Hb]; discriminate).
  destruct (jsonw_endobj buf (Some p)) as [q' |] eqn:He.
  - split.
    + intros H. inversion H; subst. split; [reflexivity |].
      exists p. auto.
    + intros (-> & p' & Hp' & [Hq | [Hq _]]); inversion Hp'; subst p'.
      * rewrite He in Hq. inversion Hq; subst. reflexivity.
      * rewrite He in Hq. discriminate.
  - split.
    + intros H.
      destruct (object_loop buf (4 * (List.length buf - p0) + 7) len
                  (Some p) 0) as [[r l'] |] eqn:Hl; cbn [unwrap] in H;
        [| discriminate].
      inversion H; subst r l'.
      apply object_loop_inv in Hl as (p' & n & j & Hp' & Hel & Hend & ->).
      inversion Hp'; subst p'. split; [reflexivity |].
      exists p. split; [reflexivity |]. right.
      split; [exact He |]. exists n, j. auto.
    + intros (-> & p' & Hp' & [Hq | [_ (n & j & Hel & Hend)]]);
        inversion Hp'; subst p'; [rewrite He in Hq; discriminate |].
      rewrite (object_loop_members buf p n j Hel _ len 0 q) by (auto; lia).
      reflexivity.
Qed.

Lemma object_accepts_sequences_witness :
  jsonw_object (json_bytes "{'k' : null, 'm':{}}") 5 (Some 0%nat)
  = (Some 20%nat, 5).
Proof.
  apply (object_accepts_sequences (json_bytes "{'k' : null, 'm':{}}")).
  split; [reflexivity |].
  exists 1%nat. split; [reflexivity |]. right. split; [reflexivity |].
  exists 1%nat, 19%nat. split; [| reflexivity].
  apply members_more with (j := 11%nat) (k := 13%nat); [reflexivity .. |].
  apply members_last. reflexivity.
Defined.

(** ** Navigation in sequences *)

(** X6. [jsonw_index] composes by addition of the indices.  From the
    first of a sequence of elements it reaches, for every index up to the
    last, the start of the element of that index; and when a closing
    bracket follows the last element, one step more gives [NULL]: the
    index is not checked against the length, the walk fails by itself. *)
Theorem index_reaches_elements (buf : list ascii) :
  (forall m n json,
      jsonw_index buf (m + n) json
      = jsonw_index buf n (jsonw_index buf m json)) /\
  (forall p n j,
      elements buf p n j ->
      forall i, (i <= n)%nat ->
        exists k,
          jsonw_index buf i (Some p) = Some k /\
          elements buf k (n - i) j) /\
  (forall p n j q,
      elements buf p n j ->
      jsonw_endarr buf (Some j) = Some q ->
      forall i, (n < i)%nat -> jsonw_index buf i (Some p) = None).
Proof.
  repeat apply conj.
  - apply index_add.
  - apply index_elements.
  - intros p n j q Hel Hend i Hi.
    replace i with (S n + (i - S n))%nat by lia.
    rewrite index_add, (index_past_last buf p n j q Hel Hend).
    apply index_NULL.
Qed.

Lemma index_reaches_elements_witness :
  (exists k,
      jsonw_index (bytes "[10, 20, 30]") 2 (Some 1%nat) = Some k /\
      elements (bytes "[10, 20, 30]") k 0 11) /\
  jsonw_index (bytes "[10, 20, 30]") 5 (Some 1%nat) = None.
Proof.
  assert (Hel : elements (bytes "[10, 20, 30]") 1 2 11).
  { apply elements_more with (j := 3%nat) (k := 5%nat); [reflexivity .. |].
    apply elements_more with (j := 7%nat) (k := 9%nat); [reflexivity .. |].
    apply elements_last. reflexivity. }
  destruct (index_reaches_elements (bytes "[10, 20, 30]"))
    as (_ & Hreach & Hpast).
  split.
  - apply (Hreach 1%nat 2%nat 11%nat Hel 2%nat). lia.
  - apply (Hpast 1%nat 2%nat 11%nat 12%nat Hel); [reflexivity | lia].
Defined.

(** X7. [jsonw_find] returns the first cursor, among those that
    [jsonw_member] reaches one after the other from the cursor it is
    given, at which the name compares equal to the key: it returns a
    cursor exactly when some number of members can be skipped, the key
    matches there, and it matches at none of the members before. *)
Theorem find_is_first_match (buf : list ascii) (name : string)
  (json : cursor) (q : nat) :
  jsonw_find buf name json = Some q <->
  exists k,
    skip_members buf k json = Some q /\
    jsonw_strcmp buf name (jsonw_beginstr buf (Some q)) = 0 /\
    forall i, (i < k)%nat ->
      jsonw_strcmp buf name (jsonw_beginstr buf (skip_members buf i json))
      <> 0.
Proof.
  rewrite <- (find_loop_scan buf (cursor_fuel buf json) name json q)
    by fuel_enough.
  rewrite jsonw_find_total. split; intros H; [now rewrite H | ].
  now inversion H.
Qed.

Lemma find_is_first_match_witness :
  jsonw_find (json_bytes "{'x':1,'y':2,'y':3}") "y" (Some 1%nat)
  = Some 7%nat.
Proof.
  apply (find_is_first_match (json_bytes "{'x':1,'y':2,'y':3}")).
  exists 1%nat. split; [reflexivity |]. split; [reflexivity |].
  intros i Hi. assert (i = 0)%nat as -> by lia.
  vm_compute. discriminate.
Defined.

(** ** Literals *)

(** X8. The basic parsers match the text itself: [jsonw_litchr] returns a
    cursor exactly when the byte at the cursor is the character, and then
    the next offset; [jsonw_litstr] returns a cursor exactly when the
    string is a prefix of the text at the cursor, and then the offset after
    that prefix. *)
Theorem literals_match_prefix (buf : list ascii) (p q : nat) :
  (forall chr,
      chr <> NUL ->
      jsonw_litchr buf chr (Some p) = Some q <->
      nth_error buf p = Some chr /\ q = S p) /\
  (forall str,
      c_string str = true ->
      jsonw_litstr buf str (Some p) = Some q <->
      firstn (String.length str) (skipn p buf) = bytes str /\
      q = (p + String.length str)%nat).
Proof.
  split.
  - intros chr Hchr. split.
    + intros H. apply litchr_inv in H as (p' & Hp' & Hpeek & ->).
      inversion Hp'; subst p'. split; [| reflexivity].
      assert (Hin : (p < List.length buf)%nat)
        by (apply peek_in_text; congruence).
      unfold peek in Hpeek.
      rewrite (nth_error_nth' buf NUL Hin). now rewrite Hpeek.
    + intros [Hn ->]. unfold jsonw_litchr, peek.
      rewrite (nth_error_nth buf p NUL Hn). now rewrite Ascii.eqb_refl.
  - intros str Hc. now apply litstr_prefix.
Qed.

Lemma literals_match_prefix_witness :
  jsonw_litstr (bytes "[null]") "null" (Some 1%nat) = Some 5%nat.
Proof.
  apply (literals_match_prefix (bytes "[null]") 1 5); [reflexivity |].
  split; reflexivity.
Defined.

(** X9. [jsonw_boolean] returns a cursor exactly when the text at the
    cursor starts with the literal true, and then stores true and returns
    the offset after it, or starts with the literal false, and then stores
    false and returns the offset after it. *)
Theorem boolean_decodes_literals (buf : list ascii) (b : bool) (p q : nat)
  (v : bool) :
  jsonw_boolean buf b (Some p) = (Some q, v) <->
  (firstn 4 (skipn p buf) = bytes "true" /\ q = (p + 4)%nat /\ v = true) \/
  (firstn 5 (skipn p buf) = bytes "false" /\ q = (p + 5)%nat /\ v = false).
Proof.
  unfold jsonw_boolean.
  pose proof (litstr_prefix buf "true" p) as Ht.
  pose proof (litstr_prefix buf "false" p) as Hf.
  cbn [String.length] in Ht, Hf.
  destruct (jsonw_litstr buf "true" (Some p)) as [j |] eqn:Et.
  - destruct (proj1 (Ht j eq_refl) eq_refl) as [Hpre ->]. split.
    + intros H. inversion H; subst. left. auto.
    + intros [(_ & -> & ->) | (Hpre' & _)]; [reflexivity |].
      exfalso.
      assert (H45 : firstn 4 (skipn p buf)
                    = firstn 4 (firstn 5 (skipn p buf)))
        by (rewrite firstn_firstn; reflexivity).
      rewrite H45, Hpre' in Hpre. discriminate.
  - destruct (jsonw_litstr buf "false" (Some p)) as [j |] eqn:Ef.
    + destruct (proj1 (Hf j eq_refl) eq_refl) as [Hpre ->]. split.
      * intros H. inversion H; subst. right. auto.
      * intros [(Hpre' & _) | (_ & -> & ->)]; [| reflexivity].
        exfalso.
        assert (Hsome : None = Some (p + 4)%nat)
          by (apply (Ht (p + 4)%nat eq_refl); auto).
        discriminate.
    + split; [discriminate |].
      intros [(Hpre & _) | (Hpre & _)]; exfalso.
      * assert (Hsome : None = Some (p + 4)%nat)
          by (apply (Ht (p + 4)%nat eq_refl); auto).
        discriminate.
      * assert (Hsome : None = Some (p + 5)%nat)
          by (apply (Hf (p + 5)%nat eq_refl); auto).
        discriminate.
Qed.

Lemma boolean_decodes_literals_witness :
  jsonw_boolean (bytes "[false]") true (Some 1%nat) = (Some 6%nat, false).
Proof.
  apply (boolean_decodes_literals (bytes "[false]") true 1 6 false).
  right. repeat split; reflexivity.
Defined.

(** ** White space *)

(** X10. [jsonw_ws] returns the first offset at or after the cursor whose
    byte is not a space, a tab, a line feed or a carriage return, and no
    other; a structural token gives the same result whether or not white
    space was skipped before it, and leaves no white space to skip after
    it. *)
Theorem ws_stops_at_first_other_byte (buf : list ascii) :
  (forall p q,
      jsonw_ws buf (Some p) = Some q <->
      (p <= q)%nat /\
      (forall i, (p <= i < q)%nat -> is_wschr (peek buf i) = true) /\
      is_wschr (peek buf q) = false) /\
  (forall chr json,
      WSCHRWS buf chr (jsonw_ws buf json) = WSCHRWS buf chr json /\
      jsonw_ws buf (WSCHRWS buf chr json) = WSCHRWS buf chr json).
Proof.
  split.
  - intros p q. cbn [jsonw_ws]. split.
    + intros H. inversion H; subst q; clear H.
      pose proof (ws_at_spec buf p) as (Hle & Hstop & Hall).
      repeat split; auto.
      * intros i Hi. rewrite <- ws_cond_is_wschr. now apply Hall.
      * now rewrite <- ws_cond_is_wschr.
    + intros (Hle & Hall & Hstop). f_equal. now apply ws_at_unique.
  - intros chr json. unfold WSCHRWS. split.
    + destruct json as [p |]; [| reflexivity].
      cbn [jsonw_ws]. now rewrite ws_at_idem.
    + destruct (jsonw_litchr buf chr (jsonw_ws buf json)) as [j |];
        [| reflexivity].
      cbn [jsonw_ws]. now rewrite ws_at_idem.
Qed.

Lemma ws_stops_at_first_other_byte_witness :
  jsonw_ws (bytes "a   b") (Some 1%nat) = Some 4%nat.
Proof.
  apply (proj1 (ws_stops_at_first_other_byte (bytes "a   b"))).
  split; [lia |]. split; [| reflexivity].
  intros i Hi.
  assert (i = 1 \/ i = 2 \/ i = 3)%nat as [-> | [-> | ->]] by lia;
    reflexivity.
Defined.

(** ** Numbers *)

(** X11. [jsonw_number] accepts exactly an optional minus sign, then a
    zero or a run of digits, then optionally a point and a run of digits,
    then optionally an exponent mark, an optional sign and a run of
    digits, each run taken up to the first byte that is not a digit.  An
    accepted number therefore starts with a digit, or with a minus sign
    and a digit, and its last byte is a digit.  When no digit follows the
    optional minus sign, when a point follows the integer part and no
    digit follows the point, and when an exponent mark follows and no
    digit follows the mark and its optional sign, [jsonw_number] returns
    [NULL] and stores nothing: the number is not accepted up to the byte
    before the point or the mark. *)
Theorem number_digit_groups (buf : list ascii) (num : float) (p : nat) :
  (forall q,
      fst (jsonw_number buf num (Some p)) = Some q <-> number_shape buf p q)
  /\
  (forall q,
      fst (jsonw_number buf num (Some p)) = Some q ->
      (isdigit (peek buf p) = true \/
       (peek buf p = "-"%char /\ isdigit (peek buf (S p)) = true)) /\
      isdigit (peek buf (q - 1)) = true) /\
  (forall s,
      minus_part buf p s -> isdigit (peek buf s) = false ->
      jsonw_number buf num (Some p) = (None, num)) /\
  (forall s j,
      minus_part buf p s -> int_part buf s j ->
      peek buf j = "."%char -> isdigit (peek buf (S j)) = false ->
      jsonw_number buf num (Some p) = (None, num)) /\
  (forall s j k t,
      minus_part buf p s -> int_part buf s j -> frac_part buf j k ->
      exp_mark (peek buf k) -> exp_sign buf (S k) t ->
      isdigit (peek buf t) = false ->
      jsonw_number buf num (Some p) = (None, num)).
Proof.
  split.
  { intros q. split;
      [apply number_shape_of_success | apply number_of_shape]. }
  split; [intros q; apply number_first_last |].
  split; [intros s; apply number_no_digit |].
  split; [intros s j; apply number_no_fraction |].
  intros s j k t. apply number_no_exponent.
Qed.

Lemma number_digit_groups_witness :
  fst (jsonw_number (bytes "-1.5e3,") 0%float (Some 0%nat)) = Some 6%nat /\
  jsonw_number (bytes "1.x") 0%float (Some 0%nat) = (None, 0%float) /\
  jsonw_number (bytes "1e+") 0%float (Some 0%nat) = (None, 0%float).
Proof.
  assert (Hone : forall i : nat, (0 <= i < 1)%nat -> i = 0%nat) by lia.
  split; [| split].
  - apply (proj1 (number_digit_groups (bytes "-1.5e3,") 0%float 0)).
    exists 1%nat, 2%nat, 4%nat. split; [left; split; reflexivity |].
    split.
    { right. split; [discriminate |]. split; [lia |].
      split; [| reflexivity].
      intros i Hi. assert (i = 1)%nat as -> by lia. reflexivity. }
    split.
    { left. split; [reflexivity |]. split; [lia |].
      split; [| reflexivity].
      intros i Hi. assert (i = 3)%nat as -> by lia. reflexivity. }
    left. split; [left; reflexivity |]. exists 5%nat. split.
    { right. split; [discriminate |]. split; [discriminate | reflexivity]. }
    split; [lia |]. split; [| reflexivity].
    intros i Hi. assert (i = 5)%nat as -> by lia. reflexivity.
  - apply (proj1 (proj2 (proj2 (proj2
             (number_digit_groups (bytes "1.x") 0%float 0)))) 0%nat 1%nat).
    + right. split; [discriminate | reflexivity].
    + right. split; [discriminate |]. split; [lia |].
      split; [| reflexivity].
      intros i Hi. rewrite (Hone i Hi). reflexivity.
    + reflexivity.
    + reflexivity.
  - apply (proj2 (proj2 (proj2 (proj2
             (number_digit_groups (bytes "1e+") 0%float 0))))
             0%nat 1%nat 1%nat 3%nat).
    + right. split; [discriminate | reflexivity].
    + right. split; [discriminate |]. split; [lia |].
      split; [| reflexivity].
      intros i Hi. rewrite (Hone i Hi). reflexivity.
    + right. split; [discriminate | reflexivity].
    + left. reflexivity.
    + left. split; [right; reflexivity | reflexivity].
    + reflexivity.
Defined.

(** X12. After a leading zero the integer part is over: when the byte
    after the zero is neither a fraction point nor an exponent mark,
    [jsonw_number] returns the offset after the zero, whatever follows,
    and stores zero, negative zero when a minus sign comes first; a
    second digit is not part of the number. *)
Theorem number_leading_zero (buf : list ascii) (num : float) (p : nat) :
  (peek buf p = "0"%char ->
   peek buf (S p) <> "."%char -> peek buf (S p) <> "e"%char ->
   peek buf (S p) <> "E"%char ->
   jsonw_number buf num (Some p) = (Some (S p), 0%float)) /\
  (peek buf p = "-"%char -> peek buf (S p) = "0"%char ->
   peek buf (S (S p)) <> "."%char -> peek buf (S (S p)) <> "e"%char ->
   peek buf (S (S p)) <> "E"%char ->
   jsonw_number buf num (Some p) = (Some (S (S p)), (-0)%float)).
Proof.
  split.
  - intros H0 Hdot He HE. apply Ascii.eqb_neq in Hdot, He, HE.
    unfold jsonw_number. rewrite H0.
    change (Ascii.eqb "0" "-") with false.
    cbv beta iota. rewrite H0.
    change (Ascii.eqb "0" "0") with true. cbv beta iota.
    rewrite Hdot, He, HE. reflexivity.
  - intros Hm H0 Hdot He HE. apply Ascii.eqb_neq in Hdot, He, HE.
    unfold jsonw_number. rewrite Hm.
    change (Ascii.eqb "-" "-") with true.
    cbv beta iota. rewrite H0.
    change (Ascii.eqb "0" "0") with true. cbv beta iota.
    rewrite Hdot, He, HE. reflexivity.
Qed.

Lemma number_leading_zero_witness :
  jsonw_number (bytes "0123") 7%float (Some 0%nat) = (Some 1%nat, 0%float) /\
  jsonw_number (bytes "-0x") 7%float (Some 0%nat)
  = (Some 2%nat, (-0)%float).
Proof.
  split.
  - apply (proj1 (number_leading_zero (bytes "0123") 7%float 0));
      [reflexivity | | |]; vm_compute; discriminate.
  - apply (proj2 (number_leading_zero (bytes "-0x") 7%float 0));
      [reflexivity | reflexivity | | |]; vm_compute; discriminate.
Defined.

(** ** Characters and strings *)

(** X13. The escape made of a backslash, the letter u and four
    hexadecimal digits, in either case, decodes to the code point that the
    digits write in base 16 when it is at most 0x7F and to the zero byte
    above; the cursor moves six bytes.  When one of the four bytes is not
    a hexadecimal digit the character fails and the out-parameter is left
    alone. *)
Theorem unicode_escape_value (buf : list ascii) (chr : ascii) (p : nat) :
  peek buf p = BACKSLASH -> peek buf (1 + p) = "u"%char ->
  (forall a b c d,
      hexval (peek buf (2 + p)) = Some a ->
      hexval (peek buf (3 + p)) = Some b ->
      hexval (peek buf (4 + p)) = Some c ->
      hexval (peek buf (5 + p)) = Some d ->
      jsonw_character buf chr (Some p)
      = (Some (6 + p)%nat,
         if 4096 * a + 256 * b + 16 * c + d <=? 127
         then chr_of (4096 * a + 256 * b + 16 * c + d) else NUL)) /\
  (forall i,
      (i < 4)%nat -> hexval (peek buf (i + (2 + p))) = None ->
      jsonw_character buf chr (Some p) = (None, chr)).
Proof.
  intros Hb Hu. cbn [Nat.add] in Hu. split.
  - intros a b c d Ha Hb' Hc Hd. cbn [Nat.add] in *.
    pose proof (hexval_range _ _ Ha). pose proof (hexval_range _ _ Hb').
    pose proof (hexval_range _ _ Hc). pose proof (hexval_range _ _ Hd).
    rewrite (character_u buf chr p Hb Hu).
    rewrite (hex_step buf 0 (S (S p)) a 3) by (auto; lia).
    rewrite (hex_step buf _ (S (S (S p))) b 2) by (auto; lia).
    rewrite (hex_step buf _ (S (S (S (S p)))) c 1) by (auto; lia).
    rewrite (hex_step buf _ (S (S (S (S (S p))))) d 0) by (auto; lia).
    cbn [hex_loop].
    replace (16 * (16 * (16 * (16 * 0 + a) + b) + c) + d)
      with (4096 * a + 256 * b + 16 * c + d) by lia.
    reflexivity.
  - intros i Hi Hnone. rewrite (character_u buf chr p Hb Hu).
    cbn [Nat.add] in Hnone.
    now rewrite (hex_loop_none buf 4 0 (S (S p)) i Hi Hnone).
Qed.

(** The escape of the code point 7e, written with an upper-case digit,
    and an escape cut short. *)
Definition escape_7E : list ascii := BACKSLASH :: bytes "u007E".
Definition escape_cut : list ascii := BACKSLASH :: bytes "u00".

Lemma unicode_escape_value_witness :
  jsonw_character escape_7E "x"%char (Some 0%nat)
  = (Some 6%nat, "~"%char) /\
  jsonw_character escape_cut "x"%char (Some 0%nat) = (None, "x"%char).
Proof.
  split.
  - apply (proj1 (unicode_escape_value escape_7E "x"%char 0
                    eq_refl eq_refl) 0 0 7 14); reflexivity.
  - apply (proj2 (unicode_escape_value escape_cut "x"%char 0
                    eq_refl eq_refl) 2%nat); [lia | reflexivity].
Defined.

(** X14. [jsonw_string] accepts exactly an opening quote, a run of
    characters that [jsonw_character] decodes, and a closing quote; it
    returns the offset after the closing quote and stores the number of
    characters decoded, not the number of bytes, reduced modulo the size
    of [size_t]. *)
Theorem string_is_quoted_run (buf : list ascii) (len : Z) (p r : nat)
  (n : Z) :
  jsonw_string buf len (Some p) = (Some r, n) <->
  exists cs q,
    peek buf p = DQUOTE /\ decodes buf (S p) cs q /\
    peek buf q = DQUOTE /\ r = S q /\
    n = Z.of_nat (List.length cs) mod 2 ^ 64.
Proof.
  unfold jsonw_string, jsonw_beginstr, jsonw_endstr.
  cbn [jsonw_litchr].
  destruct (Ascii.eqb (peek buf p) DQUOTE) eqn:Hq.
  2: { apply Ascii.eqb_neq in Hq. cbn [cursor_fuel string_loop].
       cbn. split; [discriminate |].
       intros (cs & q & H & _). contradiction. }
  apply Ascii.eqb_eq in Hq. split.
  - destruct (string_loop_total buf (Some (S p))) as [[j m] Hl].
    rewrite Hl. cbn [unwrap].
    apply string_loop_run in Hl as (cs & q & -> & Hd & -> & Hstop).
    cbn [jsonw_litchr].
    destruct (Ascii.eqb (peek buf q) DQUOTE) eqn:Hq'; [| discriminate].
    apply Ascii.eqb_eq in Hq'. intros H. inversion H; subst.
    exists cs, q. repeat split; auto.
    rewrite count_up_mod by lia. reflexivity.
  - intros (cs & q & _ & Hd & Hq' & -> & ->).
    rewrite (string_loop_count buf (S p) cs q Hd (quote_stops buf q Hq'))
      by fuel_enough.
    cbn [unwrap jsonw_litchr]. rewrite Hq', Ascii.eqb_refl.
    rewrite count_up_mod by lia. reflexivity.
Qed.

(** A string of three characters whose body takes five bytes. *)
Definition escaped_string : list ascii :=
  DQUOTE :: "a"%char :: BACKSLASH :: DQUOTE :: BACKSLASH :: bytes "t"
  ++ [DQUOTE].

Lemma string_is_quoted_run_witness :
  jsonw_string escaped_string 0 (Some 0%nat) = (Some 7%nat, 3).
Proof.
  apply (string_is_quoted_run escaped_string 0 0 7 3).
  exists ["a"%char; DQUOTE; "009"%char], 6%nat.
  split; [reflexivity |]. split; [| repeat split; reflexivity].
  apply decodes_cons with (p' := 2%nat); [reflexivity |].
  apply decodes_cons with (p' := 4%nat); [reflexivity |].
  apply decodes_cons with (p' := 6%nat); [reflexivity |].
  apply decodes_nil.
Defined.

(** X15. [jsonw_unescape] stores the longest run that fits: given a run
    of characters that decode from the cursor, it stores all of them and
    returns the cursor at their end when the run is followed by a byte
    that does not decode and the capacity exceeds its length, and also
    when the run has exactly [len - 1] characters, whatever follows; the
    terminator comes right after, the rest of the buffer is untouched. *)
Theorem unescape_stores_run (buf out : list ascii) (len : Z) (p : nat)
  (cs : list ascii) (q : nat) :
  0 < len < 2 ^ 64 ->
  len <= Z.of_nat (List.length out) ->
  decodes buf p cs q ->
  Z.of_nat (List.length cs) = len - 1 \/
  (Z.of_nat (List.length cs) < len - 1 /\
   fst (jsonw_character buf NUL (Some q)) = None) ->
  jsonw_unescape buf out len (Some p)
  = Some (cs ++ NUL :: skipn (S (List.length cs)) out, Some q).
Proof.
  intros Hlen Hroom Hd Hcase. now apply jsonw_unescape_run.
Qed.

Lemma unescape_stores_run_witness :
  jsonw_unescape escaped_string (bytes "0123456") 4 (Some 1%nat)
  = Some (["a"%char; DQUOTE; "009"%char; NUL; "4"%char; "5"%char; "6"%char],
          Some 6%nat) /\
  jsonw_unescape escaped_string (bytes "0123456") 3 (Some 1%nat)
  = Some (["a"%char; DQUOTE; NUL; "3"%char; "4"%char; "5"%char; "6"%char],
          Some 4%nat).
Proof.
  split.
  - apply (unescape_stores_run escaped_string (bytes "0123456") 4 1
             ["a"%char; DQUOTE; "009"%char] 6); [lia | cbn; lia | |].
    + apply decodes_cons with (p' := 2%nat); [reflexivity |].
      apply decodes_cons with (p' := 4%nat); [reflexivity |].
      apply decodes_cons with (p' := 6%nat); [reflexivity |].
      apply decodes_nil.
    + left. reflexivity.
  - apply (unescape_stores_run escaped_string (bytes "0123456") 3 1
             ["a"%char; DQUOTE] 4); [lia | cbn; lia | |].
    + apply decodes_cons with (p' := 2%nat); [reflexivity |].
      apply decodes_cons with (p' := 4%nat); [reflexivity |].
      apply decodes_nil.
    + left. reflexivity.
Defined.

(** X16. The length that [jsonw_string] stores sizes the buffer of
    [jsonw_unescape]: for a text shorter than the range of [size_t], with
    a capacity of that length plus one, [jsonw_unescape] started after the
    opening quote stores every character of the string, as many as the
    length says, and returns the cursor of the closing quote. *)
Theorem string_length_sizes_buffer (buf out : list ascii) (len0 : Z)
  (p r : nat) (n : Z) :
  Z.of_nat (List.length buf) < 2 ^ 64 ->
  jsonw_string buf len0 (Some p) = (Some r, n) ->
  n + 1 <= Z.of_nat (List.length out) ->
  exists cs,
    Z.of_nat (List.length cs) = n /\
    jsonw_unescape buf out (n + 1) (jsonw_beginstr buf (Some p))
    = Some (cs ++ NUL :: skipn (S (List.length cs)) out, Some (r - 1)%nat) /\
    jsonw_endstr buf (Some (r - 1)%nat) = Some r.
Proof.
  intros Hbuf Hs Hroom.
  unfold jsonw_string, jsonw_beginstr, jsonw_endstr in Hs |- *.
  cbn [jsonw_litchr] in Hs |- *.
  destruct (Ascii.eqb (peek buf p) DQUOTE) eqn:Hq.
  2: { cbn in Hs. discriminate. }
  destruct (string_loop_total buf (Some (S p))) as [[j m] Hl].
  rewrite Hl in Hs. cbn [unwrap] in Hs.
  apply string_loop_run in Hl as (cs & q & -> & Hd & -> & Hstop).
  cbn [jsonw_litchr] in Hs.
  destruct (Ascii.eqb (peek buf q) DQUOTE) eqn:Hq'; [| discriminate].
  inversion Hs; subst r n; clear Hs.
  apply Ascii.eqb_eq in Hq. 
  assert (Hp : (p < List.length buf)%nat)
    by (apply peek_in_text; rewrite Hq; discriminate).
  pose proof (decodes_span buf (S p) cs q Hd ltac:(lia)) as Hspan.
  rewrite count_up_mod in Hroom |- * by lia.
  rewrite Z.add_0_l, Z.mod_small in Hroom |- * by lia.
  exists cs. split; [reflexivity |].
  replace (S q - 1)%nat with q by lia. split.
  - apply jsonw_unescape_run; auto; lia.
  - cbn [jsonw_litchr]. now rewrite Hq'.
Qed.

Lemma string_length_sizes_buffer_witness :
  exists cs,
    Z.of_nat (List.length cs) = 3 /\
    jsonw_unescape escaped_string (bytes "0123") (3 + 1)
      (jsonw_beginstr escaped_string (Some 0%nat))
    = Some (cs ++ NUL :: skipn (S (List.length cs)) (bytes "0123"),
            Some (7 - 1)%nat) /\
    jsonw_endstr escaped_string (Some (7 - 1)%nat) = Some 7%nat.
Proof.
  apply (string_length_sizes_buffer escaped_string (bytes "0123") 0 0 7 3);
    [cbn; lia | reflexivity | cbn; lia].
Defined.

(** X17. [jsonw_strcmp] compares a key with the characters that decode at
    the cursor, up to the first zero byte that decoding gives: when a run
    of characters without the zero byte decodes from the cursor and is
    followed by a byte that does not decode, or by a character that
    decodes to the zero byte, the result is 0 exactly when the key is that
    run.  A character beyond 0x7F, which decodes to the zero byte, thus
    ends the comparison as the closing quote does. *)
Theorem strcmp_compares_decoded (buf : list ascii) (name : string) (p : nat)
  (cs : list ascii) (q : nat) :
  c_string name = true ->
  decodes buf p cs q ->
  ~ In NUL cs ->
  snd (jsonw_character buf NUL (Some q)) = NUL ->
  (jsonw_strcmp buf name (Some p) = 0 <-> bytes name = cs).
Proof.
  intros Hname Hd Hnul Hend. now apply (strcmp_run buf p cs q).
Qed.

(** The key ab, followed by the escape of the code point e9. *)
Definition key_with_sentinel : list ascii :=
  DQUOTE :: bytes "ab" ++ BACKSLASH :: bytes "u00e9" ++ [DQUOTE].

Lemma strcmp_compares_decoded_witness :
  jsonw_strcmp (json_bytes "'key':1") "key" (Some 1%nat) = 0 /\
  jsonw_strcmp key_with_sentinel "ab" (Some 1%nat) = 0.
Proof.
  split.
  - apply (strcmp_compares_decoded (json_bytes "'key':1") "key" 1
             (bytes "key") 4); [reflexivity | | | reflexivity | reflexivity].
    + apply decodes_cons with (p' := 2%nat); [reflexivity |].
      apply decodes_cons with (p' := 3%nat); [reflexivity |].
      apply decodes_cons with (p' := 4%nat); [reflexivity |].
      apply decodes_nil.
    + cbn. intros [H | [H | [H | []]]]; discriminate.
  - apply (strcmp_compares_decoded key_with_sentinel "ab" 1
             (bytes "ab") 3); [reflexivity | | | reflexivity | reflexivity].
    + apply decodes_cons with (p' := 2%nat); [reflexivity |].
      apply decodes_cons with (p' := 3%nat); [reflexivity |].
      apply decodes_nil.
    + cbn. intros [H | [H | []]]; discriminate.
Defined.

(** ** Values and texts *)

(** X18. The kind that [jsonw_value] stores tells the first byte of the
    value: n for null, t or f for a boolean, a minus sign or a digit for a
    number, a double quote for a string, and, after white space if any, an
    opening bracket for an array and an opening brace for an object.  So a
    value that starts with white space is an array or an object: white
    space is skipped before the structured values only. *)
Theorem value_kind_first_byte (buf : list ascii) (type : jsonw_ty)
  (p q : nat) (k : jsonw_ty) :
  jsonw_value buf type (Some p) = (Some q, k) ->
  match k with
  | JSONW_NULL => peek buf p = "n"%char
  | JSONW_BOOLEAN => peek buf p = "t"%char \/ peek buf p = "f"%char
  | JSONW_NUMBER => peek buf p = "-"%char \/ isdigit (peek buf p) = true
  | JSONW_STRING => peek buf p = DQUOTE
  | JSONW_ARRAY => peek buf (ws_at buf p) = "["%char
  | JSONW_OBJECT => peek buf (ws_at buf p) = "{"%char
  end /\
  (is_wschr (peek buf p) = true -> k = JSONW_ARRAY \/ k = JSONW_OBJECT).
Proof.
  intros H. apply (value_kind buf type p q k) in H. split; [exact H |].
  intros Hws. destruct k; auto; exfalso;
    repeat match goal with
           | H : _ \/ _ |- _ => destruct H
           | H : peek buf p = _ |- _ => rewrite H in Hws; discriminate Hws
           end.
  unfold isdigit, is_wschr in *.
  destruct (code (peek buf p) =? 32) eqn:E1;
    [apply Z.eqb_eq in E1; rewrite E1 in *; discriminate |].
  destruct (code (peek buf p) =? 9) eqn:E2;
    [apply Z.eqb_eq in E2; rewrite E2 in *; discriminate |].
  destruct (code (peek buf p) =? 10) eqn:E3;
    [apply Z.eqb_eq in E3; rewrite E3 in *; discriminate |].
  destruct (code (peek buf p) =? 13) eqn:E4;
    [apply Z.eqb_eq in E4; rewrite E4 in *; discriminate |].
  discriminate.
Qed.

Lemma value_kind_first_byte_witness :
  peek (bytes "  [1]") (ws_at (bytes "  [1]") 0) = "["%char /\
  (is_wschr (peek (bytes "  [1]") 0) = true ->
   JSONW_ARRAY = JSONW_ARRAY \/ JSONW_ARRAY = JSONW_OBJECT).
Proof.
  apply (value_kind_first_byte (bytes "  [1]") JSONW_NULL 0 5 JSONW_ARRAY).
  vm_compute. reflexivity.
Defined.

(** X19. A text that holds nothing but white space, the empty text
    included, is not a document: [jsonw_text] returns [NULL] and leaves
    the kind alone, and the driver rejects the text. *)
Theorem blank_text_rejected (buf : list ascii) (type : jsonw_ty) :
  (forall i, (i < List.length buf)%nat -> is_wschr (peek buf i) = true) ->
  jsonw_text buf type (Some 0%nat) = (None, type) /\ valid buf = false.
Proof.
  intros Hall.
  assert (Hws : ws_at buf 0 = List.length buf).
  { apply ws_at_unique; [lia | intros i Hi; apply Hall; lia |].
    rewrite peek_overflow by lia. reflexivity. }
  assert (Hv : forall ty,
             jsonw_value buf ty (jsonw_ws buf (Some 0%nat)) = (None, ty)).
  { intros ty. cbn [jsonw_ws]. rewrite Hws.
    pose proof (value_ok buf ty (Some (List.length buf))) as Hok.
    unfold ok_result in Hok.
    destruct (jsonw_value buf ty (Some (List.length buf))) as [[j |] t];
      cbn [fst snd] in Hok.
    - destruct Hok as (p & Hp & _ & Hin). inversion Hp; subst. lia.
    - now subst. }
  unfold valid, jsonw_text. rewrite !Hv. split; reflexivity.
Qed.

Lemma blank_text_rejected_witness :
  jsonw_text (bytes "   ") JSONW_STRING (Some 0%nat) = (None, JSONW_STRING) /\
  valid (bytes "   ") = false.
Proof.
  apply (blank_text_rejected (bytes "   ") JSONW_STRING).
  intros i Hi. cbn in Hi.
  assert (i = 0 \/ i = 1 \/ i = 2)%nat as [-> | [-> | ->]] by lia;
    reflexivity.
Defined.

(** ** Lookup in an accepted object *)

(** X20. In an object that [jsonw_object] accepts (members followed by a
    closing brace), a key that [jsonw_find] finds from the first member
    has a value: [jsonw_find] returns the start of a member whose name
    compares equal to the key, [jsonw_lookup] returns the cursor after the
    name and its separator, and a value parses there. *)
Theorem found_key_has_value (buf : list ascii) (name : string)
  (p n j e q : nat) :
  members buf p n j ->
  jsonw_endobj buf (Some j) = Some e ->
  jsonw_find buf name (Some p) = Some q ->
  jsonw_strcmp buf name (jsonw_beginstr buf (Some q)) = 0 /\
  exists v w,
    jsonw_name buf (Some q) = Some v /\
    jsonw_lookup buf name (Some p) = Some v /\
    fst (jsonw_value buf JSONW_NULL (Some v)) = Some w.
Proof.
  intros Hm Hend Hfind.
  pose proof (jsonw_find_total buf name (Some p)) as Ht.
  rewrite Hfind in Ht.
  apply find_loop_scan in Ht as (k & Hk & Hcmp & _); [| fuel_enough].
  split; [exact Hcmp |].
  destruct (skip_members_in_object buf p n j e Hm Hend k q Hk) as [m Hq].
  destruct (members_head buf q m j Hq) as (v & w & Hname & Hv).
  exists v, w. repeat split; auto.
  unfold jsonw_lookup. now rewrite Hfind.
Qed.

Lemma found_key_has_value_witness :
  jsonw_strcmp (json_bytes "{'x':1,'y':[2]}") "y"
    (jsonw_beginstr (json_bytes "{'x':1,'y':[2]}") (Some 7%nat)) = 0 /\
  exists v w,
    jsonw_name (json_bytes "{'x':1,'y':[2]}") (Some 7%nat) = Some v /\
    jsonw_lookup (json_bytes "{'x':1,'y':[2]}") "y" (Some 1%nat) = Some v /\
    fst (jsonw_value (json_bytes "{'x':1,'y':[2]}") JSONW_NULL (Some v))
    = Some w.
Proof.
  apply (found_key_has_value (json_bytes "{'x':1,'y':[2]}") "y"
           1 1 14 15 7); [| reflexivity | reflexivity].
  apply members_more with (j := 6%nat) (k := 7%nat); [reflexivity .. |].
  apply members_last. reflexivity.
Defined.

(** ** The capacity of [jsonw_unescape] *)

(** X21. The capacity must not be zero: with [len] equal to 0 the count
    wraps around before it is tested, nothing bounds the stores any more,
    and decoding a string that has at least as many characters as the
    buffer has bytes stores outside the buffer. *)
Theorem unescape_without_capacity (buf out : list ascii) (p : nat)
  (cs : list ascii) (q : nat) :
  decodes buf p cs q ->
  fst (jsonw_character buf NUL (Some q)) = None ->
  Z.of_nat (List.length cs) < 2 ^ 64 - 1 ->
  (List.length out <= List.length cs)%nat ->
  jsonw_unescape buf out 0 (Some p) = None.
Proof.
  intros Hd Hstop Hcs Hout. unfold jsonw_unescape.
  rewrite (unescape_loop_overrun buf p cs q Hd Hstop
             (cursor_fuel buf (Some p)) out 0 0 ltac:(fuel_enough)
             Hcs ltac:(lia)).
  reflexivity.
Qed.

Lemma unescape_without_capacity_witness :
  jsonw_unescape (json_bytes "hi'") (bytes "xy") 0 (Some 0%nat) = None.
Proof.
  apply (unescape_without_capacity (json_bytes "hi'") (bytes "xy") 0
           (bytes "hi") 2); [| reflexivity | cbn; lia | cbn; lia].
  apply decodes_cons with (p' := 1%nat); [reflexivity |].
  apply decodes_cons with (p' := 2%nat); [reflexivity |].
  apply decodes_nil.
Defined.

(** ** The exponent of a number *)

(** X22. The exponent is counted in an [unsigned short] and read back as
    a [short]: the number made of 1, an exponent mark and digits is 1
    multiplied or divided by ten as many times as the digits say modulo
    65536, taken as a 16-bit signed number.  Exponents that differ by a
    multiple of 65536 give the same number. *)
Theorem exponent_wraps (buf : list ascii) (num : float) (p n : nat) :
  peek buf p = "1"%char -> peek buf (1 + p) = "e"%char ->
  (0 < n)%nat ->
  (forall i, (2 + p <= i < 2 + p + n)%nat -> isdigit (peek buf i) = true) ->
  isdigit (peek buf (2 + p + n)) = false ->
  jsonw_number buf num (Some p)
  = (Some (2 + p + n)%nat,
     let e := to_short (ushort (decimal_at buf n (2 + p) 0)) in
     if 0 <? e then scale_up (Z.to_nat e) 1%float
     else scale_down (Z.to_nat (- e)) 1%float).
Proof.
  intros H1 He Hn Hall Hstop. cbn [Nat.add] in *.
  assert (Hd2 : isdigit (peek buf (S (S p))) = true) by (apply Hall; lia).
  destruct (isdigit_not_sign _ Hd2) as [Hminus Hplus].
  unfold jsonw_number. rewrite H1.
  change (Ascii.eqb "1" "-") with false. cbv beta iota. rewrite H1.
  change (Ascii.eqb "1" "0") with false. cbv beta iota.
  rewrite (DIGIT_PLUS_one buf step_double (double_of_int 0) p)
    by (rewrite ?H1, ?He; reflexivity).
  rewrite H1, He.
  change (Ascii.eqb "e" ".") with false.
  change (Ascii.eqb "e" "e") with true. cbv beta iota. cbn [orb].
  rewrite Hminus, Hplus.
  rewrite (DIGIT_PLUS_ushort buf n (S (S p)) Hn Hall Hstop).
  assert (Hu : forall x, ushort (ushort x * 1) = ushort x).
  { intros x. unfold ushort. rewrite Z.mul_1_r. apply Z.mod_mod. lia. }
  assert (Hu' : forall x, ushort (ushort x - 0) = ushort x).
  { intros x. unfold ushort. rewrite Z.sub_0_r. apply Z.mod_mod. lia. }
  cbv zeta. rewrite Hu, He.
  change (Ascii.eqb "e" "e" || Ascii.eqb "e" "E")%bool with true.
  cbv beta iota. rewrite Hu'. reflexivity.
Qed.

Lemma exponent_wraps_witness :
  jsonw_number (bytes "1e65537") 0%float (Some 0%nat)
  = (Some 7%nat, 10%float).
Proof.
  apply (exponent_wraps (bytes "1e65537") 0%float 0 5);
    [reflexivity | reflexivity | lia | | reflexivity].
  intros i Hi.
  assert (i = 2 \/ i = 3 \/ i = 4 \/ i = 5 \/ i = 6)%nat
    as [-> | [-> | [-> | [-> | ->]]]] by lia; reflexivity.
Defined.

(** ** The terminator *)

(** X23. No parser crosses the terminator: between the cursor given to
    [jsonw_character], [jsonw_name], [jsonw_value] or [jsonw_text] and the
    cursor it returns there is no zero byte, so nothing is read after the
    first zero byte of the buffer.  A text with a zero byte in it is
    therefore never accepted by the driver. *)
Theorem parsers_stop_at_terminator (buf : list ascii) :
  (forall chr p q,
      fst (jsonw_character buf chr (Some p)) = Some q -> clean buf p q) /\
  (forall json q, jsonw_name buf json = Some q -> clean_from buf json q) /\
  (forall type json q,
      fst (jsonw_value buf type json) = Some q -> clean_from buf json q) /\
  (forall type p q,
      fst (jsonw_text buf type (Some p)) = Some q -> clean buf p q) /\
  (valid buf = true -> Forall (fun c => c <> NUL) buf).
Proof.
  repeat apply conj.
  - apply character_clean.
  - apply name_clean.
  - apply value_clean.
  - apply text_clean.
  - unfold valid. intros H.
    destruct (fst (jsonw_text buf JSONW_NULL (Some 0%nat))) as [e |] eqn:Ht;
      [| discriminate].
    apply Nat.eqb_eq in H. subst e. apply text_clean in Ht.
    apply Forall_forall. intros c Hin.
    destruct (In_nth buf c NUL Hin) as (i & Hi & <-).
    apply (Ht i). lia.
Qed.

Lemma parsers_stop_at_terminator_witness :
  Forall (fun c => c <> NUL) (json_bytes "{'a':[1,2]}").
Proof.
  apply (parsers_stop_at_terminator (json_bytes "{'a':[1,2]}")).
  vm_compute. reflexivity.
Defined.
